(** * Menu manager / public menu: a shallow embedding of the two scripts

    The repository holds two browser scripts: the manager view (form
    capture, create / update / delete over [/data], card rendering with
    weight-label extraction) and the public view ([items.js]: grouping by
    category, per-item label extraction, nutritional highlights).

    JavaScript strings are sequences of UTF-16 code units; they are
    modelled as lists of [N].  Regular expressions are modelled by a small
    backtracking matcher with the priorities of the ECMAScript one
    (leftmost start, greedy quantifiers, first successful alternative). *)

From Stdlib Require Import NArith ZArith Ascii String List Bool Lia DecimalString.
From stdpp Require Import base list gmap.

Local Open Scope N_scope.

(** ** JavaScript strings *)

Module JS.

Definition jsstring : Type := list N.

(** A source literal (ASCII only) as a list of code units. *)
Definition lit (s : string) : jsstring :=
  List.map N_of_ascii (list_ascii_of_string s).

(** Code unit 34, the double quote inside the HTML templates. *)
Definition dq : jsstring := [34].

(** [\d] *)
Definition is_digit (c : N) : bool := (48 <=? c) && (c <=? 57).

(** [\s], which is also the set removed by [String.prototype.trim]:
    WhiteSpace and LineTerminator of ECMAScript. *)
Definition is_space (c : N) : bool :=
  ((9 <=? c) && (c <=? 13)) || (c =? 32) || (c =? 160) || (c =? 5760)
  || ((8192 <=? c) && (c <=? 8202)) || (c =? 8232) || (c =? 8233)
  || (c =? 8239) || (c =? 8287) || (c =? 12288) || (c =? 65279).

Fixpoint trimStart (s : jsstring) : jsstring :=
  match s with
  | c :: s' => if is_space c then trimStart s' else s
  | [] => []
  end.

Definition trimEnd (s : jsstring) : jsstring := rev (trimStart (rev s)).

Definition trim (s : jsstring) : jsstring := trimEnd (trimStart s).

(** ToBoolean on a string: the empty string is the only falsy one. *)
Definition truthy (s : jsstring) : bool :=
  match s with [] => false | _ => true end.

(** [x || d] for a string [x]. *)
Definition or_default (x : jsstring) (d : jsstring) : jsstring :=
  if truthy x then x else d.

(** [x], a property that may be absent or null, used as a condition. *)
Definition present (x : option jsstring) : bool :=
  match x with
  | Some s => truthy s
  | None => false
  end.

(** Template interpolation of a property that may be absent. *)
Definition interpolate (x : option jsstring) : jsstring :=
  match x with
  | Some s => s
  | None => lit "undefined"
  end.

(** [hay.includes(needle)] *)
Fixpoint starts_with (needle hay : jsstring) : bool :=
  match needle, hay with
  | [], _ => true
  | _ :: _, [] => false
  | a :: needle', b :: hay' => (a =? b) && starts_with needle' hay'
  end.

Fixpoint includes (hay needle : jsstring) : bool :=
  starts_with needle hay
  || match hay with
     | [] => false
     | _ :: hay' => includes hay' needle
     end.

Definition eqb (a b : jsstring) : bool := bool_decide (a = b).

(** The names under which an object created by a literal or by
    [Object.fromEntries] finds a value it does not own: the properties
    of [Object.prototype], each a function or an object. *)
Definition Object_prototype : list jsstring :=
  List.map lit
    ["constructor"; "__defineGetter__"; "__defineSetter__";
     "hasOwnProperty"; "__lookupGetter__"; "__lookupSetter__";
     "isPrototypeOf"; "propertyIsEnumerable"; "toString"; "valueOf";
     "__proto__"; "toLocaleString"]%string.

Definition inherits (name : jsstring) : bool :=
  existsb (eqb name) Object_prototype.

End JS.

(** ** Regular expressions, as the scripts use them

    Every quantifier of the scripts applies to a single character or
    character class, every group is a plain capture group outside any
    quantifier, and the only assertion is [$] (without the [m] flag). *)

Module Regex.
Import JS.

Inductive re : Type :=
| Eps
| Cls (p : N -> bool)      (* one code unit of a class *)
| Opt (p : N -> bool)      (* [c?], greedy *)
| Star (p : N -> bool)     (* [c*], greedy *)
| Plus (p : N -> bool)     (* [c+], greedy *)
| Grp (r : re)             (* [( r )], capturing *)
| Cat (r1 r2 : re)
| Eos.                     (* [$] *)

Definition seq (l : list re) : re := fold_right Cat Eps l.

(** A literal character, case-sensitive. *)
Definition ch (c : string) : re :=
  match lit c with
  | x :: _ => Cls (N.eqb x)
  | [] => Eps
  end.

(** A literal lowercase ASCII letter under the [i] flag.  Without the [u]
    flag canonicalisation is [toUpperCase] restricted so that no
    non-ASCII unit maps to an ASCII one: exactly the two ASCII cases
    match. *)
Definition chi (c : string) : re :=
  match lit c with
  | x :: _ => Cls (fun y => (y =? x) || (y =? x - 32))
  | [] => Eps
  end.

Definition digit_or_dot (c : N) : bool := is_digit c || (c =? 46).
Definition is_dot (c : N) : bool := c =? 46.
Definition is_lparen (c : N) : bool := c =? 40.
Definition is_rparen (c : N) : bool := c =? 41.

(** Captures, in the order the groups close, and the input left. *)
Definition result : Type := list jsstring * jsstring.
Definition cont : Type := jsstring -> list jsstring -> option result.

(** The choice points of the backtracking matcher: the first alternative,
    and the second one only when the first fails. *)
Definition orelse (a b : option result) : option result :=
  match a with
  | Some r => Some r
  | None => b
  end.

(** Greedy [c*]: the longest run first, then shorter ones. *)
Fixpoint star (p : N -> bool) (s : jsstring) (caps : list jsstring)
    (k : cont) : option result :=
  match s with
  | c :: s' =>
      if p c then orelse (star p s' caps k) (k s caps) else k s caps
  | [] => k [] caps
  end.

Fixpoint m (r : re) (s : jsstring) (caps : list jsstring) (k : cont)
    : option result :=
  match r with
  | Eps => k s caps
  | Cls p =>
      match s with
      | c :: s' => if p c then k s' caps else None
      | [] => None
      end
  | Opt p =>
      match s with
      | c :: s' =>
          if p c then orelse (k s' caps) (k s caps) else k s caps
      | [] => k s caps
      end
  | Star p => star p s caps k
  | Plus p =>
      match s with
      | c :: s' => if p c then star p s' caps k else None
      | [] => None
      end
  | Grp r1 =>
      m r1 s caps
        (fun s' caps' =>
           k s' (caps' ++ [take (length s - length s') s]))
  | Cat r1 r2 => m r1 s caps (fun s' caps' => m r2 s' caps' k)
  | Eos =>
      match s with
      | [] => k [] caps
      | _ :: _ => None
      end
  end.

(** One attempt at the current position. *)
Definition exec_at (r : re) (s : jsstring) : option result :=
  m r s [] (fun s' caps => Some (caps, s')).

(** The leftmost match: (text before it, captures, text after it). *)
Fixpoint search (r : re) (pre : jsstring) (s : jsstring)
    : option (jsstring * list jsstring * jsstring) :=
  match exec_at r s with
  | Some (caps, rest) => Some (rev pre, caps, rest)
  | None =>
      match s with
      | c :: s' => search r (c :: pre) s'
      | [] => None
      end
  end.

(** [s.match(r)] for a regular expression without the [g] flag: the
    capture groups [m[1]], [m[2]], ... of the first match, or null. *)
Definition String_match (r : re) (s : jsstring) : option (list jsstring) :=
  match search r [] s with
  | Some (_, caps, _) => Some caps
  | None => None
  end.

(** [s.replace(r, '')]: the first match removed. *)
Definition String_replace_empty (r : re) (s : jsstring) : jsstring :=
  match search r [] s with
  | Some (pre, _, rest) => pre ++ rest
  | None => s
  end.

(** [m[i]] for [i >= 1]. *)
Definition group (caps : list jsstring) (i : nat) : jsstring :=
  nth (i - 1) caps [].

End Regex.

(** ** Menu items *)

Module Item.
Import JS.

(** A MenuItem record as the API returns it.  [ITEM] and [CATEGORY] are
    always present; [id] exists once the server has stored the item; the
    nutrition fields are numeric strings, absent or null ([None]). *)
Record t : Type := mk {
  id : option jsstring;
  ITEM : jsstring;
  CATEGORY : jsstring;
  CAL : option jsstring;
  FAT : option jsstring;
  SFAT : option jsstring;
  TFAT : option jsstring;
  CHOL : option jsstring;
  SALT : option jsstring;
  CARB : option jsstring;
  FBR : option jsstring;
  SGR : option jsstring;
  PRO : option jsstring
}.

(** An item known by its name and category only. *)
Definition named (name : jsstring) (cat : jsstring) : t :=
  mk None name cat None None None None None None None None None None.

End Item.

(** ** Manager view: the weight parsing of [renderItem] *)

Module Manager.
Import JS Regex.

(** Pattern 1 (line 288), token by token, flag [i]:
    [( \d+ \.? \d* ) \s* f l \s* o z \s* c u p \s* \( \d+ \s* g \)] *)
Definition pattern1 : re :=
  seq [Grp (seq [Plus is_digit; Opt is_dot; Star is_digit]);
       Star is_space; chi "f"; chi "l"; Star is_space; chi "o"; chi "z";
       Star is_space; chi "c"; chi "u"; chi "p"; Star is_space;
       Cls is_lparen; Plus is_digit; Star is_space; chi "g";
       Cls is_rparen].

(** Pattern 2 (line 299), flag [i]:
    [\( ( \d+ \.? \d* ) \s* f l \s* o z \s* c u p \)] *)
Definition pattern2 : re :=
  seq [Cls is_lparen;
       Grp (seq [Plus is_digit; Opt is_dot; Star is_digit]);
       Star is_space; chi "f"; chi "l"; Star is_space; chi "o"; chi "z";
       Star is_space; chi "c"; chi "u"; chi "p"; Cls is_rparen].

(** Pattern 3 (line 311), flag [i]:
    [( \d+ \.? \d* ) \s* f l \s* o z] *)
Definition pattern3 : re :=
  seq [Grp (seq [Plus is_digit; Opt is_dot; Star is_digit]);
       Star is_space; chi "f"; chi "l"; Star is_space; chi "o"; chi "z"].

(** Pattern 4 (line 323), flag [i]:
    [( \d+ \.? \d* ) \s* o z \s* \( ( \d+ ) \s* g \)] *)
Definition pattern4 : re :=
  seq [Grp (seq [Plus is_digit; Opt is_dot; Star is_digit]);
       Star is_space; chi "o"; chi "z"; Star is_space; Cls is_lparen;
       Grp (Plus is_digit); Star is_space; chi "g"; Cls is_rparen].

(** Pattern 5 (line 342), flag [i]:
    [\d+ \s* c o o k i e \s* \( ( \d+ \.? \d* ) \s* g \)] *)
Definition pattern5 : re :=
  seq [Plus is_digit; Star is_space;
       chi "c"; chi "o"; chi "o"; chi "k"; chi "i"; chi "e";
       Star is_space; Cls is_lparen;
       Grp (seq [Plus is_digit; Opt is_dot; Star is_digit]);
       Star is_space; chi "g"; Cls is_rparen].

(** Pattern 6 (line 354), flag [i]:
    [\(? \s* ( \d+ \.? \d* ) \s* g \s* \)?] *)
Definition pattern6 : re :=
  seq [Opt is_lparen; Star is_space;
       Grp (seq [Plus is_digit; Opt is_dot; Star is_digit]);
       Star is_space; chi "g"; Star is_space; Opt is_rparen].

(** [`<div class="weight-info">${q}</div>`] *)
Definition weight_div (q : jsstring) : jsstring :=
  lit "<div class=" ++ dq ++ lit "weight-info" ++ dq ++ lit ">" ++ q
    ++ lit "</div>".

Definition beverage_like (category : jsstring) : bool :=
  eqb category (lit "DESSERTSHAKE") || eqb category (lit "CONDIMENT")
  || eqb category (lit "BEVERAGE").

(** The two variables the cascade assigns. *)
Record parsed : Type := mkParsed {
  itemName : jsstring;
  weightInfo : jsstring
}.

(** One block [match = itemName.match(pattern); if (match) { ... }]. *)
Definition try_pattern (pattern : re) (info : list jsstring -> jsstring)
    (st : parsed) : parsed :=
  match String_match pattern (itemName st) with
  | Some caps =>
      mkParsed (trim (String_replace_empty pattern (itemName st)))
               (info caps)
  | None => st
  end.

(** [if (!weightInfo) { ... }] *)
Definition unless_weight (f : parsed -> parsed) (st : parsed) : parsed :=
  if negb (truthy (weightInfo st)) then f st else st.

(** Lines 278-361 of the manager script. *)
Definition parseWeight (item : Item.t) : parsed :=
  let st := mkParsed (or_default (Item.ITEM item) (lit "Unnamed Item")) [] in
  let category := or_default (Item.CATEGORY item) [] in
  let st :=
    try_pattern pattern1
      (fun caps => weight_div (group caps 1 ++ lit " fl oz")) st in
  let st :=
    unless_weight
      (try_pattern pattern2
         (fun caps => weight_div (group caps 1 ++ lit " fl oz"))) st in
  let st :=
    unless_weight
      (try_pattern pattern3
         (fun caps => weight_div (group caps 1 ++ lit " fl oz"))) st in
  let st :=
    unless_weight
      (try_pattern pattern4
         (fun caps =>
            if beverage_like category
            then weight_div (group caps 1 ++ lit " oz")
            else weight_div (group caps 2 ++ lit " g"))) st in
  let st :=
    unless_weight
      (try_pattern pattern5
         (fun caps => weight_div (group caps 1 ++ lit " g"))) st in
  let st :=
    if negb (truthy (weightInfo st)) && negb (beverage_like category)
    then try_pattern pattern6
           (fun caps => weight_div (group caps 1 ++ lit " g")) st
    else st in
  st.

(** *** The card of one item ([renderItem]) *)

Record card : Type := mkCard {
  card_data_id : jsstring;
  card_badge : jsstring;
  card_name : jsstring;
  card_weight : jsstring;
  card_facts : list (jsstring * jsstring);
  card_item : Item.t
}.

(** One line of the nutrition grid, present when the field is truthy. *)
Definition fact (label : string) (unit_ : string) (x : option jsstring)
    : list (jsstring * jsstring) :=
  match x with
  | Some v => if truthy v then [(lit label, v ++ lit unit_)] else []
  | None => []
  end.

Definition renderItem (item : Item.t) : card :=
  let st := parseWeight item in
  mkCard (interpolate (Item.id item))
         (or_default (Item.CATEGORY item) (lit "N/A"))
         (itemName st) (weightInfo st)
         (fact "Calories:" "" (Item.CAL item)
          ++ fact "Total Fat:" "g" (Item.FAT item)
          ++ fact "Saturated Fat:" "g" (Item.SFAT item)
          ++ fact "Trans Fat:" "g" (Item.TFAT item)
          ++ fact "Cholesterol:" "mg" (Item.CHOL item)
          ++ fact "Sodium:" "mg" (Item.SALT item)
          ++ fact "Carbohydrates:" "g" (Item.CARB item)
          ++ fact "Fiber:" "g" (Item.FBR item)
          ++ fact "Sugar:" "g" (Item.SGR item)
          ++ fact "Protein:" "g" (Item.PRO item))
         item.

(** *** Form data ([getFormData]) *)

(** The values a record built from the form can hold. *)
Inductive jval : Type :=
| JNull
| JBool (b : bool)
| JStr (s : jsstring).

Definition val_truthy (v : option jval) : bool :=
  match v with
  | Some (JStr s) => truthy s
  | Some (JBool b) => b
  | Some JNull | None => false
  end.

Definition val_to_string (v : option jval) : jsstring :=
  match v with
  | Some (JStr s) => s
  | Some (JBool true) => lit "true"
  | Some (JBool false) => lit "false"
  | Some JNull => lit "null"
  | None => lit "undefined"
  end.

(** The [type] of an [input] element; [Other] stands for the remaining
    textual types (email, search, ...), which submit their value as it
    is. *)
Inductive input_type : Type :=
| Hidden | Checkbox | Number | Range | Date | Text | Other.

Record input : Type := mkInput {
  in_type : input_type;
  in_name : jsstring;
  in_value : jsstring;
  in_checked : bool;
  in_disabled : bool
}.

(** A single-choice [select]; [sel_value] is the value of the selected
    option, if one is selected. *)
Record select : Type := mkSelect {
  sel_name : jsstring;
  sel_value : option jsstring;
  sel_disabled : bool
}.

Inductive control : Type :=
| CInput (el : input)
| CSelect (el : select).

(** The form: its controls in tree order. *)
Definition form : Type := list control.

(** [new FormData(myForm)]: the entry list of the form.  Disabled and
    unnamed controls and unchecked checkboxes contribute no entry. *)
Definition entry (c : control) : list (jsstring * jval) :=
  match c with
  | CInput el =>
      if in_disabled el || negb (truthy (in_name el)) then []
      else
        match in_type el with
        | Checkbox =>
            if in_checked el then [(in_name el, JStr (in_value el))]
            else []
        | _ => [(in_name el, JStr (in_value el))]
        end
  | CSelect el =>
      if sel_disabled el || negb (truthy (sel_name el)) then []
      else
        match sel_value el with
        | Some v => [(sel_name el, JStr v)]
        | None => []
        end
  end.

Definition entries (f : form) : list (jsstring * jval) :=
  flat_map entry f.

(** [Object.fromEntries]: a later entry overrides an earlier one. *)
Definition fromEntries (l : list (jsstring * jval)) : gmap jsstring jval :=
  foldl (fun json kv => <[kv.1 := kv.2]> json) ∅ l.

Definition inputs (f : form) : list input :=
  flat_map (fun c => match c with CInput el => [el] | CSelect _ => [] end) f.

Definition selects (f : form) : list select :=
  flat_map (fun c => match c with CSelect el => [el] | CInput _ => [] end) f.

(** What [json[name]] finds: a property of the record itself, a value
    inherited from [Object.prototype] (a function or an object), or
    nothing. *)
Inductive found : Type :=
| Own (v : jval)
| Inherited
| Undefined.

Definition get (json : gmap jsstring jval) (name : jsstring) : found :=
  match json !! name with
  | Some v => Own v
  | None => if inherits name then Inherited else Undefined
  end.

(** [!value || value.trim() === ''].  [None] is the TypeError raised by
    [true.trim()] and by [value.trim()] on an inherited function or
    object, none of which has a [trim] method. *)
Definition isEmpty (value : found) : option bool :=
  match value with
  | Undefined | Own JNull | Own (JBool false) => Some true
  | Own (JBool true) | Inherited => None
  | Own (JStr s) => Some (negb (truthy s) || eqb (trim s) [])
  end.

(** The value that is stored back when it is not empty. *)
Definition or_null (value : found) : jval :=
  match value with
  | Own v => v
  | Inherited | Undefined => JNull
  end.

Definition own (value : found) : option jval :=
  match value with
  | Own v => Some v
  | Inherited | Undefined => None
  end.

Section Builtins.

(** [new Date(value).toISOString()]; [None] is its RangeError on an
    invalid date. *)
Variable toISOString : jsstring -> option jsstring.

(** [String.prototype.toLowerCase]. *)
Variable toLowerCase : jsstring -> jsstring.

(** The body of the loop over the [input] elements. *)
Definition coerce_input (json : gmap jsstring jval) (el : input)
    : option (gmap jsstring jval) :=
  let value := get json (in_name el) in
  match in_type el with
  | Hidden => Some json
  | ty =>
      match isEmpty value with
      | None => None
      | Some empty =>
          match ty with
          | Checkbox => Some (<[in_name el := JBool (in_checked el)]> json)
          | Number | Range =>
              Some (<[in_name el :=
                        if empty then JNull else or_null value]> json)
          | Date =>
              if empty then Some (<[in_name el := JNull]> json)
              else
                match toISOString (val_to_string (own value)) with
                | Some iso => Some (<[in_name el := JStr iso]> json)
                | None => None
                end
          | Text =>
              if empty then Some (<[in_name el := JNull]> json)
              else Some json
          | _ => Some json
          end
      end
  end.

(** The body of the loop over the [select] elements. *)
Definition coerce_select (json : gmap jsstring jval) (el : select)
    : option (gmap jsstring jval) :=
  match isEmpty (get json (sel_name el)) with
  | None => None
  | Some true => Some (<[sel_name el := JNull]> json)
  | Some false => Some json
  end.

(** A [forEach] whose body may throw. *)
Fixpoint forEach {A S : Type} (body : S -> A -> option S) (l : list A)
    (st : S) : option S :=
  match l with
  | [] => Some st
  | x :: l' =>
      match body st x with
      | Some st' => forEach body l' st'
      | None => None
      end
  end.

Definition getFormData (f : form) : option (gmap jsstring jval) :=
  let json := fromEntries (entries f) in
  match forEach coerce_input (inputs f) json with
  | Some json => forEach coerce_select (selects f) json
  | None => None
  end.

(** *** The page and its requests *)

Inductive method : Type := GET | POST | PUT | DELETE.

Record request : Type := mkRequest {
  req_method : method;
  req_url : jsstring;
  req_body : option (gmap jsstring jval)
}.

(** What [await response.json()] gives for a body other than the item
    list: [null], or a value with optional [details] and [error]
    strings (a primitive or an array has neither). *)
Inductive reply : Type :=
| ReplyNull
| ReplyObject (details error : option jsstring).

(** How a [fetch] settles.  [body = None]: [response.json()] rejects. *)
Inductive outcome (B : Type) : Type :=
| Rejected
| Response (ok : bool) (statusText : jsstring) (body : option B).
Arguments Rejected {B}.
Arguments Response {B} ok statusText body.

(** The code that resumes when a request settles. *)
Inductive kont : Type := KList | KSave | KDelete.

Inductive content : Type :=
| Html (markup : jsstring)
| Cards (cards : list card).

(** A confirm or cancel closure of one [deleteItem] call: the call's
    serial number and the id it closes over. *)
Definition closure : Type := (nat * option jsstring)%type.

Record page : Type := mkPage {
  allItems : list Item.t;
  contentArea : content;
  createButtonHidden : bool;
  toasts : list jsstring;
  alerts : list jsstring;
  modalShown : bool;
  confirmListeners : list closure;
  cancelListeners : list closure;
  nextClosure : nat;
  issued : list request;
  inflight : list (request * kont);
  searchInput : jsstring;
  categoryFilter : jsstring
}.

Definition init : page :=
  mkPage [] (Html []) false [] [] false [] [] 0 [] [] [] [].

Definition set_allItems (l : list Item.t) (st : page) : page :=
  mkPage l (contentArea st) (createButtonHidden st) (toasts st)
    (alerts st) (modalShown st) (confirmListeners st)
    (cancelListeners st) (nextClosure st) (issued st) (inflight st)
    (searchInput st) (categoryFilter st).

Definition set_contentArea (c : content) (st : page) : page :=
  mkPage (allItems st) c (createButtonHidden st) (toasts st)
    (alerts st) (modalShown st) (confirmListeners st)
    (cancelListeners st) (nextClosure st) (issued st) (inflight st)
    (searchInput st) (categoryFilter st).

Definition hide_createButton (st : page) : page :=
  mkPage (allItems st) (contentArea st) true (toasts st)
    (alerts st) (modalShown st) (confirmListeners st)
    (cancelListeners st) (nextClosure st) (issued st) (inflight st)
    (searchInput st) (categoryFilter st).

Definition showToast (message : jsstring) (st : page) : page :=
  mkPage (allItems st) (contentArea st) (createButtonHidden st)
    (toasts st ++ [message])
    (alerts st) (modalShown st) (confirmListeners st)
    (cancelListeners st) (nextClosure st) (issued st) (inflight st)
    (searchInput st) (categoryFilter st).

Definition alert (message : jsstring) (st : page) : page :=
  mkPage (allItems st) (contentArea st) (createButtonHidden st)
    (toasts st) (alerts st ++ [message])
    (modalShown st) (confirmListeners st)
    (cancelListeners st) (nextClosure st) (issued st) (inflight st)
    (searchInput st) (categoryFilter st).

Definition set_modal (shown : bool) (confirm cancel : list closure)
    (next : nat) (st : page) : page :=
  mkPage (allItems st) (contentArea st) (createButtonHidden st)
    (toasts st) (alerts st) shown confirm cancel next
    (issued st) (inflight st) (searchInput st) (categoryFilter st).

Definition set_inflight (l : list (request * kont)) (st : page) : page :=
  mkPage (allItems st) (contentArea st) (createButtonHidden st)
    (toasts st) (alerts st) (modalShown st) (confirmListeners st)
    (cancelListeners st) (nextClosure st) (issued st) l
    (searchInput st) (categoryFilter st).

Definition set_filters (term category : jsstring) (st : page) : page :=
  mkPage (allItems st) (contentArea st) (createButtonHidden st)
    (toasts st) (alerts st) (modalShown st) (confirmListeners st)
    (cancelListeners st) (nextClosure st) (issued st) (inflight st)
    term category.

(** [fetch(url, options)]: the request leaves; [k] resumes later. *)
Definition fetch (req : request) (k : kont) (st : page) : page :=
  mkPage (allItems st) (contentArea st) (createButtonHidden st)
    (toasts st) (alerts st) (modalShown st) (confirmListeners st)
    (cancelListeners st) (nextClosure st)
    (issued st ++ [req]) (inflight st ++ [(req, k)])
    (searchInput st) (categoryFilter st).

(** *** [filterAndDisplayItems] *)

Definition passes (searchTerm selectedCategory : jsstring)
    (item : Item.t) : bool :=
  let matchesSearch :=
    negb (truthy searchTerm)
    || (truthy (Item.ITEM item)
        && includes (toLowerCase (Item.ITEM item)) searchTerm) in
  let matchesCategory :=
    negb (truthy selectedCategory)
    || eqb (Item.CATEGORY item) selectedCategory in
  matchesSearch && matchesCategory.

Definition filterAndDisplayItems (st : page) : page :=
  let searchTerm := trim (toLowerCase (searchInput st)) in
  let selectedCategory := categoryFilter st in
  let filteredItems :=
    List.filter (passes searchTerm selectedCategory) (allItems st) in
  match filteredItems with
  | [] => set_contentArea
            (Html (lit "<p><i>No items match your search.</i></p>")) st
  | _ => set_contentArea (Cards (List.map renderItem filteredItems)) st
  end.

(** *** [getData] *)

Definition getData (st : page) : page :=
  fetch (mkRequest GET (lit "/data") None) KList st.

(** The rest of [getData], once the list request has settled.  The body
    of an ok answer is an array of items, as the API of the page returns
    it; a body of another JSON type is outside the model. *)
Definition getData_resume (o : outcome (list Item.t)) (st : page)
    : page :=
  match o with
  | Response true _ (Some data) =>
      match data with
      | [] =>
          set_contentArea
            (Html (lit "<p><i>No data found in the database.</i></p>"))
            st
      | _ => filterAndDisplayItems (set_allItems data st)
      end
  | Response false _ _ =>
      set_contentArea
        (Html (lit "<p>Could not connect to the database.</p>"))
        (hide_createButton st)
  | Response true _ None | Rejected =>
      set_contentArea (Html (lit "<p>Error loading menu items.</p>")) st
  end.

(** *** [saveItem] *)

Definition saveItem (data : gmap jsstring jval) (st : page) : page :=
  let id := data !! lit "id" in
  let endpoint :=
    if val_truthy id then lit "/data/" ++ val_to_string id
    else lit "/data" in
  let method := if val_truthy id then PUT else POST in
  fetch (mkRequest method endpoint (Some data)) KSave st.

Definition first_truthy (a b : option jsstring) (c : jsstring)
    : jsstring :=
  if present a then interpolate a
  else if present b then interpolate b
  else c.

(** The rest of [saveItem], once its request has settled. *)
Definition saveItem_resume (o : outcome reply) (st : page) : page :=
  match o with
  | Response false statusText (Some (ReplyObject details error)) =>
      alert (lit "Failed to save: "
               ++ first_truthy details error statusText) st
  | Response false statusText (Some ReplyNull)
  | Response false statusText None =>
      alert (lit "Failed to save: " ++ statusText) st
  | Response true _ (Some _) =>
      getData (showToast (lit "Menu item saved successfully!") st)
  | Response true _ None | Rejected =>
      alert (lit "An error occurred while saving") st
  end.

(** *** [deleteItem] *)

Definition remove_closure (n : nat) (l : list closure) : list closure :=
  List.filter (fun c => negb (Nat.eqb c.1 n)) l.

Definition has_closure (n : nat) (l : list closure) : bool :=
  existsb (fun c => Nat.eqb c.1 n) l.

Definition deleteItem (id : option jsstring) (st : page) : page :=
  let n := nextClosure st in
  set_modal true (confirmListeners st ++ [(n, id)])
    (cancelListeners st ++ [(n, id)]) (S n) st.

(** [handleConfirm], up to its [await fetch]. *)
Definition handleConfirm (c : closure) (st : page) : page :=
  let st :=
    set_modal false (remove_closure c.1 (confirmListeners st))
      (remove_closure c.1 (cancelListeners st)) (nextClosure st) st in
  fetch (mkRequest DELETE (lit "/data/" ++ interpolate c.2) None)
    KDelete st.

Definition handleCancel (c : closure) (st : page) : page :=
  set_modal false (remove_closure c.1 (confirmListeners st))
    (remove_closure c.1 (cancelListeners st)) (nextClosure st) st.

(** The rest of [handleConfirm], once the request has settled. *)
Definition handleConfirm_resume (o : outcome reply) (st : page) : page :=
  match o with
  | Response true _ (Some _) =>
      getData (showToast (lit "Item deleted successfully") st)
  | Response false _ (Some (ReplyObject _ error)) =>
      alert (if present error then interpolate error
             else lit "Failed to delete item") st
  | _ => alert (lit "An error occurred while deleting") st
  end.

(** A click on a modal button: the listeners registered when the click
    is dispatched run in order, each one unless it has been removed in
    the meantime. *)
Definition click_confirm (st : page) : page :=
  foldl (fun st c =>
           if has_closure c.1 (confirmListeners st)
           then handleConfirm c st else st)
        st (confirmListeners st).

Definition click_cancel (st : page) : page :=
  foldl (fun st c =>
           if has_closure c.1 (cancelListeners st)
           then handleCancel c st else st)
        st (cancelListeners st).

(** *** Events *)

Inductive event : Type :=
| Submit (f : form)
| ClickDelete (item : Item.t)
| ClickConfirm
| ClickCancel
| SearchInput (term : jsstring)
| CategoryChange (category : jsstring)
| ListSettles (n : nat) (o : outcome (list Item.t))
| SaveSettles (n : nat) (o : outcome reply)
| DeleteSettles (n : nat) (o : outcome reply).

(** The [n]th request in flight, if it resumes with [k]. *)
Definition settle (n : nat) (k : kont) (st : page) : option page :=
  match inflight st !! n with
  | Some (_, k') =>
      match k, k' with
      | KList, KList | KSave, KSave | KDelete, KDelete =>
          Some (set_inflight (delete n (inflight st)) st)
      | _, _ => None
      end
  | None => None
  end.

Definition step (st : page) (e : event) : page :=
  match e with
  | Submit f =>
      match getFormData f with
      | Some data => saveItem data st
      | None => st
      end
  | ClickDelete item => deleteItem (Item.id item) st
  | ClickConfirm => click_confirm st
  | ClickCancel => click_cancel st
  | SearchInput term =>
      filterAndDisplayItems (set_filters term (categoryFilter st) st)
  | CategoryChange category =>
      filterAndDisplayItems (set_filters (searchInput st) category st)
  | ListSettles n o =>
      match settle n KList st with
      | Some st' => getData_resume o st'
      | None => st
      end
  | SaveSettles n o =>
      match settle n KSave st with
      | Some st' => saveItem_resume o st'
      | None => st
      end
  | DeleteSettles n o =>
      match settle n KDelete st with
      | Some st' => handleConfirm_resume o st'
      | None => st
      end
  end.

Definition run (evs : list event) (st : page) : page :=
  foldl step st evs.

(** The script ends with a call of [getData]. *)
Definition loaded : page := getData init.

End Builtins.

Arguments Rejected {B}.
Arguments Response {B} ok statusText body.

End Manager.

(** ** Public view ([items.js]) *)

Module Public.
Import JS Regex.

(** *** The label patterns of [displayCategoryItems]

    Each [match] pattern has a twin without groups for [replace]. *)

(** Line 139: [\s* ( [\d.]+ ) \s* o z \s* \( ( \d+ ) \s* g \) \s* $] *)
Definition match1 : re :=
  seq [Star is_space; Grp (Plus digit_or_dot); Star is_space;
       ch "o"; ch "z"; Star is_space; Cls is_lparen; Grp (Plus is_digit);
       Star is_space; ch "g"; Cls is_rparen; Star is_space; Eos].

(** Line 143: [\s* [\d.]+ \s* o z \s* \( \d+ \s* g \) \s* $] *)
Definition replace1 : re :=
  seq [Star is_space; Plus digit_or_dot; Star is_space;
       ch "o"; ch "z"; Star is_space; Cls is_lparen; Plus is_digit;
       Star is_space; ch "g"; Cls is_rparen; Star is_space; Eos].

(** Line 146: [\s* \( ( \d+ ) \s* g \) \s* $] *)
Definition match2 : re :=
  seq [Star is_space; Cls is_lparen; Grp (Plus is_digit); Star is_space;
       ch "g"; Cls is_rparen; Star is_space; Eos].

(** Line 149: [\s* \( \d+ \s* g \) \s* $] *)
Definition replace2 : re :=
  seq [Star is_space; Cls is_lparen; Plus is_digit; Star is_space;
       ch "g"; Cls is_rparen; Star is_space; Eos].

(** Line 152: [\s+ ( \d+ ) \s* g \s* $] *)
Definition match3 : re :=
  seq [Plus is_space; Grp (Plus is_digit); Star is_space; ch "g";
       Star is_space; Eos].

(** Line 155: [\s+ \d+ \s* g \s* $] *)
Definition replace3 : re :=
  seq [Plus is_space; Plus is_digit; Star is_space; ch "g";
       Star is_space; Eos].

(** Line 161: [\s* \( ( [\d.]+ ) \s* o z \) \s* $] *)
Definition match4 : re :=
  seq [Star is_space; Cls is_lparen; Grp (Plus digit_or_dot);
       Star is_space; ch "o"; ch "z"; Cls is_rparen; Star is_space; Eos].

(** Line 164: [\s* \( [\d.]+ \s* o z \) \s* $] *)
Definition replace4 : re :=
  seq [Star is_space; Cls is_lparen; Plus digit_or_dot;
       Star is_space; ch "o"; ch "z"; Cls is_rparen; Star is_space; Eos].

(** Line 167: [\s+ ( [\d.]+ ) \s* o z \s* $] *)
Definition match5 : re :=
  seq [Plus is_space; Grp (Plus digit_or_dot); Star is_space;
       ch "o"; ch "z"; Star is_space; Eos].

(** Line 170: [\s+ [\d.]+ \s* o z \s* $] *)
Definition replace5 : re :=
  seq [Plus is_space; Plus digit_or_dot; Star is_space;
       ch "o"; ch "z"; Star is_space; Eos].

(** The three variables the cascade assigns. *)
Record label : Type := mkLabel {
  cleanedName : jsstring;
  grams : jsstring;
  ounces : jsstring
}.

(** Lines 131-176 of [items.js]. *)
Definition extractLabel (itemText : jsstring) : label :=
  match String_match match1 itemText with
  | Some gramsMatch =>
      mkLabel (String_replace_empty replace1 itemText)
              (group gramsMatch 2) (group gramsMatch 1)
  | None =>
      let st :=
        match String_match match2 itemText with
        | Some gramsMatch =>
            mkLabel (String_replace_empty replace2 itemText)
                    (group gramsMatch 1) []
        | None =>
            match String_match match3 itemText with
            | Some gramsMatch =>
                mkLabel (String_replace_empty replace3 itemText)
                        (group gramsMatch 1) []
            | None => mkLabel itemText [] []
            end
        end in
      if negb (truthy (grams st)) then
        match String_match match4 itemText with
        | Some ouncesMatch =>
            mkLabel (String_replace_empty replace4 itemText)
                    (grams st) (group ouncesMatch 1)
        | None =>
            match String_match match5 itemText with
            | Some ouncesMatch2 =>
                mkLabel (String_replace_empty replace5 itemText)
                        (grams st) (group ouncesMatch2 1)
            | None => st
            end
        end
      else st
  end.

(** *** [getNutritionalHighlight] *)

Definition is_hex_digit (c : N) : bool :=
  is_digit c || ((97 <=? c) && (c <=? 102)) || ((65 <=? c) && (c <=? 70)).

Definition digit_value (c : N) : Z :=
  if is_digit c then Z.of_N (c - 48)
  else if (97 <=? c) && (c <=? 102) then Z.of_N (c - 87)
  else Z.of_N (c - 55).

(** The value of the longest prefix of digits in the radix; [None] when
    there is no digit. *)
Fixpoint digits_prefix (is_dig : N -> bool) (radix : Z) (acc : option Z)
    (s : jsstring) : option Z :=
  match s with
  | c :: s' =>
      if is_dig c
      then digits_prefix is_dig radix
             (Some (match acc with Some a => a | None => 0 end * radix
                    + digit_value c)%Z) s'
      else acc
  | [] => acc
  end.

(** [parseInt(x)] with no radix; [None] is NaN.  The result is the exact
    integer: a double rounds monotonically and every threshold below is
    a double, so each comparison has the same outcome as on the double. *)
Definition parseInt (x : option jsstring) : option Z :=
  match x with
  | None => None
  | Some inputString =>
      let str := trimStart inputString in
      let '(sign, str) :=
        match str with
        | 45 :: str' => ((-1)%Z, str')
        | 43 :: str' => (1%Z, str')
        | _ => (1%Z, str)
        end in
      let r :=
        match str with
        | 48 :: 120 :: str' | 48 :: 88 :: str' =>
            digits_prefix is_hex_digit 16 None str'
        | _ => digits_prefix is_digit 10 None str
        end in
      match r with
      | Some v => Some (sign * v)%Z
      | None => None
      end
  end.

(** [parseInt(x) || 0] *)
Definition metric (x : option jsstring) : Z :=
  match parseInt x with
  | Some v => v
  | None => 0%Z
  end.

(** Decimal text of an integer: what [Number::toString] prints for an
    integer of magnitude below [2^53] (beyond, JavaScript prints the
    rounded double). *)
Definition Number_toString (z : Z) : jsstring :=
  lit (NilZero.string_of_int (Z.to_int z)).

(** [`<span class="nutritional-highlight">${text}</span>`] *)
Definition highlight_span (text : jsstring) : jsstring :=
  lit "<span class=" ++ dq ++ lit "nutritional-highlight" ++ dq ++ lit ">"
    ++ text ++ lit "</span>".

Definition getNutritionalHighlight (item : Item.t)
    (activeFilter : option jsstring) : jsstring :=
  if negb (present activeFilter) then []
  else
    let protein := metric (Item.PRO item) in
    let fiber := metric (Item.FBR item) in
    let carbs := metric (Item.CARB item) in
    let sugar := metric (Item.SGR item) in
    let calories := metric (Item.CAL item) in
    let f := interpolate activeFilter in
    if eqb f (lit "high-protein") then
      if (20 <=? protein)%Z
      then highlight_span (Number_toString protein ++ lit "g protein")
      else []
    else if eqb f (lit "gut-friendly") then
      if (5 <=? fiber)%Z
      then highlight_span (Number_toString fiber ++ lit "g fiber")
      else []
    else if eqb f (lit "low-carb") then
      if (carbs <=? 20)%Z
      then highlight_span (Number_toString carbs ++ lit "g carbs")
      else []
    else if eqb f (lit "low-sugar") then
      if (sugar <=? 10)%Z
      then highlight_span (Number_toString sugar ++ lit "g sugar")
      else []
    else if eqb f (lit "calorie-conscious") then
      if (calories <=? 400)%Z
      then highlight_span (Number_toString calories ++ lit " cal")
      else []
    else [].

(** *** [displayCategoryItems] *)

Record listing : Type := mkListing {
  popoverId : jsstring * nat;
  item_name : jsstring;
  item_grams : jsstring;
  item_ounces : jsstring;
  nutritionalHighlight : jsstring;
  listed : Item.t
}.

Definition span (class : string) (text : jsstring) : jsstring :=
  lit "<span class=" ++ dq ++ lit class ++ dq ++ lit ">" ++ text
    ++ lit "</span>".

Definition listing_of (categoryName : jsstring)
    (activeFilter : option jsstring) (index : nat) (item : Item.t)
    : listing :=
  let l := extractLabel (Item.ITEM item) in
  mkListing (categoryName, index) (cleanedName l)
    (if truthy (grams l) then span "item-grams" (grams l ++ lit "g")
     else [])
    (if truthy (ounces l) && negb (truthy (grams l))
     then span "item-ounces" (ounces l ++ lit "oz") else [])
    (getNutritionalHighlight item activeFilter)
    item.

Record section : Type := mkSection {
  sec_category : jsstring;
  sec_count : nat;
  sec_listings : list listing
}.

(** ASCII whitespace, which a class token must not contain. *)
Definition ascii_whitespace (c : N) : bool :=
  (c =? 9) || (c =? 10) || (c =? 12) || (c =? 13) || (c =? 32).

(** [classList.add(token)] throws on the empty token and on a token with
    ASCII whitespace.  The token here is [categoryName.toLowerCase()];
    lower-casing neither empties a string nor adds or removes ASCII
    whitespace, so the test is made on [categoryName]. *)
Definition valid_token (token : jsstring) : bool :=
  truthy token && forallb (fun c => negb (ascii_whitespace c)) token.

(** The section built for a category. *)
Definition section_of (categoryName : jsstring) (items : list Item.t)
    (activeFilter : option jsstring) : section :=
  mkSection categoryName (length items)
    (imap (listing_of categoryName activeFilter) items).

(** [None] is the exception of [section.classList.add]. *)
Definition displayCategoryItems (categoryName : jsstring)
    (items : list Item.t) (activeFilter : option jsstring)
    : option section :=
  if valid_token categoryName
  then Some (section_of categoryName items activeFilter)
  else None.

(** *** [createListings] *)

(** The object [categories]: its own properties in creation order. *)
Definition object : Type := list (jsstring * list Item.t).

(** The property names every object inherits from [Object.prototype];
    each holds a function or an object, hence a truthy value without a
    [push] method. *)
Definition inherited_names : list jsstring :=
  List.map lit
    ["constructor"; "__defineGetter__"; "__defineSetter__";
     "hasOwnProperty"; "__lookupGetter__"; "__lookupSetter__";
     "isPrototypeOf"; "propertyIsEnumerable"; "toString"; "valueOf";
     "__proto__"; "toLocaleString"]%string.

Definition inherited (key : jsstring) : bool :=
  existsb (eqb key) inherited_names.

Fixpoint own (categories : object) (key : jsstring)
    : option (list Item.t) :=
  match categories with
  | [] => None
  | (k, v) :: rest => if eqb k key then Some v else own rest key
  end.

(** [categories[key].push(item)] on an own property. *)
Fixpoint push (categories : object) (key : jsstring) (item : Item.t)
    : object :=
  match categories with
  | [] => []
  | (k, v) :: rest =>
      if eqb k key then (k, v ++ [item]) :: rest
      else (k, v) :: push rest key item
  end.

(** The body of [menuItems.forEach]; [None] is the TypeError of calling
    [push] on an inherited value. *)
Definition group_item (categories : object) (item : Item.t)
    : option object :=
  let category := Item.CATEGORY item in
  match own categories category with
  | Some _ => Some (push categories category item)
  | None =>
      if inherited category then None
      else Some (push (categories ++ [(category, [])]) category item)
  end.

Fixpoint group_items (menuItems : list Item.t) (categories : object)
    : option object :=
  match menuItems with
  | [] => Some categories
  | item :: rest =>
      match group_item categories item with
      | Some categories' => group_items rest categories'
      | None => None
      end
  end.

(** An array index: the canonical decimal text of an integer below
    [2^32 - 1]. *)
Definition array_index (key : jsstring) : option N :=
  match key with
  | [] => None
  | [48] => Some 0
  | 48 :: _ => None
  | _ =>
      if forallb is_digit key then
        let v := fold_left (fun a c => a * 10 + (c - 48)) key 0 in
        if v <? 4294967295 then Some v else None
      else None
  end.

Fixpoint insert_index (e : N * (jsstring * list Item.t))
    (l : list (N * (jsstring * list Item.t)))
    : list (N * (jsstring * list Item.t)) :=
  match l with
  | [] => [e]
  | x :: rest =>
      if e.1 <=? x.1 then e :: l else x :: insert_index e rest
  end.

(** [Object.entries]: array indices in ascending order, then the other
    names in creation order. *)
Definition Object_entries (o : object) : list (jsstring * list Item.t) :=
  let indexed :=
    flat_map (fun e => match array_index e.1 with
                       | Some i => [(i, e)]
                       | None => []
                       end) o in
  let named :=
    List.filter (fun e => match array_index e.1 with
                          | Some _ => false
                          | None => true
                          end) o in
  List.map snd (fold_right insert_index [] indexed) ++ named.

Definition non_empty (e : jsstring * list Item.t) : bool :=
  match e.2 with [] => false | _ => true end.

(** What [createListings] leaves behind: the filter buttons after
    "Show All" (by their [dataset.category]), the two globals, and the
    rendered sections. *)
Record listings : Type := mkListings {
  filter_buttons : list jsstring;
  menuCategories : object;
  allMenuItems : list Item.t;
  sections : list section
}.

Definition createFilterButtons (categories : object) : list jsstring :=
  List.map fst (List.filter non_empty (Object_entries categories)).

(** The [forEach] that displays the categories; it stops at the first
    exception. *)
Fixpoint display_all (entries : list (jsstring * list Item.t))
    : option (list section) :=
  match entries with
  | [] => Some []
  | e :: rest =>
      match displayCategoryItems e.1 e.2 None with
      | Some sec =>
          match display_all rest with
          | Some secs => Some (sec :: secs)
          | None => None
          end
      | None => None
      end
  end.

Definition createListings (menuItems : list Item.t) : option listings :=
  match group_items menuItems [] with
  | Some categories =>
      match display_all
              (List.filter non_empty (Object_entries categories)) with
      | Some secs =>
          Some (mkListings (createFilterButtons categories) categories
                  menuItems secs)
      | None => None
      end
  | None => None
  end.

End Public.

(** ** What a successful match looks like

    [matches r s s' cs]: the expression [r] can consume a prefix of [s],
    leave [s'] and record the captures [cs].  The matcher is sound for this
    relation; which of the possible matches it returns is fixed by its own
    priorities. *)

Module RegexSpec.
Import JS Regex.

Fixpoint matches (r : re) (s s' : jsstring) (cs : list jsstring) : Prop :=
  match r with
  | Eps => s' = s /\ cs = []
  | Cls p => (exists c, s = c :: s' /\ p c = true) /\ cs = []
  | Opt p => ((exists c, s = c :: s' /\ p c = true) \/ s' = s) /\ cs = []
  | Star p => (exists run, s = run ++ s' /\ forallb p run = true) /\ cs = []
  | Plus p =>
      (exists c run, s = c :: run ++ s' /\ forallb p (c :: run) = true)
      /\ cs = []
  | Grp r1 =>
      exists cs1, matches r1 s s' cs1
                  /\ cs = cs1 ++ [take (length s - length s') s]
  | Cat r1 r2 =>
      exists s1 cs1 cs2,
        matches r1 s s1 cs1 /\ matches r2 s1 s' cs2 /\ cs = cs1 ++ cs2
  | Eos => s = [] /\ s' = [] /\ cs = []
  end.

(** The number of capture groups. *)
Fixpoint groups (r : re) : nat :=
  match r with
  | Grp r1 => S (groups r1)
  | Cat r1 r2 => groups r1 + groups r2
  | _ => 0
  end.

(** Every match of [r] consumes a code unit of the class [q]. *)
Definition demands (q : N -> bool) (r : re) : Prop :=
  forall s s' cs, matches r s s' cs ->
    exists a c b, s = a ++ c :: b ++ s' /\ q c = true.

(** The text [rest] does not start with a code unit of the class [p]: a
    greedy run of [p] ends before it. *)
Definition stops (p : N -> bool) (rest : jsstring) : Prop :=
  match rest with
  | [] => True
  | c :: _ => p c = false
  end.

(** On [used ++ rest], the first path the matcher tries through [r]
    consumes [used] and records [cs]: whenever the rest of the pattern
    succeeds from there, that is the result. *)
Definition takes (r : re) (used rest : jsstring) (cs : list jsstring)
    : Prop :=
  forall caps k res,
    k rest (caps ++ cs) = Some res -> m r (used ++ rest) caps k = Some res.

(** No code unit of the string is a digit or a dot. *)
Definition no_numeral (s : jsstring) : Prop :=
  forallb (fun c => negb (digit_or_dot c)) s = true.

(** A decimal numeral as pattern [\d+ \.? \d*] takes it: digits, then
    possibly a dot and further digits. *)
Definition numeral (whole frac : jsstring) (dot : bool) : jsstring :=
  whole ++ (if dot then 46 :: frac else []).

Definition digits1 (s : jsstring) : Prop :=
  s <> [] /\ forallb is_digit s = true.

End RegexSpec.

(** ** Vocabulary for the page properties *)

Module PageSpec.
Import JS Manager.

(** The message of a failed save, in the specification's words: the
    [details] field of the error body, else its [error] field, else the
    status text. *)
Definition error_message (statusText : jsstring) (body : option reply)
    : jsstring :=
  match body with
  | Some (ReplyObject (Some details) error) =>
      if truthy details then details
      else match error with
           | Some e => if truthy e then e else statusText
           | None => statusText
           end
  | Some (ReplyObject None (Some e)) => if truthy e then e else statusText
  | _ => statusText
  end.

Definition is_delete (r : request) : bool :=
  match req_method r with
  | DELETE => true
  | _ => false
  end.

(** The request a confirmed deletion sends. *)
Definition delete_request (c : closure) : request :=
  mkRequest DELETE (lit "/data/" ++ interpolate c.2) None.

Definition list_request : request := mkRequest GET (lit "/data") None.

(** The deletions waiting for an answer of the user pair up: both buttons
    hold the same closures, each once. *)
Definition paired (st : page) : Prop :=
  confirmListeners st = cancelListeners st
  /\ NoDup (List.map fst (confirmListeners st))
  /\ Forall (fun c => (c.1 < nextClosure st)%nat) (confirmListeners st).

(** Lower case of the ASCII letters, to run the page on ASCII text. *)
Definition ascii_toLowerCase (s : jsstring) : jsstring :=
  List.map (fun c => if (65 <=? c) && (c <=? 90) then c + 32 else c) s.

(** ISO text of a date input value [yyyy-mm-dd] with a four-digit year. *)
Definition date_toISOString (s : jsstring) : option jsstring :=
  Some (s ++ lit "T00:00:00.000Z").

End PageSpec.

(** ** Vocabulary for the form properties *)

Module FormSpec.
Import JS Manager.






Section Dates.

Variable toISOString : jsstring -> option jsstring.



End Dates.

End FormSpec.

(** ** Vocabulary for the grouping properties *)

Module GroupSpec.
Import JS Public.

(** The items of a category, in the order of the input. *)
Definition bucket_of (key : jsstring) (items : list Item.t) : list Item.t :=
  List.filter (fun item => eqb (Item.CATEGORY item) key) items.

(** Every category is a name the page can use: not the name of a
    property inherited from [Object.prototype], not empty and without
    ASCII whitespace. *)
Definition ordinary (items : list Item.t) : Prop :=
  forallb (fun item => negb (inherited (Item.CATEGORY item))
                       && valid_token (Item.CATEGORY item)) items = true.

(** The object [categories] after the items [processed]: one property per
    category met, holding the items of that category in input order. *)
Definition grouped (processed : list Item.t) (categories : object) : Prop :=
  NoDup (List.map fst categories)
  /\ (forall key,
        own categories key
        = match bucket_of key processed with
          | [] => None
          | b => Some b
          end)
  /\ Permutation (concat (List.map snd categories)) processed.

End GroupSpec.

(** ** Vocabulary for the traffic of the page *)

Module TrafficSpec.
Import JS Manager.

(** The four calls of the interface: the list, a creation, an update and
    a deletion.  Nothing is ever sent elsewhere. *)
Definition well_addressed (r : request) : Prop :=
  match req_method r with
  | GET => req_url r = lit "/data" /\ req_body r = None
  | POST => req_url r = lit "/data" /\ req_body r <> None
  | PUT =>
      (exists id, id <> [] /\ req_url r = lit "/data/" ++ id)
      /\ req_body r <> None
  | DELETE =>
      (exists id, req_url r = lit "/data/" ++ id) /\ req_body r = None
  end.

(** The message of a failed deletion: the [error] field of the body, else
    a fixed text. *)
Definition delete_message (error : option jsstring) : jsstring :=
  match error with
  | Some e => if truthy e then e else lit "Failed to delete item"
  | None => lit "Failed to delete item"
  end.

(** An item passes the search box and the category menu. *)
Definition shown (toLowerCase : jsstring -> jsstring)
    (term category : jsstring) (item : Item.t) : Prop :=
  (term = []
   \/ (Item.ITEM item <> []
       /\ exists before after,
            toLowerCase (Item.ITEM item) = before ++ term ++ after))
  /\ (category = [] \/ Item.CATEGORY item = category).

(** The modal is up exactly when a deletion waits for the user. *)
Definition modal_tracks (st : page) : Prop :=
  modalShown st = match confirmListeners st with
                  | [] => false
                  | _ => true
                  end.

Definition cards_of (c : content) : list card :=
  match c with
  | Cards cards => cards
  | Html _ => []
  end.

End TrafficSpec.

(** ** Vocabulary for the extraction properties *)

Module ExtractSpec.
Import JS Regex RegexSpec.

(** The expression without its groups: what the [replace] twin of a
    [match] pattern is. *)
Fixpoint strip (r : re) : re :=
  match r with
  | Grp r1 => strip r1
  | Cat r1 r2 => Cat (strip r1) (strip r2)
  | _ => r
  end.

(** Neither the first nor the last code unit is white space. *)
Definition trimmed (s : jsstring) : Prop :=
  stops is_space s /\ stops is_space (rev s).

(** The patterns of the manager view in the order they are tried, each
    with the text its quantity is built from. *)
Definition cascade (category : jsstring)
    : list (re * (list jsstring -> jsstring)) :=
  [(Manager.pattern1, fun caps => group caps 1 ++ lit " fl oz");
   (Manager.pattern2, fun caps => group caps 1 ++ lit " fl oz");
   (Manager.pattern3, fun caps => group caps 1 ++ lit " fl oz");
   (Manager.pattern4,
    fun caps => if Manager.beverage_like category
                then group caps 1 ++ lit " oz"
                else group caps 2 ++ lit " g");
   (Manager.pattern5, fun caps => group caps 1 ++ lit " g");
   (Manager.pattern6, fun caps => group caps 1 ++ lit " g")].

(** A pattern that ends with [$]: a match leaves nothing of the text. *)
Definition anchored (r : re) : Prop :=
  forall s s' cs, matches r s s' cs -> s' = [].

End ExtractSpec.

(** ** Public view: labels and filter buttons *)

Module Labels.
Import JS Regex.

(** *** [formatCategoryName] *)

(** The object [categoryMap]: its own properties.  The label of MCCAFE
    ends with the two code units U+00C3 U+00A9, as the script file holds
    them. *)
Definition categoryMap : list (jsstring * jsstring) :=
  [(lit "BURGERSANDWICH", lit "Burgers & Sandwiches");
   (lit "CHICKENFISH", lit "Chicken & Fish");
   (lit "BREAKFAST", lit "Breakfast");
   (lit "SALAD", lit "Salads");
   (lit "SNACKSIDE", lit "Snacks & Sides");
   (lit "BEVERAGE", lit "Beverages");
   (lit "MCCAFE", lit "McCaf" ++ [195; 169]);
   (lit "DESSERTSHAKE", lit "Desserts & Shakes");
   (lit "CONDIMENT", lit "Condiments");
   (lit "ALLDAYBREAKFAST", lit "All Day Breakfast")].

Fixpoint lookup (map : list (jsstring * jsstring)) (key : jsstring)
    : option jsstring :=
  match map with
  | [] => None
  | (k, v) :: rest => if eqb k key then Some v else lookup rest key
  end.

(** [[A-Z]] *)
Definition is_capital (c : N) : bool := (65 <=? c) && (c <=? 90).

(** [s.replace(/([A-Z])/g, ' $1')]: a space before every capital. *)
Definition space_capitals (s : jsstring) : jsstring :=
  flat_map (fun c => if is_capital c then [32; c] else [c]) s.

(** What the function returns: a string, or the value (a function or an
    object) that [categoryMap] inherits under the name. *)
Inductive label_value : Type :=
| Text (s : jsstring)
| Inherited (name : jsstring).

Definition formatCategoryName (categoryName : jsstring) : label_value :=
  match lookup categoryMap categoryName with
  | Some label =>
      Text (or_default label (trim (space_capitals categoryName)))
  | None =>
      if Public.inherited categoryName then Inherited categoryName
      else Text (trim (space_capitals categoryName))
  end.

(** *** The filter buttons *)

(** A button of class [filter-btn]: [category] is its
    [dataset.category]; the "Show All" button has none. *)
Record button : Type := mkButton {
  textContent : label_value;
  active : bool;
  category : option jsstring
}.

(** The buttons [createFilterButtons] appends, in order. *)
Definition filter_bar (categories : Public.object) : list button :=
  mkButton (Text (lit "Show All")) true None
  :: List.map (fun key => mkButton (formatCategoryName key) false (Some key))
       (Public.createFilterButtons categories).

(** The calls into the imported filter module. *)
Inductive call : Type :=
| setCategoryFilter (categoryKey : jsstring)
| showAllCategories.

(** The buttons of class [filter-btn] in document order (the page has
    none but those of [createFilterButtons]) and the calls made. *)
Record bar : Type := mkBar {
  buttons : list button;
  calls : list call
}.

Definition set_active (a : bool) (b : button) : button :=
  mkButton (textContent b) a (category b).

(** [clicked] is the position of [clickedButton] in the document. *)
Definition filterByCategory (categoryKey : jsstring) (clicked : nat)
    (st : bar) : bar :=
  mkBar (imap (fun i b => set_active (Nat.eqb i clicked) b) (buttons st))
        (calls st ++ [setCategoryFilter categoryKey]).

(** [None] is the TypeError of [document.querySelector] finding no
    button. *)
Definition showAllCategoriesLocal (st : bar) : option bar :=
  match buttons st with
  | [] => None
  | first :: rest =>
      Some (mkBar (set_active true first :: List.map (set_active false) rest)
                  (calls st ++ [showAllCategories]))
  end.

(** A click on the button at position [i]: the listener it was given. *)
Definition click (st : bar) (i : nat) : option bar :=
  match buttons st !! i with
  | Some b =>
      match category b with
      | Some categoryKey => Some (filterByCategory categoryKey i st)
      | None => showAllCategoriesLocal st
      end
  | None => None
  end.

Fixpoint clicks (l : list nat) (st : bar) : option bar :=
  match l with
  | [] => Some st
  | i :: rest =>
      match click st i with
      | Some st' => clicks rest st'
      | None => None
      end
  end.

End Labels.

(** ** Vocabulary for the labels *)

Module LabelSpec.
Import JS Regex Labels.

(** The code units of a string that are not white space. *)
Definition letters (s : jsstring) : jsstring :=
  List.filter (fun c => negb (is_space c)) s.

(** Every capital after the first code unit follows a space. *)
Definition spaced (label : jsstring) : Prop :=
  forall a c b,
    label = a ++ c :: b -> is_capital c = true ->
    a = [] \/ exists a', a = a' ++ [32].

(** The position that is active after the clicks [l]. *)
Definition last_click (l : list nat) : nat := List.last l 0%nat.

(** The call a click at position [i] makes, given the categories of the
    buttons after "Show All". *)
Definition call_of (keys : list jsstring) (i : nat) : call :=
  match i with
  | O => showAllCategories
  | S j => setCategoryFilter (nth j keys [])
  end.

End LabelSpec.

(** ** Vocabulary for names that hold one quantity *)

Module QuantitySpec.
Import JS Regex RegexSpec.

(** The patterns of the two views, in the order they are tried. *)
Definition manager_patterns : list re :=
  [Manager.pattern1; Manager.pattern2; Manager.pattern3; Manager.pattern4;
   Manager.pattern5; Manager.pattern6].

Definition public_patterns : list re :=
  [Public.match1; Public.match2; Public.match3; Public.match4;
   Public.match5].

(** The name holds one quantity: a stretch [Q] that one of the patterns
    matches from its first to its last code unit, and no digit and no
    dot outside it. *)
Definition single_quantity (patterns : list re) (name : jsstring) : Prop :=
  exists pre Q post p caps,
    name = pre ++ Q ++ post
    /\ no_numeral pre /\ no_numeral post
    /\ In p patterns /\ matches p (Q ++ post) post caps.

(** Digits and dots only. *)
Definition nums (s : jsstring) : Prop := forallb digit_or_dot s = true.

(** A numeral as [\d+ \.? \d*] takes it. *)
Definition numeral_shaped (s : jsstring) : Prop :=
  exists whole frac dot,
    s = numeral whole frac dot
    /\ digits1 whole /\ forallb is_digit frac = true.

Definition nums1 (s : jsstring) : Prop := s <> [] /\ nums s.

(** An expression without groups that consumes neither digit nor dot. *)
Fixpoint nonum (r : re) : Prop :=
  match r with
  | Eps | Eos => True
  | Cls p | Opt p | Star p | Plus p =>
      forall c, p c = true -> digit_or_dot c = false
  | Grp _ => False
  | Cat r1 r2 => nonum r1 /\ nonum r2
  end.

(** The class of the letter that follows a numeral and its white
    space. *)
Definition lead_class (L : N -> bool) : Prop :=
  forall c, L c = true -> is_space c = false /\ digit_or_dot c = false.

(** The expression [G] consumes the numerals of the class [K], and every
    one of them. *)
Record group_class (G : re) (K : jsstring -> Prop) : Prop := mkGroupClass {
  grp_sound : forall s s' cs,
    matches G s s' cs -> exists g, s = g ++ s' /\ K g;
  grp_build : forall r s', K r -> exists cs, matches G (r ++ s') s' cs;
  grp_nums : forall g, K g -> nums1 g
}.

(** What a sequence does on the empty string: it consumes something on
    every match, or it matches without consuming. *)
Definition never_empty (l : list re) : Prop :=
  forall s s' cs, matches (seq l) s s' cs -> s' <> s.

Definition matches_empty (l : list re) : Prop :=
  forall s, exists cs, matches (seq l) s s cs.

(** A pattern with one numeral: [pre G \s* L tail]. *)
Definition one (pre : list re) (G : re) (L : N -> bool) (tail : list re)
    : re :=
  seq (pre ++ G :: Star is_space :: Cls L :: tail).

(** A pattern with two numerals: [pre G1 \s* L1 mid G2 \s* L2 tail]. *)
Definition two (pre : list re) (G1 : re) (L1 : N -> bool) (mid : list re)
    (G2 : re) (L2 : N -> bool) (tail : list re) : re :=
  seq (pre ++ G1 :: Star is_space :: Cls L1
         :: mid ++ G2 :: Star is_space :: Cls L2 :: tail).

(** An ASCII letter in either case, and in one case. *)
Definition letter (x : N) (y : N) : bool := (y =? x) || (y =? x - 32).

(** [\d+ \.? \d*] *)
Definition Num : re := seq [Plus is_digit; Opt is_dot; Star is_digit].

(** *** The shape of a pattern

    Every pattern of the two views reads [pre G \s* L tail] or
    [pre G1 \s* L1 mid G2 \s* L2 tail]: [G] consumes a numeral of the
    class [K], [L] is the class of the letter after it, and [pre],
    [mid] and [tail] consume neither digit nor dot. *)
Inductive shape : Type :=
| One (pre : list re) (G : re) (K : jsstring -> Prop) (L : N -> bool)
      (tail : list re)
| Two (pre : list re) (G1 : re) (K1 : jsstring -> Prop) (L1 : N -> bool)
      (mid : list re) (G2 : re) (K2 : jsstring -> Prop) (L2 : N -> bool)
      (tail : list re).

Definition re_of (sh : shape) : re :=
  match sh with
  | One pre G _ L tail => one pre G L tail
  | Two pre G1 _ L1 mid G2 _ L2 tail => two pre G1 L1 mid G2 L2 tail
  end.

Definition first_kind (sh : shape) : jsstring -> Prop :=
  match sh with
  | One _ _ K _ _ => K
  | Two _ _ K1 _ _ _ _ _ _ => K1
  end.

Definition first_lead (sh : shape) : N -> bool :=
  match sh with
  | One _ _ _ L _ => L
  | Two _ _ _ L1 _ _ _ _ _ => L1
  end.

Definition well_shaped (sh : shape) : Prop :=
  match sh with
  | One pre G K L tail =>
      Forall nonum pre /\ (never_empty pre \/ matches_empty pre)
      /\ group_class G K /\ lead_class L /\ Forall nonum tail
  | Two pre G1 K1 L1 mid G2 K2 L2 tail =>
      Forall nonum pre /\ (never_empty pre \/ matches_empty pre)
      /\ group_class G1 K1 /\ lead_class L1 /\ Forall nonum mid
      /\ group_class G2 K2 /\ lead_class L2 /\ Forall nonum tail
  end.

(** Two patterns agree: where their first letters can be the same, the
    first numeral of [p] is one that [j] takes; and the letter of a
    pattern [j] with one numeral is none of the letters of a pattern [p]
    with two. *)
Definition agree (j p : shape) : Prop :=
  (forall c, first_lead j c = true -> first_lead p c = true ->
     forall r, first_kind p r -> first_kind j r)
  /\ match j, p with
     | One _ _ _ L _, Two _ _ _ L1 _ _ _ L2 _ =>
         forall c, L c = true -> L1 c = false /\ L2 c = false
     | _, _ => True
     end.

(** The patterns of the manager view (lines 288-354). *)
Definition shape1 : shape :=
  Two [] (Grp Num) numeral_shaped (letter 102)
    [Cls (letter 108); Star is_space; Cls (letter 111); Cls (letter 122);
     Star is_space; Cls (letter 99); Cls (letter 117); Cls (letter 112);
     Star is_space; Cls is_lparen]
    (Plus is_digit) digits1 (letter 103) [Cls is_rparen].

Definition shape2 : shape :=
  One [Cls is_lparen] (Grp Num) numeral_shaped (letter 102)
    [Cls (letter 108); Star is_space; Cls (letter 111); Cls (letter 122);
     Star is_space; Cls (letter 99); Cls (letter 117); Cls (letter 112);
     Cls is_rparen].

Definition shape3 : shape :=
  One [] (Grp Num) numeral_shaped (letter 102)
    [Cls (letter 108); Star is_space; Cls (letter 111); Cls (letter 122)].

Definition shape4 : shape :=
  Two [] (Grp Num) numeral_shaped (letter 111)
    [Cls (letter 122); Star is_space; Cls is_lparen]
    (Grp (Plus is_digit)) digits1 (letter 103) [Cls is_rparen].

Definition shape5 : shape :=
  Two [] (Plus is_digit) digits1 (letter 99)
    [Cls (letter 111); Cls (letter 111); Cls (letter 107);
     Cls (letter 105); Cls (letter 101); Star is_space; Cls is_lparen]
    (Grp Num) numeral_shaped (letter 103) [Cls is_rparen].

Definition shape6 : shape :=
  One [Opt is_lparen; Star is_space] (Grp Num) numeral_shaped (letter 103)
    [Star is_space; Opt is_rparen].

Definition manager_shapes : list shape :=
  [shape1; shape2; shape3; shape4; shape5; shape6].

(** The patterns of the public view (lines 139-167). *)
Definition label1 : shape :=
  Two [Star is_space] (Grp (Plus digit_or_dot)) nums1 (N.eqb 111)
    [Cls (N.eqb 122); Star is_space; Cls is_lparen]
    (Grp (Plus is_digit)) digits1 (N.eqb 103)
    [Cls is_rparen; Star is_space; Eos].

Definition label2 : shape :=
  One [Star is_space; Cls is_lparen] (Grp (Plus is_digit)) digits1
    (N.eqb 103) [Cls is_rparen; Star is_space; Eos].

Definition label3 : shape :=
  One [Plus is_space] (Grp (Plus is_digit)) digits1 (N.eqb 103)
    [Star is_space; Eos].

Definition label4 : shape :=
  One [Star is_space; Cls is_lparen] (Grp (Plus digit_or_dot)) nums1
    (N.eqb 111) [Cls (N.eqb 122); Cls is_rparen; Star is_space; Eos].

Definition label5 : shape :=
  One [Plus is_space] (Grp (Plus digit_or_dot)) nums1 (N.eqb 111)
    [Cls (N.eqb 122); Star is_space; Eos].

Definition public_shapes : list shape :=
  [label1; label2; label3; label4; label5].

End QuantitySpec.

(** * Properties *)

Import JS Regex RegexSpec PageSpec FormSpec GroupSpec.
Import TrafficSpec ExtractSpec LabelSpec QuantitySpec.

(** ** The matcher *)

Lemma star_sound p s caps k res :
  star p s caps k = Some res ->
  exists run s', s = run ++ s' /\ forallb p run = true
                 /\ k s' caps = Some res.
Proof.
  induction s as [|c s IH]; simpl; intros H.
  - exists [], []. auto.
  - destruct (p c) eqn:Hc.
    + unfold orelse in H. destruct (star p s caps k) eqn:Hs.
      * inversion H; subst. destruct (IH eq_refl) as (run & s' & -> & Hr & Hk).
        exists (c :: run), s'. simpl. rewrite Hc, Hr. auto.
      * exists [], (c :: s). auto.
    + exists [], (c :: s). auto.
Qed.

Lemma m_sound r : forall s caps k res,
  m r s caps k = Some res ->
  exists s' cs, matches r s s' cs /\ k s' (caps ++ cs) = Some res.
Proof.
  induction r as [|p|p|p|p|r1 IH1|r1 IH1 r2 IH2|]; intros s caps k res H;
    simpl in H.
  - exists s, []. rewrite app_nil_r. simpl. auto.
  - destruct s as [|c s]; [discriminate|].
    destruct (p c) eqn:Hc; [|discriminate].
    exists s, []. rewrite app_nil_r. simpl. eauto.
  - destruct s as [|c s].
    + exists [], []. rewrite app_nil_r. simpl. auto.
    + destruct (p c) eqn:Hc.
      * unfold orelse in H. destruct (k s caps) eqn:Hk.
        -- inversion H; subst. exists s, []. rewrite app_nil_r. simpl. eauto 7.
        -- exists (c :: s), []. rewrite app_nil_r. simpl. auto.
      * exists (c :: s), []. rewrite app_nil_r. simpl. auto.
  - apply star_sound in H as (run & s' & -> & Hr & Hk).
    exists s', []. rewrite app_nil_r. simpl. eauto.
  - destruct s as [|c s]; [discriminate|].
    destruct (p c) eqn:Hc; [|discriminate].
    apply star_sound in H as (run & s' & -> & Hr & Hk).
    exists s', []. rewrite app_nil_r. split; [|exact Hk].
    split; [|reflexivity]. exists c, run. simpl. rewrite Hc, Hr. auto.
  - apply IH1 in H as (s' & cs1 & Hm & Hk).
    exists s', (cs1 ++ [take (length s - length s') s]).
    rewrite app_assoc. simpl. eauto.
  - apply IH1 in H as (s1 & cs1 & Hm1 & H).
    apply IH2 in H as (s' & cs2 & Hm2 & Hk).
    exists s', (cs1 ++ cs2). rewrite app_assoc. simpl. eauto 8.
  - destruct s; [|discriminate].
    exists [], []. rewrite app_nil_r. simpl. auto.
Qed.

Lemma exec_at_sound r s caps rest :
  exec_at r s = Some (caps, rest) -> matches r s rest caps.
Proof.
  unfold exec_at. intros H.
  apply m_sound in H as (s' & cs & Hm & Hk). simpl in Hk.
  inversion Hk; subst. exact Hm.
Qed.

Lemma search_sound r : forall s pre before caps rest,
  search r pre s = Some (before, caps, rest) ->
  exists s0, rev pre ++ s = before ++ s0 /\ matches r s0 rest caps.
Proof.
  induction s as [|c s IH]; intros pre before caps rest H; simpl in H.
  - destruct (exec_at r []) as [[caps' rest']|] eqn:He; [|discriminate].
    inversion H; subst. exists []. split; [reflexivity|].
    now apply exec_at_sound.
  - destruct (exec_at r (c :: s)) as [[caps' rest']|] eqn:He.
    + inversion H; subst. exists (c :: s). split; [reflexivity|].
      now apply exec_at_sound.
    + apply IH in H as (s0 & Heq & Hm). exists s0. split; [|exact Hm].
      simpl in Heq. rewrite <- app_assoc in Heq. exact Heq.
Qed.

Lemma String_match_sound r s caps :
  String_match r s = Some caps ->
  exists before s0 rest, s = before ++ s0 /\ matches r s0 rest caps.
Proof.
  unfold String_match. intros H.
  destruct (search r [] s) as [[[before caps'] rest]|] eqn:Hs; [|discriminate].
  inversion H; subst.
  apply search_sound in Hs as (s0 & Heq & Hm). eauto.
Qed.

(** ** Weight and label extraction *)

Lemma weight_div_truthy q : truthy (Manager.weight_div q) = true.
Proof. reflexivity. Qed.

Lemma take_consumed (a b : jsstring) :
  take (length (a ++ b) - length b) (a ++ b) = a.
Proof.
  rewrite length_app.
  replace (length a + length b - length b)%nat with (length a) by lia.
  apply take_app_length.
Qed.

Lemma matches_suffix r : forall s s' cs,
  matches r s s' cs -> exists used, s = used ++ s'.
Proof.
  induction r as [|p|p|p|p|r1 IH1|r1 IH1 r2 IH2|]; simpl; intros s s' cs H.
  - destruct H as [-> _]. now exists [].
  - destruct H as [(c & -> & _) _]. now exists [c].
  - destruct H as [[(c & -> & _)| ->] _]; [now exists [c] | now exists []].
  - destruct H as [(run & -> & _) _]. now exists run.
  - destruct H as [(c & run & -> & _) _]. now exists (c :: run).
  - destruct H as (cs1 & H & _). eauto.
  - destruct H as (s1 & cs1 & cs2 & H1 & H2 & _).
    apply IH1 in H1 as [u1 ->]. apply IH2 in H2 as [u2 ->].
    exists (u1 ++ u2). now rewrite app_assoc.
  - destruct H as (-> & -> & _). now exists [].
Qed.

(** The capture of a group [( c+ )] is not empty. *)
Lemma grp_plus_capture p s s' cs :
  matches (Grp (Plus p)) s s' cs ->
  exists run, cs = [run] /\ truthy run = true /\ forallb p run = true.
Proof.
  simpl. intros (cs1 & [(c & run & -> & Hr) ->] & ->).
  exists (c :: run). split; [|auto].
  change (c :: run ++ s') with ((c :: run) ++ s').
  now rewrite take_consumed.
Qed.

Lemma matches_groups r : forall s s' cs,
  matches r s s' cs -> length cs = groups r.
Proof.
  induction r as [|p|p|p|p|r1 IH1|r1 IH1 r2 IH2|]; simpl; intros s s' cs H;
    try (destruct H as [_ ->]; reflexivity).
  - destruct H as (cs1 & H & ->). rewrite length_app. simpl.
    rewrite (IH1 _ _ _ H). lia.
  - destruct H as (s1 & cs1 & cs2 & H1 & H2 & ->). rewrite length_app.
    now rewrite (IH1 _ _ _ H1), (IH2 _ _ _ H2).
  - destruct H as (_ & _ & ->). reflexivity.
Qed.

Lemma matches_no_group r s s' cs :
  groups r = 0%nat -> matches r s s' cs -> cs = [].
Proof.
  intros Hg H. apply matches_groups in H. rewrite Hg in H.
  now destruct cs.
Qed.

Lemma matches_cat r1 r2 s s' cs :
  matches (Cat r1 r2) s s' cs ->
  exists s1 cs1 cs2,
    matches r1 s s1 cs1 /\ matches r2 s1 s' cs2 /\ cs = cs1 ++ cs2.
Proof. exact (fun H => H). Qed.

(** Splits the match of a sequence atom by atom, naming the capture of
    every group [( c+ )] and erasing the captures of the other atoms. *)
Ltac peel H :=
  repeat
    (let s1 := fresh "s" in
     let cs1 := fresh "cs" in
     let cs2 := fresh "cs" in
     let H1 := fresh "Hm" in
     apply matches_cat in H as (s1 & cs1 & cs2 & H1 & H & ->);
     first
       [ let run := fresh "run" in
         let Ht := fresh "Ht" in
         let Hp := fresh "Hp" in
         apply grp_plus_capture in H1 as (run & -> & Ht & Hp)
       | apply matches_no_group in H1 as ->; [|reflexivity] ]).

Lemma match1_captures s caps :
  String_match Public.match1 s = Some caps ->
  truthy (group caps 1) = true /\ truthy (group caps 2) = true.
Proof.
  intros H. apply String_match_sound in H as (before & s0 & rest & -> & H).
  unfold Public.match1 in H. cbn [seq fold_right] in H. peel H.
  destruct H as [_ ->]. auto.
Qed.

Lemma match2_captures s caps :
  String_match Public.match2 s = Some caps -> truthy (group caps 1) = true.
Proof.
  intros H. apply String_match_sound in H as (before & s0 & rest & -> & H).
  unfold Public.match2 in H. cbn [seq fold_right] in H. peel H.
  destruct H as [_ ->]. auto.
Qed.

Lemma match3_captures s caps :
  String_match Public.match3 s = Some caps -> truthy (group caps 1) = true.
Proof.
  intros H. apply String_match_sound in H as (before & s0 & rest & -> & H).
  unfold Public.match3 in H. cbn [seq fold_right] in H. peel H.
  destruct H as [_ ->]. auto.
Qed.

Lemma match4_captures s caps :
  String_match Public.match4 s = Some caps -> truthy (group caps 1) = true.
Proof.
  intros H. apply String_match_sound in H as (before & s0 & rest & -> & H).
  unfold Public.match4 in H. cbn [seq fold_right] in H. peel H.
  destruct H as [_ ->]. auto.
Qed.

Lemma match5_captures s caps :
  String_match Public.match5 s = Some caps -> truthy (group caps 1) = true.
Proof.
  intros H. apply String_match_sound in H as (before & s0 & rest & -> & H).
  unfold Public.match5 in H. cbn [seq fold_right] in H. peel H.
  destruct H as [_ ->]. auto.
Qed.

(** *** A name in which nothing is found is returned as it is *)

Lemma try_pattern_cases pat info st :
  (forall caps, truthy (info caps) = true) ->
  Manager.try_pattern pat info st = st
  \/ truthy (Manager.weightInfo (Manager.try_pattern pat info st)) = true.
Proof.
  intros Hinfo. unfold Manager.try_pattern.
  destruct (String_match pat (Manager.itemName st)); simpl; auto.
Qed.

Lemma unless_weight_cases f st0 st :
  Manager.weightInfo st0 = [] ->
  (f st0 = st0 \/ truthy (Manager.weightInfo (f st0)) = true) ->
  st = st0 \/ truthy (Manager.weightInfo st) = true ->
  Manager.unless_weight f st = st0
  \/ truthy (Manager.weightInfo (Manager.unless_weight f st)) = true.
Proof.
  intros H0 Hf [->|Ht]; unfold Manager.unless_weight.
  - rewrite H0. simpl. destruct Hf as [->|Hf]; auto.
  - rewrite Ht. simpl. auto.
Qed.

Lemma parseWeight_cases item :
  Manager.parseWeight item
  = Manager.mkParsed (or_default (Item.ITEM item) (lit "Unnamed Item")) []
  \/ truthy (Manager.weightInfo (Manager.parseWeight item)) = true.
Proof.
  unfold Manager.parseWeight.
  set (st0 := Manager.mkParsed _ []).
  set (category := or_default (Item.CATEGORY item) []).
  assert (H1 : Manager.try_pattern Manager.pattern1
                 (fun caps => Manager.weight_div (group caps 1 ++ lit " fl oz"))
                 st0 = st0
               \/ truthy (Manager.weightInfo
                    (Manager.try_pattern Manager.pattern1
                       (fun caps =>
                          Manager.weight_div (group caps 1 ++ lit " fl oz"))
                       st0)) = true)
    by (apply try_pattern_cases; intros; apply weight_div_truthy).
  set (st1 := Manager.try_pattern Manager.pattern1 _ st0) in *.
  assert (H2 := unless_weight_cases
                  (Manager.try_pattern Manager.pattern2
                     (fun caps =>
                        Manager.weight_div (group caps 1 ++ lit " fl oz")))
                  st0 st1 eq_refl
                  (try_pattern_cases _ _ _ (fun _ => weight_div_truthy _)) H1).
  set (st2 := Manager.unless_weight _ st1) in *.
  assert (H3 := unless_weight_cases
                  (Manager.try_pattern Manager.pattern3
                     (fun caps =>
                        Manager.weight_div (group caps 1 ++ lit " fl oz")))
                  st0 st2 eq_refl
                  (try_pattern_cases _ _ _ (fun _ => weight_div_truthy _)) H2).
  set (st3 := Manager.unless_weight _ st2) in *.
  assert (Hinfo4 : forall caps,
            truthy (if Manager.beverage_like category
                    then Manager.weight_div (group caps 1 ++ lit " oz")
                    else Manager.weight_div (group caps 2 ++ lit " g")) = true)
    by (intros; destruct (Manager.beverage_like category);
        apply weight_div_truthy).
  assert (H4 := unless_weight_cases
                  (Manager.try_pattern Manager.pattern4 _)
                  st0 st3 eq_refl
                  (try_pattern_cases _ _ _ Hinfo4) H3).
  set (st4 := Manager.unless_weight _ st3) in *.
  assert (H5 := unless_weight_cases
                  (Manager.try_pattern Manager.pattern5
                     (fun caps =>
                        Manager.weight_div (group caps 1 ++ lit " g")))
                  st0 st4 eq_refl
                  (try_pattern_cases _ _ _ (fun _ => weight_div_truthy _)) H4).
  set (st5 := Manager.unless_weight _ st4) in *.
  destruct H5 as [->|H5].
  - simpl. destruct (Manager.beverage_like category); simpl; auto.
    apply try_pattern_cases. intros; apply weight_div_truthy.
  - rewrite H5. simpl. auto.
Qed.

Lemma parseWeight_unmatched item :
  Manager.weightInfo (Manager.parseWeight item) = [] ->
  Manager.parseWeight item
  = Manager.mkParsed (or_default (Item.ITEM item) (lit "Unnamed Item")) [].
Proof.
  intros H. destruct (parseWeight_cases item) as [Heq|Ht]; [exact Heq|].
  rewrite H in Ht. discriminate.
Qed.

Lemma extractLabel_unmatched itemText :
  Public.grams (Public.extractLabel itemText) = [] ->
  Public.ounces (Public.extractLabel itemText) = [] ->
  Public.extractLabel itemText = Public.mkLabel itemText [] [].
Proof.
  unfold Public.extractLabel.
  destruct (String_match Public.match1 itemText) as [c1|] eqn:H1.
  { simpl. intros Hg _. apply match1_captures in H1 as [_ H1].
    rewrite Hg in H1. discriminate. }
  destruct (String_match Public.match2 itemText) as [c2|] eqn:H2.
  { apply match2_captures in H2. simpl. rewrite H2. simpl.
    intros Hg _. rewrite Hg in H2. discriminate. }
  destruct (String_match Public.match3 itemText) as [c3|] eqn:H3.
  { apply match3_captures in H3. simpl. rewrite H3. simpl.
    intros Hg _. rewrite Hg in H3. discriminate. }
  simpl.
  destruct (String_match Public.match4 itemText) as [c4|] eqn:H4.
  { apply match4_captures in H4. simpl. intros _ Ho.
    rewrite Ho in H4. discriminate. }
  destruct (String_match Public.match5 itemText) as [c5|] eqn:H5.
  { apply match5_captures in H5. simpl. intros _ Ho.
    rewrite Ho in H5. discriminate. }
  reflexivity.
Qed.

(** *** Every pattern needs a digit or a dot *)

Lemma demands_plus (q p : N -> bool) :
  (forall c, p c = true -> q c = true) -> demands q (Plus p).
Proof.
  intros Hpq s s' cs [(c & run & -> & Hr) _]. simpl in Hr.
  apply andb_true_iff in Hr as [Hc _].
  exists [], c, run. auto.
Qed.

Lemma demands_grp q r : demands q r -> demands q (Grp r).
Proof. intros Hr s s' cs (cs1 & H & _). eauto. Qed.

Lemma demands_cat_l q r1 r2 : demands q r1 -> demands q (Cat r1 r2).
Proof.
  intros Hr s s' cs (s1 & cs1 & cs2 & H1 & H2 & _).
  apply Hr in H1 as (a & c & b & -> & Hc).
  apply matches_suffix in H2 as [u ->].
  exists a, c, (b ++ u). split; [|exact Hc].
  now rewrite <- !app_assoc.
Qed.

Lemma demands_cat_r q r1 r2 : demands q r2 -> demands q (Cat r1 r2).
Proof.
  intros Hr s s' cs (s1 & cs1 & cs2 & H1 & H2 & _).
  apply Hr in H2 as (a & c & b & -> & Hc).
  apply matches_suffix in H1 as [u ->].
  exists (u ++ a), c, b. split; [|exact Hc].
  now rewrite <- !app_assoc.
Qed.

Lemma digit_is_numeral c : is_digit c = true -> digit_or_dot c = true.
Proof. unfold digit_or_dot. intros H. now rewrite H. Qed.

(** Walks down a sequence to its first [c+] over digits (or digits and
    dots), inside a group or not.  The cases are told apart by syntax, so
    that no character class is ever unfolded. *)
Ltac demands_atom :=
  lazymatch goal with
  | |- demands _ (Plus is_digit) =>
      apply demands_plus; exact digit_is_numeral
  | |- demands _ (Plus digit_or_dot) =>
      apply demands_plus; exact (fun _ H => H)
  | |- demands _ (Grp _) => apply demands_grp; demands_seq
  end
with demands_seq :=
  lazymatch goal with
  | |- demands _ (Cat (Plus is_digit) _) => apply demands_cat_l; demands_atom
  | |- demands _ (Cat (Plus digit_or_dot) _) =>
      apply demands_cat_l; demands_atom
  | |- demands _ (Cat (Grp _) _) => apply demands_cat_l; demands_atom
  | |- demands _ (Cat _ _) => apply demands_cat_r; demands_seq
  | |- _ => demands_atom
  end.

Ltac demands_numeral := cbn [seq fold_right]; demands_seq.

Lemma demands_unmatched r s :
  demands digit_or_dot r -> no_numeral s -> String_match r s = None.
Proof.
  intros Hr Hs. destruct (String_match r s) as [caps|] eqn:H; [|reflexivity].
  apply String_match_sound in H as (before & s0 & rest & -> & H).
  apply Hr in H as (a & c & b & -> & Hc).
  unfold no_numeral in Hs. rewrite !forallb_app in Hs. simpl in Hs.
  rewrite Hc in Hs. simpl in Hs.
  rewrite andb_false_r in Hs. simpl in Hs.
  rewrite andb_false_r in Hs. discriminate Hs.
Qed.

Lemma manager_patterns_demand :
  demands digit_or_dot Manager.pattern1
  /\ demands digit_or_dot Manager.pattern2
  /\ demands digit_or_dot Manager.pattern3
  /\ demands digit_or_dot Manager.pattern4
  /\ demands digit_or_dot Manager.pattern5
  /\ demands digit_or_dot Manager.pattern6.
Proof.
  unfold Manager.pattern1, Manager.pattern2, Manager.pattern3,
    Manager.pattern4, Manager.pattern5, Manager.pattern6.
  repeat apply conj; demands_numeral.
Qed.

Lemma public_patterns_demand :
  demands digit_or_dot Public.match1
  /\ demands digit_or_dot Public.match2
  /\ demands digit_or_dot Public.match3
  /\ demands digit_or_dot Public.match4
  /\ demands digit_or_dot Public.match5.
Proof.
  unfold Public.match1, Public.match2, Public.match3, Public.match4,
    Public.match5.
  repeat apply conj; demands_numeral.
Qed.

Lemma parseWeight_no_numeral name category :
  no_numeral name ->
  Manager.weightInfo (Manager.parseWeight (Item.named name category)) = [].
Proof.
  intros Hn.
  destruct manager_patterns_demand as (D1 & D2 & D3 & D4 & D5 & D6).
  assert (Hd : no_numeral (or_default name (lit "Unnamed Item"))).
  { unfold or_default. destruct (truthy name); [exact Hn | reflexivity]. }
  unfold Manager.parseWeight, Manager.try_pattern, Manager.unless_weight.
  cbn [Item.ITEM Item.CATEGORY Item.named Manager.itemName Manager.weightInfo].
  rewrite (demands_unmatched _ _ D1 Hd). cbn [Manager.weightInfo Manager.itemName truthy negb].
  rewrite (demands_unmatched _ _ D2 Hd). cbn [Manager.weightInfo Manager.itemName truthy negb].
  rewrite (demands_unmatched _ _ D3 Hd). cbn [Manager.weightInfo Manager.itemName truthy negb].
  rewrite (demands_unmatched _ _ D4 Hd). cbn [Manager.weightInfo Manager.itemName truthy negb].
  rewrite (demands_unmatched _ _ D5 Hd). cbn [Manager.weightInfo Manager.itemName truthy negb andb].
  rewrite (demands_unmatched _ _ D6 Hd).
  destruct (negb (Manager.beverage_like _)); reflexivity.
Qed.

Lemma extractLabel_no_numeral name :
  no_numeral name -> Public.extractLabel name = Public.mkLabel name [] [].
Proof.
  intros Hn.
  destruct public_patterns_demand as (D1 & D2 & D3 & D4 & D5).
  unfold Public.extractLabel.
  rewrite (demands_unmatched _ _ D1 Hn), (demands_unmatched _ _ D2 Hn),
    (demands_unmatched _ _ D3 Hn), (demands_unmatched _ _ D4 Hn),
    (demands_unmatched _ _ D5 Hn).
  reflexivity.
Qed.

(** *** Extracting twice *)

(** C1, as the specification states it, fails in both views: a name that
    embeds two quantities loses one per application.  In the manager view
    ["Cola 12 fl oz 16 fl oz"] is cleaned to ["Cola  16 fl oz"], and
    extracting from that name changes it to ["Cola"] and reports
    ["16 fl oz"]; in the public view ["Soda 5g 6g"] is cleaned to
    ["Soda 5g"], which a second extraction changes to ["Soda"]. *)
Lemma extraction_twice_differs :
  (let r := Manager.parseWeight
              (Item.named (lit "Cola 12 fl oz 16 fl oz") (lit "BEVERAGE")) in
   Manager.itemName r = lit "Cola  16 fl oz"
   /\ Manager.parseWeight (Item.named (Manager.itemName r) (lit "BEVERAGE"))
      = Manager.mkParsed (lit "Cola") (Manager.weight_div (lit "16 fl oz"))
   /\ Manager.parseWeight (Item.named (Manager.itemName r) (lit "BEVERAGE"))
      <> Manager.mkParsed (Manager.itemName r) [])
  /\ (let l := Public.extractLabel (lit "Soda 5g 6g") in
      Public.cleanedName l = lit "Soda 5g"
      /\ Public.extractLabel (Public.cleanedName l)
         = Public.mkLabel (lit "Soda") (lit "5") []
      /\ Public.extractLabel (Public.cleanedName l)
         <> Public.mkLabel (Public.cleanedName l) [] []).
Proof.
  split; cbv zeta.
  - split; [vm_compute; reflexivity|].
    split; [vm_compute; reflexivity|].
    vm_compute. discriminate.
  - split; [vm_compute; reflexivity|].
    split; [vm_compute; reflexivity|].
    vm_compute. discriminate.
Qed.

(** *** The greedy path of the matcher *)

Lemma star_run p run rest caps k res :
  forallb p run = true -> stops p rest -> k rest caps = Some res ->
  star p (run ++ rest) caps k = Some res.
Proof.
  intros Hrun Hstop Hk. induction run as [|c run IH]; simpl.
  - destruct rest as [|c rest]; simpl; [exact Hk|].
    simpl in Hstop. now rewrite Hstop.
  - simpl in Hrun. apply andb_true_iff in Hrun as [Hc Hrun].
    rewrite Hc, (IH Hrun). reflexivity.
Qed.

Lemma takes_eps rest : takes Eps [] rest [].
Proof. intros caps k res Hk. simpl. now rewrite app_nil_r in Hk. Qed.

Lemma takes_cls p c rest : p c = true -> takes (Cls p) [c] rest [].
Proof.
  intros Hc caps k res Hk. simpl. rewrite Hc. now rewrite app_nil_r in Hk.
Qed.

Lemma takes_opt_some p c rest : p c = true -> takes (Opt p) [c] rest [].
Proof.
  intros Hc caps k res Hk. simpl. rewrite Hc.
  rewrite app_nil_r in Hk. now rewrite Hk.
Qed.

Lemma takes_opt_none p rest : stops p rest -> takes (Opt p) [] rest [].
Proof.
  intros Hs caps k res Hk. rewrite app_nil_r in Hk. simpl.
  destruct rest as [|c rest]; [exact Hk|].
  simpl in Hs. now rewrite Hs.
Qed.

Lemma takes_star p run rest :
  forallb p run = true -> stops p rest -> takes (Star p) run rest [].
Proof.
  intros Hrun Hs caps k res Hk. rewrite app_nil_r in Hk. simpl.
  now apply star_run.
Qed.

Lemma takes_plus p run rest :
  run <> [] -> forallb p run = true -> stops p rest ->
  takes (Plus p) run rest [].
Proof.
  intros Hne Hrun Hs caps k res Hk. rewrite app_nil_r in Hk.
  destruct run as [|c run]; [contradiction|].
  simpl in Hrun. apply andb_true_iff in Hrun as [Hc Hrun].
  simpl. rewrite Hc. now apply star_run.
Qed.

Lemma takes_cat r1 r2 u1 u2 rest cs1 cs2 :
  takes r1 u1 (u2 ++ rest) cs1 -> takes r2 u2 rest cs2 ->
  takes (Cat r1 r2) (u1 ++ u2) rest (cs1 ++ cs2).
Proof.
  intros H1 H2 caps k res Hk. simpl. rewrite <- app_assoc.
  apply H1. apply H2. now rewrite <- app_assoc.
Qed.

Lemma takes_grp r used rest cs :
  takes r used rest cs -> takes (Grp r) used rest (cs ++ [used]).
Proof.
  intros H caps k res Hk. simpl. apply H.
  rewrite take_consumed. now rewrite <- app_assoc.
Qed.

Lemma takes_exec_at r used rest cs :
  takes r used rest cs -> exec_at r (used ++ rest) = Some (cs, rest).
Proof. intros H. unfold exec_at. now apply H. Qed.

(** A numeral is taken whole by [\d+ \.? \d*] when no digit follows it
    and, if it has no dot, no dot follows it either. *)
Lemma takes_numeral whole frac dot rest :
  digits1 whole -> forallb is_digit frac = true ->
  stops is_digit rest -> stops is_dot rest ->
  takes (seq [Plus is_digit; Opt is_dot; Star is_digit])
        (numeral whole frac dot) rest [].
Proof.
  intros [Hne Hw] Hf Hd Hdot. unfold numeral. cbn [seq fold_right].
  destruct dot.
  - assert (H : takes (Cat (Plus is_digit)
                         (Cat (Opt is_dot) (Cat (Star is_digit) Eps)))
                  (whole ++ ([46] ++ (frac ++ []))) rest
                  ([] ++ ([] ++ ([] ++ [])))).
    { apply takes_cat; [now apply takes_plus|].
      apply takes_cat; [now apply takes_opt_some|].
      apply takes_cat; [|apply takes_eps].
      now apply takes_star. }
    simpl in H. now rewrite app_nil_r in H.
  - assert (H : takes (Cat (Plus is_digit)
                         (Cat (Opt is_dot) (Cat (Star is_digit) Eps)))
                  (whole ++ ([] ++ ([] ++ []))) rest
                  ([] ++ ([] ++ ([] ++ [])))).
    { apply takes_cat; [now apply takes_plus|].
      apply takes_cat; [now apply takes_opt_none|].
      apply takes_cat; [|apply takes_eps].
      now apply takes_star. }
    exact H.
Qed.

(** Pattern 4 on [<N> oz (<M> g)]: the first path takes it all, with [N]
    and [M] as captures. *)
Lemma pattern4_takes whole frac dot M post :
  digits1 whole -> forallb is_digit frac = true -> digits1 M ->
  takes Manager.pattern4
    (numeral whole frac dot ++ lit " oz (" ++ M ++ lit " g)") post
    [numeral whole frac dot; M].
Proof.
  intros Hw Hf [HM1 HM2].
  change (takes
            (Cat (Grp (seq [Plus is_digit; Opt is_dot; Star is_digit]))
            (Cat (Star is_space)
            (Cat (chi "o") (Cat (chi "z")
            (Cat (Star is_space)
            (Cat (Cls is_lparen)
            (Cat (Grp (Plus is_digit))
            (Cat (Star is_space)
            (Cat (chi "g") (Cat (Cls is_rparen) Eps))))))))))
            (numeral whole frac dot ++ ([32] ++ ([111] ++ ([122] ++ ([32]
               ++ ([40] ++ (M ++ ([32] ++ ([103] ++ ([41] ++ []))))))))))
            post
            (([] ++ [numeral whole frac dot]) ++ ([] ++ ([] ++ ([] ++ ([]
               ++ ([] ++ (([] ++ [M]) ++ ([] ++ ([] ++ ([] ++ []))))))))))).
  apply takes_cat.
  { apply takes_grp. apply takes_numeral; auto; reflexivity. }
  apply takes_cat; [apply takes_star; reflexivity|].
  apply takes_cat; [apply takes_cls; reflexivity|].
  apply takes_cat; [apply takes_cls; reflexivity|].
  apply takes_cat; [apply takes_star; reflexivity|].
  apply takes_cat; [apply takes_cls; reflexivity|].
  apply takes_cat.
  { apply takes_grp. apply takes_plus; auto; reflexivity. }
  apply takes_cat; [apply takes_star; reflexivity|].
  apply takes_cat; [apply takes_cls; reflexivity|].
  apply takes_cat; [apply takes_cls; reflexivity|].
  apply takes_eps.
Qed.

Lemma search_skip r (fails : N -> bool) pre : forall acc s,
  (forall c x, fails c = true -> exec_at r (c :: x) = None) ->
  forallb fails pre = true ->
  search r acc (pre ++ s) = search r (rev pre ++ acc) s.
Proof.
  induction pre as [|c pre IH]; intros acc s Hfail Hpre; [reflexivity|].
  simpl in Hpre. apply andb_true_iff in Hpre as [Hc Hpre].
  simpl. rewrite (Hfail c (pre ++ s) Hc), (IH _ _ Hfail Hpre).
  now rewrite <- app_assoc.
Qed.

Lemma search_here r acc s caps rest :
  exec_at r s = Some (caps, rest) ->
  search r acc s = Some (rev acc, caps, rest).
Proof. intros H. destruct s; simpl; now rewrite H. Qed.

Lemma pattern4_starts_with_digit c x :
  negb (is_digit c) = true -> exec_at Manager.pattern4 (c :: x) = None.
Proof.
  intros Hc. apply negb_true_iff in Hc.
  unfold exec_at, Manager.pattern4. cbn [seq fold_right m].
  now rewrite Hc.
Qed.

Lemma pattern4_search pre whole frac dot M post :
  forallb (fun c => negb (is_digit c)) pre = true ->
  digits1 whole -> forallb is_digit frac = true -> digits1 M ->
  search Manager.pattern4 []
    (pre ++ numeral whole frac dot ++ lit " oz (" ++ M ++ lit " g)" ++ post)
  = Some (pre, [numeral whole frac dot; M], post).
Proof.
  intros Hpre Hw Hf HM.
  rewrite (search_skip _ _ pre [] _ pattern4_starts_with_digit Hpre).
  assert (He := takes_exec_at _ _ _ _ (pattern4_takes _ _ dot _ post Hw Hf HM)).
  rewrite <- !app_assoc in He.
  rewrite (search_here _ _ _ _ _ He), app_nil_r, rev_involutive.
  reflexivity.
Qed.

Lemma or_default_empty (s : jsstring) : or_default s [] = s.
Proof. now destruct s. Qed.

Lemma truthy_app_r (a b : jsstring) : b <> [] -> truthy (a ++ b) = true.
Proof. intros Hb. destruct a; [destruct b; [contradiction|]|]; reflexivity. Qed.



(** C9.  The two views do not extract the same thing.  On
    ["8.9 oz (251 g)"] in category BEVERAGE both clean the name to the
    empty string, but the manager view reports ounces (["8.9 oz"]) while
    the public view shows grams (["251g"]) and no ounces; on
    ["Coke 12 fl oz"] the manager view cleans the name to ["Coke"] and
    the public view leaves it as it is.  Hence no category makes the
    cleaned names agree on every name. *)
Theorem extractors_not_equivalent :
  (let item := Item.named (lit "8.9 oz (251 g)") (lit "BEVERAGE") in
   Manager.parseWeight item
   = Manager.mkParsed [] (Manager.weight_div (lit "8.9 oz"))
   /\ Public.extractLabel (Item.ITEM item)
      = Public.mkLabel [] (lit "251") (lit "8.9")
   /\ Public.item_grams (Public.listing_of (lit "BEVERAGE") None 0 item)
      = Public.span "item-grams" (lit "251g")
   /\ Public.item_ounces (Public.listing_of (lit "BEVERAGE") None 0 item)
      = [])
  /\ (forall category,
        Manager.itemName
          (Manager.parseWeight (Item.named (lit "Coke 12 fl oz") category))
        = lit "Coke")
  /\ Public.cleanedName (Public.extractLabel (lit "Coke 12 fl oz"))
     = lit "Coke 12 fl oz"
  /\ (forall category,
        ~ (forall name,
             Manager.itemName
               (Manager.parseWeight (Item.named name category))
             = Public.cleanedName (Public.extractLabel name))).
Proof.
  assert (Hcoke : forall category,
            Manager.itemName
              (Manager.parseWeight
                 (Item.named (lit "Coke 12 fl oz") category))
            = lit "Coke").
  { intros category. unfold Manager.parseWeight.
    cbn [Item.ITEM Item.named].
    replace (Manager.try_pattern Manager.pattern1 _ _)
      with (Manager.mkParsed (lit "Coke 12 fl oz") [])
      by (vm_compute; reflexivity).
    replace (Manager.unless_weight (Manager.try_pattern Manager.pattern2 _)
               (Manager.mkParsed (lit "Coke 12 fl oz") []))
      with (Manager.mkParsed (lit "Coke 12 fl oz") [])
      by (vm_compute; reflexivity).
    replace (Manager.unless_weight (Manager.try_pattern Manager.pattern3 _)
               (Manager.mkParsed (lit "Coke 12 fl oz") []))
      with (Manager.mkParsed (lit "Coke")
              (Manager.weight_div (lit "12 fl oz")))
      by (vm_compute; reflexivity).
    unfold Manager.unless_weight. cbn [Manager.weightInfo].
    rewrite !weight_div_truthy.
    cbn [negb andb Manager.weightInfo Manager.itemName].
    rewrite !weight_div_truthy. reflexivity. }
  split; [cbv zeta; repeat apply conj; vm_compute; reflexivity|].
  split; [exact Hcoke|].
  split; [vm_compute; reflexivity|].
  intros category H. specialize (H (lit "Coke 12 fl oz")).
  rewrite Hcoke in H. vm_compute in H. discriminate H.
Qed.

(** ** Nutritional highlights *)








Example highlight_examples :
  let item := Item.mk None (lit "Grilled Chicken") (lit "CHICKENFISH")
                (Some (lit "350")) None None None None None
                (Some (lit "42")) (Some (lit "3")) (Some (lit "8"))
                (Some (lit "25.5")) in
  Public.getNutritionalHighlight item (Some (lit "high-protein"))
  = Public.highlight_span (lit "25g protein")
  /\ Public.getNutritionalHighlight item (Some (lit "gut-friendly")) = []
  /\ Public.getNutritionalHighlight item (Some (lit "low-carb")) = []
  /\ Public.getNutritionalHighlight item (Some (lit "low-sugar"))
     = Public.highlight_span (lit "8g sugar").
Proof. cbv zeta. repeat apply conj; vm_compute; reflexivity. Qed.

(** ** The manager page *)

Section Page.

Variable toISOString : jsstring -> option jsstring.
Variable toLowerCase : jsstring -> jsstring.

#[local] Abbreviation step := (Manager.step toISOString toLowerCase).
#[local] Abbreviation run := (Manager.run toISOString toLowerCase).
#[local] Abbreviation getData_resume := (Manager.getData_resume toLowerCase).

(** *** Saving *)

Lemma first_truthy_message statusText details error :
  Manager.first_truthy details error statusText
  = error_message statusText (Some (Manager.ReplyObject details error)).
Proof.
  unfold Manager.first_truthy, error_message, present, interpolate.
  destruct details as [d|], error as [e|]; simpl;
    repeat match goal with |- context [truthy ?x] => destruct (truthy x) end;
    reflexivity.
Qed.

(** C3.  [saveItem] sends exactly one request.  A record whose [id] is
    truthy (a non-empty string; the hidden form field of an existing
    item) goes by PUT to [/data/<id>]; a record without [id], or whose
    [id] is null or the empty string (the hidden field of a new item),
    goes by POST to [/data]. *)
Theorem saveItem_routes (data : gmap jsstring Manager.jval)
    (st : Manager.page) :
  let id := data !! lit "id" in
  (Manager.val_truthy id = true ->
   Manager.issued (Manager.saveItem data st)
   = Manager.issued st
       ++ [Manager.mkRequest Manager.PUT
             (lit "/data/" ++ Manager.val_to_string id) (Some data)])
  /\ (Manager.val_truthy id = false ->
      Manager.issued (Manager.saveItem data st)
      = Manager.issued st
          ++ [Manager.mkRequest Manager.POST (lit "/data") (Some data)])
  /\ (forall s, id = Some (Manager.JStr s) -> s <> [] ->
      Manager.issued (Manager.saveItem data st)
      = Manager.issued st
          ++ [Manager.mkRequest Manager.PUT (lit "/data/" ++ s) (Some data)])
  /\ (id = None \/ id = Some Manager.JNull \/ id = Some (Manager.JStr []) ->
      Manager.issued (Manager.saveItem data st)
      = Manager.issued st
          ++ [Manager.mkRequest Manager.POST (lit "/data") (Some data)]).
Proof.
  intros id. unfold Manager.saveItem. fold id.
  split; [intros H; rewrite H; reflexivity|].
  split; [intros H; rewrite H; reflexivity|].
  split.
  - intros s Hs Hne. rewrite Hs. destruct s; [contradiction|reflexivity].
  - intros [H|[H|H]]; rewrite H; reflexivity.
Qed.

(** C8.  When the answer to a save arrives: a response that is not ok
    raises one alert, "Failed to save: " followed by the [details] of the
    error body, else its [error], else the status text; a rejected request
    raises the alert "An error occurred while saving"; in both cases no
    request is sent (no refresh), and the items in memory, the rendered
    list and the toasts stay as they were.  An ok response with a JSON
    body shows the toast and sends the list request [GET /data], the
    refresh whose answer will rebuild the list. *)
Theorem save_settles (st : Manager.page) (n : nat) (req : Manager.request)
    (o : Manager.outcome Manager.reply) :
  Manager.inflight st !! n = Some (req, Manager.KSave) ->
  let st' := step st (Manager.SaveSettles n o) in
  match o with
  | Manager.Response false statusText body =>
      Manager.alerts st'
      = Manager.alerts st
          ++ [lit "Failed to save: " ++ error_message statusText body]
      /\ Manager.issued st' = Manager.issued st
      /\ Manager.inflight st' = delete n (Manager.inflight st)
      /\ Manager.allItems st' = Manager.allItems st
      /\ Manager.contentArea st' = Manager.contentArea st
      /\ Manager.toasts st' = Manager.toasts st
  | Manager.Rejected =>
      Manager.alerts st'
      = Manager.alerts st ++ [lit "An error occurred while saving"]
      /\ Manager.issued st' = Manager.issued st
      /\ Manager.inflight st' = delete n (Manager.inflight st)
      /\ Manager.allItems st' = Manager.allItems st
      /\ Manager.contentArea st' = Manager.contentArea st
      /\ Manager.toasts st' = Manager.toasts st
  | Manager.Response true _ (Some _) =>
      Manager.toasts st'
      = Manager.toasts st ++ [lit "Menu item saved successfully!"]
      /\ Manager.issued st' = Manager.issued st ++ [list_request]
      /\ Manager.inflight st'
         = delete n (Manager.inflight st) ++ [(list_request, Manager.KList)]
      /\ Manager.alerts st' = Manager.alerts st
  | Manager.Response true _ None =>
      Manager.alerts st'
      = Manager.alerts st ++ [lit "An error occurred while saving"]
      /\ Manager.issued st' = Manager.issued st
      /\ Manager.allItems st' = Manager.allItems st
  end.
Proof.
  intros H st'. subst st'. unfold Manager.step, Manager.settle. rewrite H.
  destruct o as [|[|] statusText [[|details error]|]]; simpl;
    rewrite ?first_truthy_message; repeat split; reflexivity.
Qed.

(** *** Loading the list *)

(** What the answer to the list request does to the items in memory: an
    ok answer with at least one item replaces them wholesale; an ok answer
    with no item shows the "no data" message and leaves them untouched. *)
Lemma getData_resume_items (st : Manager.page) statusText data :
  let st' := getData_resume (Manager.Response true statusText (Some data)) st in
  match data with
  | [] =>
      Manager.contentArea st'
      = Manager.Html (lit "<p><i>No data found in the database.</i></p>")
      /\ Manager.allItems st' = Manager.allItems st
  | _ => Manager.allItems st' = data
  end.
Proof.
  destruct data as [|item data]; simpl; [split; reflexivity|].
  unfold Manager.filterAndDisplayItems.
  now destruct (List.filter _ _).
Qed.

(** *** Deleting *)

Lemma remove_closure_head c (l : list Manager.closure) :
  NoDup (List.map fst (c :: l)) -> Manager.remove_closure c.1 (c :: l) = l.
Proof.
  intros Hnd. apply NoDup_cons in Hnd as [Hc _].
  unfold Manager.remove_closure. simpl. rewrite Nat.eqb_refl. simpl.
  induction l as [|d l IH]; [reflexivity|]. simpl.
  destruct (Nat.eqb d.1 c.1) eqn:Hd.
  - apply Nat.eqb_eq in Hd. exfalso. apply Hc. rewrite <- Hd. simpl. left.
  - simpl. f_equal. apply IH. intros Hin. apply Hc. simpl. now right.
Qed.

Lemma click_confirm_fold (l : list Manager.closure) : forall st,
  Manager.confirmListeners st = l -> Manager.cancelListeners st = l ->
  NoDup (List.map fst l) ->
  let st' :=
    foldl (fun st c =>
             if Manager.has_closure c.1 (Manager.confirmListeners st)
             then Manager.handleConfirm c st else st) st l in
  Manager.confirmListeners st' = []
  /\ Manager.cancelListeners st' = []
  /\ Manager.nextClosure st' = Manager.nextClosure st
  /\ Manager.issued st' = Manager.issued st ++ List.map delete_request l
  /\ Manager.inflight st'
     = Manager.inflight st
         ++ List.map (fun c => (delete_request c, Manager.KDelete)) l.
Proof.
  induction l as [|c l IH]; intros st Hc Hk Hnd; simpl.
  - rewrite !app_nil_r. auto.
  - rewrite Hc. simpl. rewrite Nat.eqb_refl. simpl.
    assert (Hl := remove_closure_head c l Hnd).
    apply NoDup_cons in Hnd as [_ Hnd].
    destruct (IH (Manager.handleConfirm c st)) as (H1 & H2 & H3 & H4 & H5);
      [simpl; now rewrite Hc | simpl; now rewrite Hk | exact Hnd |].
    rewrite H1, H2, H3, H4, H5. simpl. rewrite <- !app_assoc. auto.
Qed.

Lemma click_cancel_fold (l : list Manager.closure) : forall st,
  Manager.confirmListeners st = l -> Manager.cancelListeners st = l ->
  NoDup (List.map fst l) ->
  let st' :=
    foldl (fun st c =>
             if Manager.has_closure c.1 (Manager.cancelListeners st)
             then Manager.handleCancel c st else st) st l in
  Manager.confirmListeners st' = []
  /\ Manager.cancelListeners st' = []
  /\ Manager.nextClosure st' = Manager.nextClosure st.
Proof.
  induction l as [|c l IH]; intros st Hc Hk Hnd; simpl.
  - auto.
  - rewrite Hk. simpl. rewrite Nat.eqb_refl. simpl.
    assert (Hl := remove_closure_head c l Hnd).
    apply NoDup_cons in Hnd as [_ Hnd].
    destruct (IH (Manager.handleCancel c st)) as (H1 & H2 & H3);
      [simpl; now rewrite Hc | simpl; now rewrite Hk | exact Hnd |].
    rewrite H1, H2, H3. auto.
Qed.

(** A click on Cancel sends nothing, whatever the listeners are. *)
Lemma click_cancel_issued (l : list Manager.closure) : forall st,
  Manager.issued
    (foldl (fun st c =>
              if Manager.has_closure c.1 (Manager.cancelListeners st)
              then Manager.handleCancel c st else st) st l)
  = Manager.issued st.
Proof.
  induction l as [|c l IH]; intros st; simpl; [reflexivity|].
  rewrite IH. now destruct (Manager.has_closure _ _).
Qed.

Lemma paired_frame (st st' : Manager.page) :
  Manager.confirmListeners st' = Manager.confirmListeners st ->
  Manager.cancelListeners st' = Manager.cancelListeners st ->
  Manager.nextClosure st' = Manager.nextClosure st ->
  paired st -> paired st'.
Proof. unfold paired. intros -> -> ->. exact (fun H => H). Qed.

Lemma paired_deleteItem id st :
  paired st -> paired (Manager.deleteItem id st).
Proof.
  intros (Heq & Hnd & Hlt). unfold paired. simpl.
  split; [now rewrite Heq|]. split.
  - rewrite map_app. simpl. apply NoDup_app. split; [exact Hnd|].
    split; [|apply NoDup_singleton].
    intros x Hx Hx'. apply list_elem_of_singleton in Hx'. subst x.
    apply list_elem_of_In, in_map_iff in Hx as (c & Hc & Hin).
    rewrite Forall_forall in Hlt. apply list_elem_of_In, Hlt in Hin. lia.
  - apply Forall_app. split.
    + eapply Forall_impl; [exact Hlt|]. simpl. intros; lia.
    + apply Forall_cons. split; [simpl; lia|apply Forall_nil_2].
Qed.

Lemma paired_nil st :
  Manager.confirmListeners st = [] -> Manager.cancelListeners st = [] ->
  paired st.
Proof.
  intros Hc Hk. unfold paired. rewrite Hc, Hk.
  split; [reflexivity|]. split; [apply NoDup_nil_2|apply Forall_nil_2].
Qed.

Lemma paired_step st e : paired st -> paired (step st e).
Proof.
  intros Hp. destruct e as [f|item| | |term|category|n o|n o|n o]; simpl.
  - destruct (Manager.getFormData _ _); [|exact Hp].
    now apply (paired_frame st).
  - now apply paired_deleteItem.
  - destruct Hp as (Heq & Hnd & _).
    destruct (click_confirm_fold _ st eq_refl (eq_sym Heq) Hnd)
      as (H1 & H2 & _).
    now apply paired_nil.
  - destruct Hp as (Heq & Hnd & _).
    assert (Hnd' : NoDup (List.map fst (Manager.cancelListeners st)))
      by (now rewrite <- Heq).
    destruct (click_cancel_fold _ st Heq eq_refl Hnd') as (H1 & H2 & _).
    now apply paired_nil.
  - unfold Manager.filterAndDisplayItems.
    destruct (List.filter _ _); now apply (paired_frame st).
  - unfold Manager.filterAndDisplayItems.
    destruct (List.filter _ _); now apply (paired_frame st).
  - unfold Manager.settle.
    destruct (Manager.inflight st !! n) as [[r []]|]; try exact Hp.
    destruct o as [|[|] statusText [[|item data]|]]; simpl;
      try (now apply (paired_frame st)).
    unfold Manager.filterAndDisplayItems.
    destruct (List.filter _ _); now apply (paired_frame st).
  - unfold Manager.settle.
    destruct (Manager.inflight st !! n) as [[r []]|]; try exact Hp.
    destruct o as [|[|] statusText [[|details error]|]]; simpl;
      now apply (paired_frame st).
  - unfold Manager.settle.
    destruct (Manager.inflight st !! n) as [[r []]|]; try exact Hp.
    destruct o as [|[|] statusText [[|details error]|]]; simpl;
      now apply (paired_frame st).
Qed.

Lemma paired_run evs : forall st, paired st -> paired (run evs st).
Proof.
  induction evs as [|e evs IH]; intros st Hp; [exact Hp|].
  simpl. apply IH. now apply paired_step.
Qed.

Lemma paired_loaded : paired Manager.loaded.
Proof. now apply paired_nil. Qed.

(** Every event but a click on Confirm leaves the DELETE requests sent so
    far as they are. *)
Lemma step_deletes st e :
  e <> Manager.ClickConfirm ->
  List.filter is_delete (Manager.issued (step st e))
  = List.filter is_delete (Manager.issued st).
Proof.
  intros He. destruct e as [f|item| | |term|category|n o|n o|n o]; simpl.
  - destruct (Manager.getFormData _ _) as [data|]; [|reflexivity].
    unfold Manager.saveItem. simpl. rewrite List.filter_app. simpl.
    destruct (Manager.val_truthy _); simpl; now rewrite app_nil_r.
  - reflexivity.
  - contradiction.
  - unfold Manager.click_cancel. now rewrite click_cancel_issued.
  - unfold Manager.filterAndDisplayItems. now destruct (List.filter (Manager.passes _ _ _) _).
  - unfold Manager.filterAndDisplayItems. now destruct (List.filter (Manager.passes _ _ _) _).
  - unfold Manager.settle.
    destruct (Manager.inflight st !! n) as [[r []]|]; try reflexivity.
    destruct o as [|[|] statusText [[|item data]|]]; simpl; try reflexivity.
    unfold Manager.filterAndDisplayItems. now destruct (List.filter (Manager.passes _ _ _) _).
  - unfold Manager.settle.
    destruct (Manager.inflight st !! n) as [[r []]|]; try reflexivity.
    destruct o as [|[|] statusText [[|details error]|]]; simpl;
      rewrite ?List.filter_app; simpl; rewrite ?app_nil_r; reflexivity.
  - unfold Manager.settle.
    destruct (Manager.inflight st !! n) as [[r []]|]; try reflexivity.
    destruct o as [|[|] statusText [[|details error]|]]; simpl;
      rewrite ?List.filter_app; simpl; rewrite ?app_nil_r; reflexivity.
Qed.

Lemma run_without_confirm evs : forall st,
  ~ In Manager.ClickConfirm evs ->
  List.filter is_delete (Manager.issued (run evs st))
  = List.filter is_delete (Manager.issued st).
Proof.
  induction evs as [|e evs IH]; intros st Hn; [reflexivity|].
  simpl. rewrite IH by (intros H; apply Hn; now right).
  apply step_deletes. intros ->. apply Hn. now left.
Qed.

(** C7.  Deleting waits for the user.  [deleteItem] shows the modal and
    registers one closure on each button, without sending anything.  Of
    all events only a click on Confirm adds a DELETE request, and a click
    on Cancel sends no request at all; so a page on which Confirm was
    never clicked has sent no DELETE.  On the running page a click on
    Confirm sends [DELETE /data/<id>] for each deletion that waits, and
    after a click on either button no listener of a waiting deletion is
    left. *)
Theorem deletion_is_gated :
  (forall st item,
     let st' := step st (Manager.ClickDelete item) in
     Manager.modalShown st' = true
     /\ Manager.issued st' = Manager.issued st
     /\ Manager.inflight st' = Manager.inflight st
     /\ Manager.confirmListeners st'
        = Manager.confirmListeners st
            ++ [(Manager.nextClosure st, Item.id item)]
     /\ Manager.cancelListeners st'
        = Manager.cancelListeners st
            ++ [(Manager.nextClosure st, Item.id item)])
  /\ (forall st e,
        e <> Manager.ClickConfirm ->
        List.filter is_delete (Manager.issued (step st e))
        = List.filter is_delete (Manager.issued st))
  /\ (forall st,
        Manager.issued (step st Manager.ClickCancel) = Manager.issued st)
  /\ (forall evs,
        ~ In Manager.ClickConfirm evs ->
        List.filter is_delete (Manager.issued (run evs Manager.loaded)) = [])
  /\ (forall evs,
        let st := run evs Manager.loaded in
        Manager.issued (step st Manager.ClickConfirm)
        = Manager.issued st
            ++ List.map delete_request (Manager.confirmListeners st)
        /\ Manager.confirmListeners (step st Manager.ClickConfirm) = []
        /\ Manager.cancelListeners (step st Manager.ClickConfirm) = []
        /\ Manager.confirmListeners (step st Manager.ClickCancel) = []
        /\ Manager.cancelListeners (step st Manager.ClickCancel) = []).
Proof.
  split; [intros st item; simpl; repeat split; reflexivity|].
  split; [exact step_deletes|].
  split; [intros st; simpl; apply click_cancel_issued|].
  split; [intros evs Hn; now rewrite run_without_confirm|].
  intros evs st.
  destruct (paired_run evs _ paired_loaded) as (Heq & Hnd & _). fold st in Heq, Hnd.
  destruct (click_confirm_fold _ st eq_refl (eq_sym Heq) Hnd)
    as (H1 & H2 & _ & H4 & _).
  assert (Hnd' : NoDup (List.map fst (Manager.cancelListeners st)))
    by (now rewrite <- Heq).
  destruct (click_cancel_fold _ st Heq eq_refl Hnd') as (H5 & H6 & _).
  simpl. unfold Manager.click_confirm, Manager.click_cancel. auto.
Qed.

End Page.

(** *** The page on concrete inputs *)

Lemma saveItem_routes_witness :
  let existing : gmap jsstring Manager.jval :=
    <[lit "id" := Manager.JStr (lit "42")]>
      (<[lit "ITEM" := Manager.JStr (lit "Fries")]> ∅) in
  let fresh : gmap jsstring Manager.jval :=
    <[lit "id" := Manager.JStr []]>
      (<[lit "ITEM" := Manager.JStr (lit "Fries")]> ∅) in
  (Manager.val_truthy (existing !! lit "id") = true
   /\ Manager.val_truthy (fresh !! lit "id") = false)
  /\ Manager.issued (Manager.saveItem existing Manager.init)
     = [Manager.mkRequest Manager.PUT (lit "/data/42") (Some existing)]
  /\ Manager.issued (Manager.saveItem fresh Manager.init)
     = [Manager.mkRequest Manager.POST (lit "/data") (Some fresh)].
Proof.
  cbv zeta.
  assert (He : Manager.val_truthy
                 ((<[lit "id" := Manager.JStr (lit "42")]>
                     (<[lit "ITEM" := Manager.JStr (lit "Fries")]> ∅)
                   : gmap jsstring Manager.jval) !! lit "id") = true)
    by (rewrite lookup_insert_eq; reflexivity).
  assert (Hf : Manager.val_truthy
                 ((<[lit "id" := Manager.JStr []]>
                     (<[lit "ITEM" := Manager.JStr (lit "Fries")]> ∅)
                   : gmap jsstring Manager.jval) !! lit "id") = false)
    by (rewrite lookup_insert_eq; reflexivity).
  split; [split; assumption|].
  split.
  - rewrite (proj1 (saveItem_routes _ Manager.init) He).
    rewrite lookup_insert_eq. reflexivity.
  - exact (proj1 (proj2 (saveItem_routes _ Manager.init)) Hf).
Defined.

Lemma save_settles_witness :
  let st := Manager.saveItem ∅ Manager.init in
  let o :=
    Manager.Response false (lit "Bad Request")
      (Some (Manager.ReplyObject (Some (lit "ITEM is required")) None)) in
  let st' :=
    Manager.step date_toISOString ascii_toLowerCase st
      (Manager.SaveSettles 0 o) in
  Manager.inflight st !! 0%nat
  = Some (Manager.mkRequest Manager.POST (lit "/data") (Some ∅),
          Manager.KSave)
  /\ Manager.alerts st' = [lit "Failed to save: ITEM is required"]
  /\ Manager.issued st' = Manager.issued st
  /\ Manager.allItems st' = [].
Proof.
  cbv zeta.
  assert (H : Manager.inflight (Manager.saveItem ∅ Manager.init) !! 0%nat
              = Some (Manager.mkRequest Manager.POST (lit "/data") (Some ∅),
                      Manager.KSave)) by reflexivity.
  split; [exact H|].
  destruct (save_settles date_toISOString ascii_toLowerCase _ 0 _
              (Manager.Response false (lit "Bad Request")
                 (Some (Manager.ReplyObject (Some (lit "ITEM is required"))
                          None))) H)
    as (Ha & Hi & _ & Hl & _).
  split; [exact Ha|]. split; [exact Hi|exact Hl].
Defined.

Lemma deletion_is_gated_witness :
  let item := Item.mk (Some (lit "7")) (lit "Fries") (lit "SNACKSIDE")
                None None None None None None None None None None in
  let evs := [Manager.ClickDelete item; Manager.ClickCancel;
              Manager.ClickDelete item] in
  ~ In Manager.ClickConfirm evs
  /\ List.filter is_delete
       (Manager.issued
          (Manager.run date_toISOString ascii_toLowerCase evs Manager.loaded))
     = [].
Proof.
  cbv zeta.
  assert (Hn : ~ In Manager.ClickConfirm
                 [Manager.ClickDelete
                    (Item.mk (Some (lit "7")) (lit "Fries") (lit "SNACKSIDE")
                       None None None None None None None None None None);
                  Manager.ClickCancel;
                  Manager.ClickDelete
                    (Item.mk (Some (lit "7")) (lit "Fries") (lit "SNACKSIDE")
                       None None None None None None None None None None)]).
  { intros [H|[H|[H|[]]]]; discriminate H. }
  split; [exact Hn|].
  exact (proj1 (proj2 (proj2 (proj2
           (deletion_is_gated date_toISOString ascii_toLowerCase)))) _ Hn).
Defined.

(** C6 fails on the code when the page already holds items.  The page
    loads one item, the user deletes it and confirms, the server answers,
    and the refresh returns the empty list: the "no data" message is
    shown, but [allItems] still holds the deleted item, and the next
    keystroke in the search box renders its card again. *)
Theorem empty_fetch_keeps_stale_items :
  let item := Item.mk (Some (lit "7")) (lit "Fries 5.9 oz (168 g)")
                (lit "SNACKSIDE") None None None None None None None None
                None None in
  let st :=
    Manager.run date_toISOString ascii_toLowerCase
      [Manager.ListSettles 0
         (Manager.Response true (lit "OK") (Some [item]));
       Manager.ClickDelete item;
       Manager.ClickConfirm;
       Manager.DeleteSettles 0
         (Manager.Response true (lit "OK")
            (Some (Manager.ReplyObject None None)));
       Manager.ListSettles 0 (Manager.Response true (lit "OK") (Some []))]
      Manager.loaded in
  Manager.issued st
  = [list_request;
     Manager.mkRequest Manager.DELETE (lit "/data/7") None;
     list_request]
  /\ Manager.inflight st = []
  /\ Manager.contentArea st
     = Manager.Html (lit "<p><i>No data found in the database.</i></p>")
  /\ Manager.allItems st = [item]
  /\ Manager.contentArea
       (Manager.step date_toISOString ascii_toLowerCase st
          (Manager.SearchInput []))
     = Manager.Cards [Manager.renderItem item].
Proof. cbv zeta. repeat apply conj; vm_compute; reflexivity. Qed.

(** On a page that has just been loaded the list in memory is empty, and
    an empty answer leaves it so. *)
Example first_empty_fetch :
  let st :=
    Manager.run date_toISOString ascii_toLowerCase
      [Manager.ListSettles 0 (Manager.Response true (lit "OK") (Some []))]
      Manager.loaded in
  Manager.contentArea st
  = Manager.Html (lit "<p><i>No data found in the database.</i></p>")
  /\ Manager.allItems st = [].
Proof. cbv zeta. split; vm_compute; reflexivity. Qed.

(** ** Form data *)







Section FormData.

Variable toISOString : jsstring -> option jsstring.

#[local] Abbreviation coerce_input := (Manager.coerce_input toISOString).
#[local] Abbreviation getFormData := (Manager.getFormData toISOString).

Lemma coerce_input_frame json el json' :
  coerce_input json el = Some json' ->
  forall k, k <> Manager.in_name el -> json' !! k = json !! k.
Proof.
  unfold Manager.coerce_input. intros H k Hk.
  destruct (Manager.in_type el);
    try (inversion H; subst; reflexivity);
    destruct (Manager.isEmpty _) as [[|]|]; try discriminate;
    try destruct (toISOString _); try discriminate;
    inversion H; subst; try reflexivity;
    now rewrite lookup_insert_ne.
Qed.












End FormData.



(** ** Grouping by category *)

Lemma eqb_true (a b : jsstring) : eqb a b = true <-> a = b.
Proof. unfold eqb. apply bool_decide_eq_true. Qed.

Lemma eqb_refl (a : jsstring) : eqb a a = true.
Proof. now apply eqb_true. Qed.

Lemma eqb_neq (a b : jsstring) : eqb a b = false <-> a <> b.
Proof. unfold eqb. apply bool_decide_eq_false. Qed.

Lemma own_push categories key item : forall key',
  Public.own (Public.push categories key item) key'
  = if eqb key' key
    then option_map (fun b => b ++ [item]) (Public.own categories key')
    else Public.own categories key'.
Proof.
  induction categories as [|[k v] rest IH]; intros key'; simpl.
  - now destruct (eqb key' key).
  - destruct (eqb k key) eqn:Hk; simpl.
    + apply eqb_true in Hk. subst k.
      destruct (eqb key key') eqn:Hkk.
      * apply eqb_true in Hkk. subst key'. now rewrite eqb_refl.
      * apply eqb_neq in Hkk.
        assert (Hn : eqb key' key = false) by (apply eqb_neq; congruence).
        now rewrite Hn.
    + destruct (eqb k key') eqn:Hkk.
      * apply eqb_true in Hkk. subst key'. now rewrite Hk.
      * apply IH.
Qed.

Lemma map_fst_push categories key item :
  List.map fst (Public.push categories key item) = List.map fst categories.
Proof.
  induction categories as [|[k v] rest IH]; simpl; [reflexivity|].
  destruct (eqb k key); simpl; [reflexivity|]. now rewrite IH.
Qed.

Lemma own_None categories key :
  Public.own categories key = None -> ~ In key (List.map fst categories).
Proof.
  induction categories as [|[k v] rest IH]; simpl; [auto|].
  destruct (eqb k key) eqn:Hk; [discriminate|].
  apply eqb_neq in Hk. intros H [Heq|Hin]; [contradiction|]. now apply IH.
Qed.

Lemma own_In categories key b :
  Public.own categories key = Some b -> In (key, b) categories.
Proof.
  induction categories as [|[k v] rest IH]; simpl; [discriminate|].
  destruct (eqb k key) eqn:Hk.
  - apply eqb_true in Hk. subst k. intros H. inversion H. now left.
  - intros H. right. now apply IH.
Qed.

Lemma In_own categories key b :
  NoDup (List.map fst categories) -> In (key, b) categories ->
  Public.own categories key = Some b.
Proof.
  induction categories as [|[k v] rest IH]; simpl; [contradiction|].
  intros Hnd [Heq|Hin].
  - inversion Heq; subst. now rewrite eqb_refl.
  - apply NoDup_cons in Hnd as [Hk Hnd]. rewrite list_elem_of_In in Hk.
    destruct (eqb k key) eqn:Hkk.
    + apply eqb_true in Hkk. subst k. exfalso. apply Hk.
      now apply (in_map fst rest (key, b)).
    + now apply IH.
Qed.

Lemma push_fresh categories key item :
  Public.own categories key = None ->
  Public.push (categories ++ [(key, [])]) key item
  = categories ++ [(key, [item])].
Proof.
  induction categories as [|[k v] rest IH]; simpl.
  - intros _. now rewrite eqb_refl.
  - destruct (eqb k key); [discriminate|]. intros H. now rewrite IH.
Qed.

Lemma concat_push categories key item b :
  Public.own categories key = Some b ->
  Permutation (concat (List.map snd (Public.push categories key item)))
              (concat (List.map snd categories) ++ [item]).
Proof.
  induction categories as [|[k v] rest IH]; simpl; [discriminate|].
  destruct (eqb k key); simpl.
  - intros _. rewrite <- !app_assoc. apply Permutation_app_head.
    apply Permutation_app_comm.
  - intros H. rewrite <- app_assoc. apply Permutation_app_head. now apply IH.
Qed.

Lemma bucket_of_snoc key processed item :
  bucket_of key (processed ++ [item])
  = bucket_of key processed
      ++ (if eqb (Item.CATEGORY item) key then [item] else []).
Proof. unfold bucket_of. now rewrite List.filter_app. Qed.

Lemma own_app categories key v : forall key',
  Public.own (categories ++ [(key, v)]) key'
  = match Public.own categories key' with
    | Some b => Some b
    | None => if eqb key key' then Some v else None
    end.
Proof.
  induction categories as [|[k w] rest IH]; intros key'; simpl;
    [reflexivity|].
  destruct (eqb k key'); [reflexivity|apply IH].
Qed.

Lemma grouped_step processed categories item :
  grouped processed categories ->
  Public.inherited (Item.CATEGORY item) = false ->
  exists categories',
    Public.group_item categories item = Some categories'
    /\ grouped (processed ++ [item]) categories'.
Proof.
  intros (Hnd & Hown & Hperm) Hord. unfold Public.group_item.
  set (key := Item.CATEGORY item) in *.
  assert (Hbucket : forall key',
            match bucket_of key' (processed ++ [item]) with
            | [] => None
            | b => Some b
            end
            = if eqb key' key
              then Some (bucket_of key' processed ++ [item])
              else match bucket_of key' processed with
                   | [] => None
                   | b => Some b
                   end).
  { intros key'. rewrite bucket_of_snoc. fold key.
    destruct (eqb key' key) eqn:Hk.
    - apply eqb_true in Hk. subst key'. rewrite eqb_refl.
      now destruct (bucket_of key processed).
    - assert (Hk' : eqb key key' = false)
        by (apply eqb_neq; apply eqb_neq in Hk; congruence).
      now rewrite Hk', app_nil_r. }
  destruct (Public.own categories key) as [b|] eqn:Hb.
  - eexists. split; [reflexivity|]. split; [|split].
    + now rewrite map_fst_push.
    + intros key'. rewrite own_push, Hbucket.
      destruct (eqb key' key) eqn:Hk; [|apply Hown].
      apply eqb_true in Hk. subst key'. rewrite Hb. simpl.
      specialize (Hown key). rewrite Hb in Hown.
      destruct (bucket_of key processed); [discriminate|].
      now inversion Hown.
    + rewrite (concat_push _ _ _ _ Hb). now apply Permutation_app_tail.
  - rewrite Hord. eexists. split; [reflexivity|].
    rewrite (push_fresh _ _ _ Hb). split; [|split].
    + rewrite map_app. simpl. apply NoDup_app. split; [exact Hnd|].
      split; [|apply NoDup_singleton].
      intros x Hx Hx'. apply list_elem_of_singleton in Hx'. subst x.
      apply list_elem_of_In in Hx. now apply own_None in Hb.
    + intros key'. rewrite own_app, Hbucket.
      destruct (eqb key' key) eqn:Hk.
      * apply eqb_true in Hk. subst key'. rewrite Hb, eqb_refl.
        specialize (Hown key). rewrite Hb in Hown.
        now destruct (bucket_of key processed).
      * assert (Hk' : eqb key key' = false)
          by (apply eqb_neq; apply eqb_neq in Hk; congruence).
        rewrite Hk', <- Hown. now destruct (Public.own categories key').
    + rewrite map_app, concat_app. simpl. rewrite ?app_nil_r.
      now apply Permutation_app_tail.
Qed.

Lemma grouped_items rest : forall processed categories,
  grouped processed categories -> ordinary rest ->
  exists categories',
    Public.group_items rest categories = Some categories'
    /\ grouped (processed ++ rest) categories'.
Proof.
  induction rest as [|item rest IH]; intros processed categories Hg Hord.
  - exists categories. now rewrite app_nil_r.
  - unfold ordinary in Hord. simpl in Hord.
    apply andb_true_iff in Hord as [Hitem Hord].
    apply andb_true_iff in Hitem as [Hitem _].
    apply negb_true_iff in Hitem.
    destruct (grouped_step _ _ _ Hg Hitem) as (categories1 & Hstep & Hg1).
    destruct (IH _ _ Hg1 Hord) as (categories' & Hrest & Hg').
    exists categories'. simpl. rewrite Hstep.
    split; [exact Hrest|]. now rewrite <- app_assoc in Hg'.
Qed.

Lemma grouped_nil : grouped [] [].
Proof.
  split; [apply NoDup_nil_2|]. split; [reflexivity|]. apply Permutation_refl.
Qed.

Lemma insert_index_perm e l :
  Permutation (Public.insert_index e l) (e :: l).
Proof.
  induction l as [|x l IH]; simpl; [apply Permutation_refl|].
  destruct (e.1 <=? x.1); [apply Permutation_refl|].
  rewrite IH. apply perm_swap.
Qed.

Lemma sort_index_perm l :
  Permutation (fold_right Public.insert_index [] l) l.
Proof.
  induction l as [|x l IH]; simpl; [apply Permutation_refl|].
  rewrite insert_index_perm. now apply perm_skip.
Qed.

Lemma Object_entries_perm (o : Public.object) :
  Permutation (Public.Object_entries o) o.
Proof.
  unfold Public.Object_entries. rewrite sort_index_perm.
  induction o as [|e o IH]; simpl; [apply Permutation_refl|].
  destruct (Public.array_index e.1); simpl.
  - now apply perm_skip.
  - rewrite <- Permutation_middle. now apply perm_skip.
Qed.

Lemma filter_all {A : Type} (p : A -> bool) (l : list A) :
  (forall x, In x l -> p x = true) -> List.filter p l = l.
Proof.
  induction l as [|x l IH]; simpl; intros H; [reflexivity|].
  rewrite (H x (or_introl eq_refl)). f_equal. apply IH. auto.
Qed.

Lemma imap_inverse {A B : Type} (g : B -> A) (l : list A) :
  forall f : nat -> A -> B,
    (forall i x, g (f i x) = x) -> List.map g (imap f l) = l.
Proof.
  induction l as [|x l IH]; intros f Hf; simpl; [reflexivity|].
  rewrite Hf. f_equal. apply IH. intros i y. apply Hf.
Qed.

Lemma section_of_items categoryName items activeFilter :
  let sec := Public.section_of categoryName items activeFilter in
  Public.sec_category sec = categoryName
  /\ Public.sec_count sec = length items
  /\ List.map Public.listed (Public.sec_listings sec) = items.
Proof.
  simpl. split; [reflexivity|]. split; [reflexivity|].
  now apply imap_inverse.
Qed.

Lemma display_all_valid (l : list (jsstring * list Item.t)) :
  (forall e, In e l -> Public.valid_token e.1 = true) ->
  Public.display_all l
  = Some (List.map (fun e => Public.section_of e.1 e.2 None) l).
Proof.
  induction l as [|e l IH]; intros Hv; simpl; [reflexivity|].
  unfold Public.displayCategoryItems.
  rewrite (Hv e (or_introl eq_refl)), IH; [reflexivity|].
  intros x Hx. apply Hv. now right.
Qed.

Lemma ordinary_valid items item :
  ordinary items -> In item items ->
  Public.valid_token (Item.CATEGORY item) = true.
Proof.
  unfold ordinary. rewrite forallb_forall. intros H Hin.
  apply H in Hin. now apply andb_true_iff in Hin as [_ Hin].
Qed.

Lemma grouped_buckets processed categories key bucket :
  grouped processed categories -> In (key, bucket) categories ->
  bucket = bucket_of key processed /\ bucket <> [].
Proof.
  intros (Hnd & Hown & _) Hin.
  apply (In_own _ _ _ Hnd) in Hin. rewrite Hown in Hin.
  destruct (bucket_of key processed); [discriminate|].
  inversion Hin. split; [reflexivity|discriminate].
Qed.

(** C10.  When every category is a name the page can use (not empty,
    without ASCII whitespace, and not the name of a property every object
    inherits), [createListings] succeeds and splits its input: the
    properties of [categories] have distinct names; every item is in the
    property named by its CATEGORY; each property holds exactly the items
    of its category, in input order, and is never empty; all buckets
    together are a permutation of the input; and each property, being
    non-empty, gets one filter button and one section, whose listings are
    the bucket's items in order. *)
Theorem createListings_partitions (menuItems : list Item.t) :
  ordinary menuItems ->
  exists out,
    Public.createListings menuItems = Some out
    /\ Public.allMenuItems out = menuItems
    /\ NoDup (List.map fst (Public.menuCategories out))
    /\ (forall item, In item menuItems ->
          exists bucket,
            In (Item.CATEGORY item, bucket) (Public.menuCategories out)
            /\ In item bucket)
    /\ (forall key bucket,
          In (key, bucket) (Public.menuCategories out) ->
          bucket = bucket_of key menuItems /\ bucket <> [])
    /\ Permutation (concat (List.map snd (Public.menuCategories out)))
                   menuItems
    /\ Permutation (Public.Object_entries (Public.menuCategories out))
                   (Public.menuCategories out)
    /\ Public.filter_buttons out
       = List.map fst (Public.Object_entries (Public.menuCategories out))
    /\ List.map Public.sec_category (Public.sections out)
       = List.map fst (Public.Object_entries (Public.menuCategories out))
    /\ List.map (fun sec => List.map Public.listed (Public.sec_listings sec))
         (Public.sections out)
       = List.map snd (Public.Object_entries (Public.menuCategories out)).
Proof.
  intros Hord.
  destruct (grouped_items menuItems [] [] grouped_nil Hord)
    as (categories & Hgroup & Hg).
  simpl in Hg. unfold Public.createListings. rewrite Hgroup.
  assert (Hfilter : List.filter Public.non_empty
                      (Public.Object_entries categories)
                    = Public.Object_entries categories).
  { apply filter_all. intros [key bucket] Hin.
    apply (Permutation_in _ (Object_entries_perm categories)) in Hin.
    destruct (grouped_buckets _ _ _ _ Hg Hin) as [_ Hne].
    unfold Public.non_empty. simpl. now destruct bucket. }
  assert (Hvalid : forall e, In e (Public.Object_entries categories) ->
                     Public.valid_token e.1 = true).
  { intros [key bucket] Hin.
    apply (Permutation_in _ (Object_entries_perm categories)) in Hin.
    destruct (grouped_buckets _ _ _ _ Hg Hin) as [Hb Hne].
    destruct bucket as [|item bucket]; [contradiction|].
    assert (Hitem : In item (bucket_of key menuItems))
      by (rewrite <- Hb; now left).
    unfold bucket_of in Hitem. apply filter_In in Hitem as [Hin' Hk].
    apply eqb_true in Hk. simpl. rewrite <- Hk.
    now apply (ordinary_valid menuItems). }
  rewrite Hfilter, (display_all_valid _ Hvalid).
  eexists. split; [reflexivity|]. simpl.
  unfold Public.createFilterButtons. rewrite Hfilter.
  pose proof Hg as (Hnd & Hown & Hperm).
  split; [reflexivity|]. split; [exact Hnd|]. split.
  { intros item Hin.
    assert (Hb : In item (bucket_of (Item.CATEGORY item) menuItems)).
    { unfold bucket_of. apply filter_In. split; [exact Hin|apply eqb_refl]. }
    specialize (Hown (Item.CATEGORY item)).
    destruct (bucket_of (Item.CATEGORY item) menuItems) as [|x b] eqn:Hbk;
      [contradiction|].
    exists (x :: b). split; [now apply own_In|exact Hb]. }
  split; [intros key bucket; apply grouped_buckets; exact Hg|].
  split; [exact Hperm|].
  split; [apply Object_entries_perm|].
  split; [reflexivity|].
  rewrite !List.map_map. split.
  - apply map_ext. reflexivity.
  - apply map_ext. intros [key bucket]. simpl. now apply imap_inverse.
Qed.

Lemma createListings_partitions_witness :
  let menuItems :=
    [Item.named (lit "Big Mac 7.6 oz (215 g)") (lit "BURGERSANDWICH");
     Item.named (lit "Coke 12 fl oz") (lit "BEVERAGE");
     Item.named (lit "Cheeseburger 4 oz (114 g)") (lit "BURGERSANDWICH")] in
  ordinary menuItems
  /\ exists out,
       Public.createListings menuItems = Some out
       /\ Public.filter_buttons out = [lit "BURGERSANDWICH"; lit "BEVERAGE"]
       /\ Permutation (concat (List.map snd (Public.menuCategories out)))
                      menuItems.
Proof.
  intros menuItems.
  assert (Hord : ordinary menuItems) by reflexivity.
  split; [exact Hord|].
  destruct (createListings_partitions menuItems Hord)
    as (out & Hout & _ & _ & _ & _ & Hperm & _).
  exists out. split; [exact Hout|]. split; [|exact Hperm].
  assert (H : option_map Public.filter_buttons
                (Public.createListings menuItems)
              = Some [lit "BURGERSANDWICH"; lit "BEVERAGE"])
    by (vm_compute; reflexivity).
  rewrite Hout in H. simpl in H. now inversion H.
Defined.

(** A category named like an inherited property stops [createListings]:
    [categories["constructor"]] is the function [Object], which has no
    [push]. *)
Example createListings_inherited_name :
  Public.createListings
    [Item.named (lit "Big Mac") (lit "BURGERSANDWICH");
     Item.named (lit "Mystery") (lit "constructor")]
  = None.
Proof. vm_compute. reflexivity. Qed.

(** So does an empty category, or one with a blank in it: the class
    token of its section is refused. *)
Example createListings_bad_token :
  Public.createListings [Item.named (lit "Mystery") []] = None
  /\ Public.createListings [Item.named (lit "Tea") (lit "HOT DRINKS")]
     = None.
Proof. split; vm_compute; reflexivity. Qed.

(** The categories of the menu are ordinary names. *)
Example menu_categories_ordinary :
  forallb (fun key => negb (Public.inherited (lit key))
                      && Public.valid_token (lit key))
    ["BURGERSANDWICH"; "CHICKENFISH"; "BREAKFAST"; "SALAD"; "SNACKSIDE";
     "BEVERAGE"; "MCCAFE"; "DESSERTSHAKE"; "CONDIMENT";
     "ALLDAYBREAKFAST"]%string
  = true.
Proof. vm_compute. reflexivity. Qed.

(** ** More on the manager page *)

Lemma starts_with_spec needle : forall hay,
  starts_with needle hay = true <-> exists after, hay = needle ++ after.
Proof.
  induction needle as [|a needle IH]; intros hay; simpl.
  - split; [intros _; now exists hay|reflexivity].
  - destruct hay as [|b hay].
    + split; [discriminate|intros [after H]; discriminate H].
    + rewrite andb_true_iff, N.eqb_eq, IH. split.
      * intros [-> [after ->]]. now exists after.
      * intros [after H]. inversion H. eauto.
Qed.

Lemma includes_spec needle : forall hay,
  includes hay needle = true
  <-> exists before after, hay = before ++ needle ++ after.
Proof.
  induction hay as [|c hay IH]; simpl.
  - rewrite orb_false_r, starts_with_spec. split.
    + intros [after H]. now exists [], after.
    + intros (before & after & H). destruct before; [|discriminate H].
      now exists after.
  - rewrite orb_true_iff, starts_with_spec, IH. split.
    + intros [[after H]|(before & after & H)].
      * now exists [], after.
      * exists (c :: before), after. simpl. now rewrite H.
    + intros (before & after & H). destruct before as [|b before].
      * left. now exists after.
      * right. inversion H. now exists before, after.
Qed.

Lemma filter_sublist {A : Type} (p : A -> bool) (l : list A) :
  sublist (List.filter p l) l.
Proof.
  induction l as [|x l IH]; simpl; [constructor|].
  destruct (p x); now constructor.
Qed.

Section PageMore.

Variable toISOString : jsstring -> option jsstring.
Variable toLowerCase : jsstring -> jsstring.

#[local] Abbreviation step' := (Manager.step toISOString toLowerCase).
#[local] Abbreviation run' := (Manager.run toISOString toLowerCase).

(** A click on Confirm touches the modal, the listeners and the requests
    only. *)
Lemma click_confirm_frame (l : list Manager.closure) : forall st,
  let st' :=
    foldl (fun st c =>
             if Manager.has_closure c.1 (Manager.confirmListeners st)
             then Manager.handleConfirm c st else st) st l in
  Manager.allItems st' = Manager.allItems st
  /\ Manager.contentArea st' = Manager.contentArea st
  /\ Manager.createButtonHidden st' = Manager.createButtonHidden st
  /\ Manager.toasts st' = Manager.toasts st
  /\ Manager.alerts st' = Manager.alerts st.
Proof.
  induction l as [|c l IH]; intros st; simpl; [auto 6|].
  destruct (IH (if Manager.has_closure c.1 (Manager.confirmListeners st)
                then Manager.handleConfirm c st else st))
    as (H1 & H2 & H3 & H4 & H5).
  rewrite H1, H2, H3, H4, H5.
  destruct (Manager.has_closure _ _); simpl; auto 6.
Qed.

Lemma click_cancel_frame (l : list Manager.closure) : forall st,
  let st' :=
    foldl (fun st c =>
             if Manager.has_closure c.1 (Manager.cancelListeners st)
             then Manager.handleCancel c st else st) st l in
  Manager.allItems st' = Manager.allItems st
  /\ Manager.contentArea st' = Manager.contentArea st
  /\ Manager.createButtonHidden st' = Manager.createButtonHidden st
  /\ Manager.toasts st' = Manager.toasts st
  /\ Manager.alerts st' = Manager.alerts st.
Proof.
  induction l as [|c l IH]; intros st; simpl; [auto 6|].
  destruct (IH (if Manager.has_closure c.1 (Manager.cancelListeners st)
                then Manager.handleCancel c st else st))
    as (H1 & H2 & H3 & H4 & H5).
  rewrite H1, H2, H3, H4, H5.
  destruct (Manager.has_closure _ _); simpl; auto 6.
Qed.

(** The list in memory is assigned in one place.  Every event other than
    an ok answer whose body parses leaves it as it is.  For such an
    answer with an array of items as its body, the list becomes that
    array when the answer settles a list request and the array has an
    item; it stays as it is when the array is empty or no list request
    is settled. *)
Theorem allItems_only_replaced (st : Manager.page) (e : Manager.event) :
  match e with
  | Manager.ListSettles n (Manager.Response true _ (Some data)) =>
      Manager.allItems (step' st e)
      = match Manager.inflight st !! n, data with
        | Some (_, Manager.KList), _ :: _ => data
        | _, _ => Manager.allItems st
        end
  | _ => Manager.allItems (step' st e) = Manager.allItems st
  end.
Proof.
  destruct e as [f|item| | |term|category|n o|n o|n o]; simpl.
  - now destruct (Manager.getFormData _ _).
  - reflexivity.
  - apply click_confirm_frame.
  - apply click_cancel_frame.
  - unfold Manager.filterAndDisplayItems.
    now destruct (List.filter (Manager.passes _ _ _) _).
  - unfold Manager.filterAndDisplayItems.
    now destruct (List.filter (Manager.passes _ _ _) _).
  - unfold Manager.settle.
    destruct o as [|[|] statusText [[|item data]|]];
      destruct (Manager.inflight st !! n) as [[r []]|]; simpl;
      try reflexivity.
    unfold Manager.filterAndDisplayItems.
    now destruct (List.filter (Manager.passes _ _ _) _).
  - unfold Manager.settle.
    destruct (Manager.inflight st !! n) as [[r []]|]; try reflexivity.
    now destruct o as [|[|] statusText [[|details error]|]].
  - unfold Manager.settle.
    destruct (Manager.inflight st !! n) as [[r []]|]; try reflexivity.
    now destruct o as [|[|] statusText [[|details error]|]].
Qed.

(** When the answer to a deletion arrives: an ok answer with a JSON body
    shows the toast and sends the list request; an answer that is not ok
    raises one alert with the [error] field of its body (the [details]
    field is not looked at) or "Failed to delete item"; a rejected
    request, or a body that is not JSON or is null, raises the alert "An
    error occurred while deleting".  A failure sends nothing and leaves
    the list in memory and the rendered list as they were. *)
Theorem delete_settles (st : Manager.page) (n : nat) (req : Manager.request)
    (o : Manager.outcome Manager.reply) :
  Manager.inflight st !! n = Some (req, Manager.KDelete) ->
  let st' := step' st (Manager.DeleteSettles n o) in
  match o with
  | Manager.Response true _ (Some _) =>
      Manager.toasts st'
      = Manager.toasts st ++ [lit "Item deleted successfully"]
      /\ Manager.issued st' = Manager.issued st ++ [list_request]
      /\ Manager.inflight st'
         = delete n (Manager.inflight st) ++ [(list_request, Manager.KList)]
      /\ Manager.alerts st' = Manager.alerts st
      /\ Manager.allItems st' = Manager.allItems st
  | Manager.Response false _ (Some (Manager.ReplyObject _ error)) =>
      Manager.alerts st' = Manager.alerts st ++ [delete_message error]
      /\ Manager.issued st' = Manager.issued st
      /\ Manager.allItems st' = Manager.allItems st
      /\ Manager.contentArea st' = Manager.contentArea st
      /\ Manager.toasts st' = Manager.toasts st
  | _ =>
      Manager.alerts st'
      = Manager.alerts st ++ [lit "An error occurred while deleting"]
      /\ Manager.issued st' = Manager.issued st
      /\ Manager.allItems st' = Manager.allItems st
      /\ Manager.contentArea st' = Manager.contentArea st
      /\ Manager.toasts st' = Manager.toasts st
  end.
Proof.
  intros H st'. subst st'. unfold Manager.step, Manager.settle. rewrite H.
  destruct o as [|[|] statusText [[|details [error|]]|]]; simpl;
    repeat apply conj; reflexivity.
Qed.

(** *** What the page sends *)

Lemma click_confirm_addressed (l : list Manager.closure) : forall st,
  Forall well_addressed (Manager.issued st) ->
  Forall well_addressed
    (Manager.issued
       (foldl (fun st c =>
                 if Manager.has_closure c.1 (Manager.confirmListeners st)
                 then Manager.handleConfirm c st else st) st l)).
Proof.
  induction l as [|c l IH]; intros st H; simpl; [exact H|].
  apply IH. destruct (Manager.has_closure _ _); [|exact H].
  simpl. apply Forall_app. split; [exact H|].
  apply Forall_cons. split; [|apply Forall_nil_2].
  split; [|reflexivity]. now exists (interpolate c.2).
Qed.

Lemma list_request_addressed : well_addressed list_request.
Proof. split; reflexivity. Qed.

Lemma saveItem_addressed data st :
  Forall well_addressed (Manager.issued st) ->
  Forall well_addressed (Manager.issued (Manager.saveItem data st)).
Proof.
  intros H. unfold Manager.saveItem. simpl.
  apply Forall_app. split; [exact H|].
  apply Forall_cons. split; [|apply Forall_nil_2].
  destruct (Manager.val_truthy (data !! lit "id")) eqn:Hid.
  - split; [|discriminate].
    exists (Manager.val_to_string (data !! lit "id")). split; [|reflexivity].
    destruct (data !! lit "id") as [[|[|]|[|c s]]|]; try discriminate Hid;
      discriminate.
  - split; [reflexivity|discriminate].
Qed.

Lemma step_addressed st e :
  Forall well_addressed (Manager.issued st) ->
  Forall well_addressed (Manager.issued (step' st e)).
Proof.
  intros H. destruct e as [f|item| | |term|category|n o|n o|n o]; simpl.
  - destruct (Manager.getFormData _ _); [|exact H].
    now apply saveItem_addressed.
  - exact H.
  - now apply click_confirm_addressed.
  - unfold Manager.click_cancel. now rewrite click_cancel_issued.
  - unfold Manager.filterAndDisplayItems.
    now destruct (List.filter (Manager.passes _ _ _) _).
  - unfold Manager.filterAndDisplayItems.
    now destruct (List.filter (Manager.passes _ _ _) _).
  - unfold Manager.settle.
    destruct (Manager.inflight st !! n) as [[r []]|]; try exact H.
    destruct o as [|[|] statusText [[|item data]|]]; simpl; try exact H.
    unfold Manager.filterAndDisplayItems.
    now destruct (List.filter (Manager.passes _ _ _) _).
  - unfold Manager.settle.
    destruct (Manager.inflight st !! n) as [[r []]|]; try exact H.
    destruct o as [|[|] statusText [[|details error]|]]; simpl;
      try exact H.
    + apply Forall_app. split; [exact H|].
      apply Forall_cons. split; [apply list_request_addressed|].
      apply Forall_nil_2.
    + apply Forall_app. split; [exact H|].
      apply Forall_cons. split; [apply list_request_addressed|].
      apply Forall_nil_2.
  - unfold Manager.settle.
    destruct (Manager.inflight st !! n) as [[r []]|]; try exact H.
    destruct o as [|[|] statusText [[|details error]|]]; simpl;
      try exact H.
    + apply Forall_app. split; [exact H|].
      apply Forall_cons. split; [apply list_request_addressed|].
      apply Forall_nil_2.
    + apply Forall_app. split; [exact H|].
      apply Forall_cons. split; [apply list_request_addressed|].
      apply Forall_nil_2.
Qed.

(** Whatever happens on the page, every request it has sent is one of
    the four calls of the interface: [GET /data] without a body,
    [POST /data] with a body, [PUT /data/<id>] with a non-empty id and a
    body, or [DELETE /data/<id>] without a body. *)
Theorem requests_well_addressed (evs : list Manager.event) :
  Forall well_addressed (Manager.issued (run' evs Manager.loaded)).
Proof.
  assert (H : forall evs st,
            Forall well_addressed (Manager.issued st) ->
            Forall well_addressed (Manager.issued (run' evs st))).
  { clear evs. induction evs as [|e evs IH]; intros st Hst; [exact Hst|].
    simpl. apply IH. now apply step_addressed. }
  apply H. simpl. apply Forall_cons. split; [apply list_request_addressed|].
  apply Forall_nil_2.
Qed.

(** *** The create button *)

Lemma step_keeps_hidden st e :
  Manager.createButtonHidden st = true ->
  Manager.createButtonHidden (step' st e) = true.
Proof.
  intros H. destruct e as [f|item| | |term|category|n o|n o|n o]; simpl.
  - now destruct (Manager.getFormData _ _).
  - exact H.
  - pose proof (click_confirm_frame (Manager.confirmListeners st) st)
      as (_ & _ & H3 & _).
    unfold Manager.click_confirm. congruence.
  - pose proof (click_cancel_frame (Manager.cancelListeners st) st)
      as (_ & _ & H3 & _).
    unfold Manager.click_cancel. congruence.
  - unfold Manager.filterAndDisplayItems.
    now destruct (List.filter (Manager.passes _ _ _) _).
  - unfold Manager.filterAndDisplayItems.
    now destruct (List.filter (Manager.passes _ _ _) _).
  - unfold Manager.settle.
    destruct (Manager.inflight st !! n) as [[r []]|]; try exact H.
    destruct o as [|[|] statusText [[|item data]|]]; simpl; try exact H;
      try reflexivity.
    unfold Manager.filterAndDisplayItems.
    now destruct (List.filter (Manager.passes _ _ _) _).
  - unfold Manager.settle.
    destruct (Manager.inflight st !! n) as [[r []]|]; try exact H.
    now destruct o as [|[|] statusText [[|details error]|]].
  - unfold Manager.settle.
    destruct (Manager.inflight st !! n) as [[r []]|]; try exact H.
    now destruct o as [|[|] statusText [[|details error]|]].
Qed.

(** A list request answered with a status that is not ok hides the create
    button and shows "Could not connect to the database."; nothing brings
    the button back: it stays hidden through every later event, a
    successful reload included. *)
Theorem create_button_stays_hidden (st : Manager.page) (n : nat)
    (req : Manager.request) statusText body (evs : list Manager.event) :
  Manager.inflight st !! n = Some (req, Manager.KList) ->
  let st' :=
    step' st (Manager.ListSettles n
                (Manager.Response false statusText body)) in
  Manager.contentArea st'
  = Manager.Html (lit "<p>Could not connect to the database.</p>")
  /\ Manager.allItems st' = Manager.allItems st
  /\ Manager.issued st' = Manager.issued st
  /\ Manager.createButtonHidden (run' evs st') = true.
Proof.
  intros H st'.
  assert (Hst : st'
                = Manager.set_contentArea
                    (Manager.Html
                       (lit "<p>Could not connect to the database.</p>"))
                    (Manager.hide_createButton
                       (Manager.set_inflight
                          (delete n (Manager.inflight st)) st))).
  { subst st'. unfold Manager.step, Manager.settle. now rewrite H. }
  assert (H1 : Manager.createButtonHidden st' = true)
    by (now rewrite Hst).
  split; [now rewrite Hst|]. split; [now rewrite Hst|].
  split; [now rewrite Hst|].
  clear Hst. clearbody st'. revert st' H1.
  induction evs as [|e evs IH]; intros st1 H1; [exact H1|].
  simpl. apply IH. now apply step_keeps_hidden.
Qed.

(** *** The modal *)

Lemma click_confirm_modal (l : list Manager.closure) : forall st,
  Manager.confirmListeners st = l -> Manager.cancelListeners st = l ->
  NoDup (List.map fst l) ->
  Manager.modalShown
    (foldl (fun st c =>
              if Manager.has_closure c.1 (Manager.confirmListeners st)
              then Manager.handleConfirm c st else st) st l)
  = match l with [] => Manager.modalShown st | _ => false end.
Proof.
  induction l as [|c l IH]; intros st Hc Hk Hnd; simpl; [reflexivity|].
  rewrite Hc. simpl. rewrite Nat.eqb_refl. simpl.
  assert (Hl := remove_closure_head c l Hnd).
  apply NoDup_cons in Hnd as [_ Hnd].
  rewrite (IH (Manager.handleConfirm c st));
    [now destruct l | simpl; now rewrite Hc | simpl; now rewrite Hk
    | exact Hnd].
Qed.

Lemma click_cancel_modal (l : list Manager.closure) : forall st,
  Manager.confirmListeners st = l -> Manager.cancelListeners st = l ->
  NoDup (List.map fst l) ->
  Manager.modalShown
    (foldl (fun st c =>
              if Manager.has_closure c.1 (Manager.cancelListeners st)
              then Manager.handleCancel c st else st) st l)
  = match l with [] => Manager.modalShown st | _ => false end.
Proof.
  induction l as [|c l IH]; intros st Hc Hk Hnd; simpl; [reflexivity|].
  rewrite Hk. simpl. rewrite Nat.eqb_refl. simpl.
  assert (Hl := remove_closure_head c l Hnd).
  apply NoDup_cons in Hnd as [_ Hnd].
  rewrite (IH (Manager.handleCancel c st));
    [now destruct l | simpl; now rewrite Hc | simpl; now rewrite Hk
    | exact Hnd].
Qed.

Lemma modal_frame (st st' : Manager.page) :
  Manager.confirmListeners st' = Manager.confirmListeners st ->
  Manager.modalShown st' = Manager.modalShown st ->
  modal_tracks st -> modal_tracks st'.
Proof. unfold modal_tracks. intros -> ->. exact (fun H => H). Qed.

Lemma modal_step st e :
  paired st -> modal_tracks st -> modal_tracks (step' st e).
Proof.
  intros Hp Hm. destruct e as [f|item| | |term|category|n o|n o|n o]; simpl.
  - destruct (Manager.getFormData _ _); [|exact Hm].
    now apply (modal_frame st).
  - unfold modal_tracks. simpl.
    now destruct (Manager.confirmListeners st).
  - destruct Hp as (Heq & Hnd & _). unfold modal_tracks, Manager.click_confirm.
    rewrite (click_confirm_modal _ st eq_refl (eq_sym Heq) Hnd).
    destruct (click_confirm_fold _ st eq_refl (eq_sym Heq) Hnd) as (H1 & _).
    rewrite H1. unfold modal_tracks in Hm. rewrite Hm.
    now destruct (Manager.confirmListeners st).
  - destruct Hp as (Heq & Hnd & _).
    assert (Hnd' : NoDup (List.map fst (Manager.cancelListeners st)))
      by (now rewrite <- Heq).
    unfold modal_tracks, Manager.click_cancel.
    rewrite (click_cancel_modal _ st Heq eq_refl Hnd').
    destruct (click_cancel_fold _ st Heq eq_refl Hnd') as (H1 & _).
    rewrite H1. unfold modal_tracks in Hm. rewrite Hm, Heq.
    now destruct (Manager.cancelListeners st).
  - unfold Manager.filterAndDisplayItems.
    destruct (List.filter (Manager.passes _ _ _) _);
      now apply (modal_frame st).
  - unfold Manager.filterAndDisplayItems.
    destruct (List.filter (Manager.passes _ _ _) _);
      now apply (modal_frame st).
  - unfold Manager.settle.
    destruct (Manager.inflight st !! n) as [[r []]|]; try exact Hm.
    destruct o as [|[|] statusText [[|item data]|]]; simpl;
      try (now apply (modal_frame st)).
    unfold Manager.filterAndDisplayItems.
    destruct (List.filter (Manager.passes _ _ _) _);
      now apply (modal_frame st).
  - unfold Manager.settle.
    destruct (Manager.inflight st !! n) as [[r []]|]; try exact Hm.
    destruct o as [|[|] statusText [[|details error]|]]; simpl;
      now apply (modal_frame st).
  - unfold Manager.settle.
    destruct (Manager.inflight st !! n) as [[r []]|]; try exact Hm.
    destruct o as [|[|] statusText [[|details error]|]]; simpl;
      now apply (modal_frame st).
Qed.

(** On the running page the confirmation modal is up exactly when some
    deletion waits for the answer of the user: it opens with
    [deleteItem] and closes with the click that resolves the deletions
    that wait, never before and never later. *)
Theorem modal_iff_waiting (evs : list Manager.event) :
  let st := run' evs Manager.loaded in
  Manager.modalShown st = true <-> Manager.confirmListeners st <> [].
Proof.
  assert (H : forall evs st, paired st -> modal_tracks st ->
                modal_tracks (run' evs st)).
  { clear evs. induction evs as [|e evs IH]; intros st Hp Hm; [exact Hm|].
    simpl. apply IH.
    - now apply paired_step.
    - now apply modal_step. }
  intros st. assert (Hm : modal_tracks st)
    by (apply H; [apply paired_loaded|reflexivity]).
  unfold modal_tracks in Hm. rewrite Hm.
  destruct (Manager.confirmListeners st); split; try discriminate; auto.
Qed.

(** *** The search box and the category menu *)

Lemma passes_shown term category item :
  Manager.passes toLowerCase term category item = true
  <-> shown toLowerCase term category item.
Proof.
  unfold Manager.passes, shown.
  rewrite andb_true_iff, !orb_true_iff, andb_true_iff, includes_spec,
    eqb_true.
  assert (Ht : forall s : jsstring, negb (truthy s) = true <-> s = [])
    by (intros [|c s]; simpl; split; auto; discriminate).
  assert (Hn : forall s : jsstring, truthy s = true <-> s <> [])
    by (intros [|c s]; simpl; split; auto; try discriminate;
        intros H; now contradiction H).
  now rewrite !Ht, Hn.
Qed.

(** [filterAndDisplayItems] shows the cards of exactly the items in memory
    that pass the search term (the lower-cased, trimmed text of the search
    box, looked for in the lower-cased name) and the selected category
    (strict equality), in the order they have in memory; with no such
    item it shows "No items match your search."; the list in memory is
    left alone. *)
Theorem filter_shows_passing (st : Manager.page) :
  let term := trim (toLowerCase (Manager.searchInput st)) in
  let st' := Manager.filterAndDisplayItems toLowerCase st in
  let cards := cards_of (Manager.contentArea st') in
  (forall item,
     In item (List.map Manager.card_item cards)
     <-> In item (Manager.allItems st)
         /\ shown toLowerCase term (Manager.categoryFilter st) item)
  /\ sublist (List.map Manager.card_item cards) (Manager.allItems st)
  /\ cards = List.map Manager.renderItem (List.map Manager.card_item cards)
  /\ (cards = [] ->
      Manager.contentArea st'
      = Manager.Html (lit "<p><i>No items match your search.</i></p>"))
  /\ Manager.allItems st' = Manager.allItems st.
Proof.
  intros term st' cards.
  set (kept := List.filter
                 (Manager.passes toLowerCase term (Manager.categoryFilter st))
                 (Manager.allItems st)).
  assert (Hcards : cards = List.map Manager.renderItem kept
                   /\ (kept = [] ->
                       Manager.contentArea st'
                       = Manager.Html
                           (lit "<p><i>No items match your search.</i></p>"))
                   /\ Manager.allItems st' = Manager.allItems st).
  { subst cards st'. unfold Manager.filterAndDisplayItems.
    fold term. fold kept.
    destruct kept; simpl; repeat apply conj; try reflexivity.
    intros Habs. discriminate Habs. }
  destruct Hcards as (Hc & Hempty & Hall).
  assert (Hitems : List.map Manager.card_item cards = kept).
  { rewrite Hc, List.map_map. apply map_id. }
  rewrite Hitems. repeat apply conj.
  - intros item. subst kept. rewrite filter_In, passes_shown. reflexivity.
  - subst kept. apply filter_sublist.
  - exact Hc.
  - intros Hnil. apply Hempty. rewrite Hc in Hnil.
    now destruct kept.
  - exact Hall.
Qed.

End PageMore.

(** ** More on the extraction of quantities *)

(** *** Patterns and their twins without groups *)

Lemma orelse_rest (a a' b b' : option result) :
  option_map snd a = option_map snd a' ->
  option_map snd b = option_map snd b' ->
  option_map snd (orelse a b) = option_map snd (orelse a' b').
Proof. destruct a, a'; simpl; intros Ha Hb; congruence. Qed.

Lemma star_rest p (k k' : cont) : forall s caps caps',
  (forall s' c c', option_map snd (k s' c) = option_map snd (k' s' c')) ->
  option_map snd (star p s caps k) = option_map snd (star p s caps' k').
Proof.
  induction s as [|c s IH]; intros caps caps' Hk; simpl; [apply Hk|].
  destruct (p c); [|apply Hk].
  apply orelse_rest; [now apply IH|apply Hk].
Qed.

Lemma m_strip r : forall s caps caps' (k k' : cont),
  (forall s' c c', option_map snd (k s' c) = option_map snd (k' s' c')) ->
  option_map snd (m r s caps k) = option_map snd (m (strip r) s caps' k').
Proof.
  induction r as [|p|p|p|p|r1 IH1|r1 IH1 r2 IH2|]; intros s caps caps' k k' Hk;
    simpl.
  - apply Hk.
  - destruct s as [|c s]; [reflexivity|]. destruct (p c); [apply Hk|reflexivity].
  - destruct s as [|c s]; [apply Hk|].
    destruct (p c); [|apply Hk]. apply orelse_rest; apply Hk.
  - now apply star_rest.
  - destruct s as [|c s]; [reflexivity|].
    destruct (p c); [|reflexivity]. now apply star_rest.
  - apply IH1. intros s' c c'. apply Hk.
  - apply IH1. intros s' c c'. now apply IH2.
  - destruct s; [apply Hk|reflexivity].
Qed.

Lemma search_strip r : forall s acc,
  option_map (fun x => (x.1.1, x.2)) (search r acc s)
  = option_map (fun x => (x.1.1, x.2)) (search (strip r) acc s).
Proof.
  assert (He : forall s, option_map snd (exec_at r s)
                         = option_map snd (exec_at (strip r) s)).
  { intros s. unfold exec_at. now apply m_strip. }
  induction s as [|c s IH]; intros acc; simpl.
  - specialize (He []).
    destruct (exec_at r []) as [[caps rest]|],
             (exec_at (strip r) []) as [[caps' rest']|];
      simpl in He; try discriminate; [|reflexivity].
    inversion He. reflexivity.
  - specialize (He (c :: s)).
    destruct (exec_at r (c :: s)) as [[caps rest]|],
             (exec_at (strip r) (c :: s)) as [[caps' rest']|];
      simpl in He; try discriminate; [|apply IH].
    inversion He. reflexivity.
Qed.

Lemma replace_strip r s :
  String_replace_empty (strip r) s = String_replace_empty r s
  /\ (String_match r s = None <-> String_match (strip r) s = None).
Proof.
  unfold String_replace_empty, String_match.
  assert (H := search_strip r s []).
  destruct (search r [] s) as [[[before caps] rest]|],
           (search (strip r) [] s) as [[[before' caps'] rest']|];
    simpl in H; try discriminate.
  - inversion H. split; [reflexivity|]. split; discriminate.
  - split; reflexivity.
Qed.

(** *** What a replacement removes *)

Lemma replace_removes r s caps :
  String_match r s = Some caps ->
  exists before used after,
    s = before ++ used ++ after
    /\ matches r (used ++ after) after caps
    /\ String_replace_empty r s = before ++ after.
Proof.
  unfold String_match, String_replace_empty. intros H.
  destruct (search r [] s) as [[[before caps'] rest]|] eqn:Hs;
    [|discriminate].
  inversion H; subst. apply search_sound in Hs as (s0 & Heq & Hm).
  destruct (matches_suffix _ _ _ _ Hm) as [used ->].
  exists before, used, rest. auto.
Qed.

Lemma demands_used q r used after caps :
  demands q r -> matches r (used ++ after) after caps -> used <> [].
Proof.
  intros Hd Hm. apply Hd in Hm as (a & c & b & Heq & _).
  intros ->. simpl in Heq.
  apply (f_equal (@length N)) in Heq.
  rewrite !length_app in Heq. simpl in Heq. rewrite length_app in Heq. lia.
Qed.

(** *** White space at the ends *)

Lemma trimStart_stops s : stops is_space (trimStart s).
Proof.
  induction s as [|c s IH]; simpl; [exact I|].
  destruct (is_space c) eqn:Hc; [exact IH|exact Hc].
Qed.

Lemma trimStart_suffix s : exists spaces, s = spaces ++ trimStart s.
Proof.
  induction s as [|c s IH]; simpl; [now exists []|].
  destruct (is_space c); [|now exists []].
  destruct IH as [spaces IH]. exists (c :: spaces). simpl. now rewrite <- IH.
Qed.

Lemma trim_trimmed s : trimmed (trim s).
Proof.
  unfold trimmed, trim, trimEnd. rewrite rev_involutive.
  split; [|apply trimStart_stops].
  destruct (trimStart_suffix (rev (trimStart s))) as [spaces Hs].
  apply (f_equal (@rev N)) in Hs. rewrite rev_involutive, rev_app_distr in Hs.
  pose proof (trimStart_stops s) as Hstop. rewrite Hs in Hstop.
  destruct (rev (trimStart (rev (trimStart s)))); [exact I|exact Hstop].
Qed.

(** *** The cascade of the manager view, read backwards *)

Lemma chain_first name category pattern text info :
  In (pattern, text) (cascade category) ->
  (forall caps, info caps = Manager.weight_div (text caps)) ->
  let st := Manager.try_pattern pattern info (Manager.mkParsed name []) in
  st = Manager.mkParsed name []
  \/ exists pattern text caps,
       In (pattern, text) (cascade category)
       /\ String_match pattern name = Some caps
       /\ st = Manager.mkParsed (trim (String_replace_empty pattern name))
                 (Manager.weight_div (text caps)).
Proof.
  intros Hin Hinfo. unfold Manager.try_pattern. cbn [Manager.itemName].
  destruct (String_match pattern name) as [caps|] eqn:Hm; [|now left].
  right. exists pattern, text, caps. now rewrite Hinfo.
Qed.

Lemma chain_next name category pattern text info st :
  In (pattern, text) (cascade category) ->
  (forall caps, info caps = Manager.weight_div (text caps)) ->
  (st = Manager.mkParsed name []
   \/ exists pattern text caps,
        In (pattern, text) (cascade category)
        /\ String_match pattern name = Some caps
        /\ st = Manager.mkParsed (trim (String_replace_empty pattern name))
                  (Manager.weight_div (text caps))) ->
  let st' := Manager.unless_weight (Manager.try_pattern pattern info) st in
  st' = Manager.mkParsed name []
  \/ exists pattern text caps,
       In (pattern, text) (cascade category)
       /\ String_match pattern name = Some caps
       /\ st' = Manager.mkParsed (trim (String_replace_empty pattern name))
                  (Manager.weight_div (text caps)).
Proof.
  intros Hin Hinfo [->|(p & t & caps & Hp & Hm & ->)];
    unfold Manager.unless_weight; cbn [Manager.weightInfo truthy negb].
  - now apply (chain_first name category pattern text info).
  - rewrite weight_div_truthy. cbn [negb]. right. exists p, t, caps. auto.
Qed.

Lemma parseWeight_inv (item : Item.t) :
  let name := or_default (Item.ITEM item) (lit "Unnamed Item") in
  let category := or_default (Item.CATEGORY item) [] in
  Manager.parseWeight item = Manager.mkParsed name []
  \/ exists pattern text caps,
       In (pattern, text) (cascade category)
       /\ String_match pattern name = Some caps
       /\ Manager.parseWeight item
          = Manager.mkParsed (trim (String_replace_empty pattern name))
              (Manager.weight_div (text caps)).
Proof.
  intros name category. unfold Manager.parseWeight.
  fold name. fold category.
  assert (H1 := chain_first name category Manager.pattern1
                  (fun caps => group caps 1 ++ lit " fl oz")
                  (fun caps =>
                     Manager.weight_div (group caps 1 ++ lit " fl oz"))
                  (or_introl eq_refl) (fun _ => eq_refl)).
  cbv zeta in H1.
  set (st1 := Manager.try_pattern Manager.pattern1 _ _) in *.
  assert (H2 := chain_next name category Manager.pattern2
                  (fun caps => group caps 1 ++ lit " fl oz")
                  (fun caps =>
                     Manager.weight_div (group caps 1 ++ lit " fl oz"))
                  st1 (or_intror (or_introl eq_refl)) (fun _ => eq_refl) H1).
  cbv zeta in H2.
  set (st2 := Manager.unless_weight _ st1) in *.
  assert (H3 := chain_next name category Manager.pattern3
                  (fun caps => group caps 1 ++ lit " fl oz")
                  (fun caps =>
                     Manager.weight_div (group caps 1 ++ lit " fl oz"))
                  st2 (or_intror (or_intror (or_introl eq_refl)))
                  (fun _ => eq_refl) H2).
  cbv zeta in H3.
  set (st3 := Manager.unless_weight _ st2) in *.
  assert (H4 := chain_next name category Manager.pattern4
                  (fun caps => if Manager.beverage_like category
                               then group caps 1 ++ lit " oz"
                               else group caps 2 ++ lit " g")
                  (fun caps =>
                     if Manager.beverage_like category
                     then Manager.weight_div (group caps 1 ++ lit " oz")
                     else Manager.weight_div (group caps 2 ++ lit " g"))
                  st3
                  (or_intror (or_intror (or_intror (or_introl eq_refl))))).
  cbv zeta in H4.
  specialize (H4 (fun caps =>
                    match Manager.beverage_like category as b
                      return ((if b
                               then Manager.weight_div
                                      (group caps 1 ++ lit " oz")
                               else Manager.weight_div
                                      (group caps 2 ++ lit " g"))
                              = Manager.weight_div
                                  (if b then group caps 1 ++ lit " oz"
                                   else group caps 2 ++ lit " g"))
                    with true => eq_refl | false => eq_refl end) H3).
  set (st4 := Manager.unless_weight _ st3) in *.
  assert (H5 := chain_next name category Manager.pattern5
                  (fun caps => group caps 1 ++ lit " g")
                  (fun caps => Manager.weight_div (group caps 1 ++ lit " g"))
                  st4
                  (or_intror (or_intror (or_intror (or_intror
                     (or_introl eq_refl)))))
                  (fun _ => eq_refl) H4).
  cbv zeta in H5.
  set (st5 := Manager.unless_weight _ st4) in *.
  destruct (Manager.beverage_like category) eqn:Hbev.
  - rewrite andb_false_r. exact H5.
  - rewrite andb_true_r.
    assert (H6 := chain_next name category Manager.pattern6
                    (fun caps => group caps 1 ++ lit " g")
                    (fun caps =>
                       Manager.weight_div (group caps 1 ++ lit " g"))
                    st5).
    exact (H6 (or_intror (or_intror (or_intror (or_intror (or_intror
                 (or_introl eq_refl))))))
              (fun _ => eq_refl) H5).
Qed.

Lemma grp_numeral_capture s s' cs :
  matches
    (Grp (Cat (Plus is_digit) (Cat (Opt is_dot) (Cat (Star is_digit) Eps))))
    s s' cs ->
  exists whole frac dot,
    cs = [numeral whole frac dot]
    /\ digits1 whole /\ forallb is_digit frac = true.
Proof.
  simpl.
  intros (cs1 & (s1 & c1 & c2 & [(c & run & Hs & Hrun) Hc1]
                 & (s2 & c3 & c4 & [Hopt Hc3]
                    & (s3 & c5 & c6 & [(run2 & Hs2 & Hrun2) Hc5]
                       & [Hs3 Hc6] & Hc4) & Hc2) & Hcs1) & Hcs).
  subst s' c1 c3 c5 c6 c4 c2 cs1 cs s. cbn [app].
  destruct Hopt as [(d & Hs1 & Hd)|Hs1].
  - subst s1 s2. exists (c :: run), run2, true.
    split; [|split; [split; [discriminate|exact Hrun]|exact Hrun2]].
    apply N.eqb_eq in Hd. subst d. f_equal. unfold numeral.
    change (c :: run ++ 46 :: run2 ++ s3)
      with ((c :: run) ++ (46 :: run2) ++ s3).
    rewrite app_assoc. now rewrite take_consumed.
  - subst s1 s2. exists ((c :: run) ++ run2), [], false.
    split; [|split; [split; [discriminate|]|reflexivity]].
    + f_equal. unfold numeral. rewrite app_nil_r.
      change (c :: run ++ run2 ++ s3) with ((c :: run) ++ run2 ++ s3).
      rewrite app_assoc. now rewrite take_consumed.
    + rewrite forallb_app. simpl. simpl in Hrun. now rewrite Hrun, Hrun2.
Qed.

(** As [peel], also naming the numeral captured by [( \d+ \.? \d* )]. *)
Ltac peel_numerals H :=
  repeat
    (let s1 := fresh "s" in
     let cs1 := fresh "cs" in
     let cs2 := fresh "cs" in
     let H1 := fresh "Hm" in
     apply matches_cat in H as (s1 & cs1 & cs2 & H1 & H & ->);
     first
       [ let whole := fresh "whole" in
         let frac := fresh "frac" in
         let dot := fresh "dot" in
         let Hw := fresh "Hw" in
         let Hf := fresh "Hf" in
         apply grp_numeral_capture in H1 as (whole & frac & dot & -> & Hw & Hf)
       | let run := fresh "run" in
         let Ht := fresh "Ht" in
         let Hp := fresh "Hp" in
         apply grp_plus_capture in H1 as (run & -> & Ht & Hp)
       | apply matches_no_group in H1 as ->; [|reflexivity] ]).

Lemma digits_numeral run :
  truthy run = true -> forallb is_digit run = true ->
  run = numeral run [] false /\ digits1 run.
Proof.
  intros Ht Hd. unfold numeral. rewrite app_nil_r. split; [reflexivity|].
  split; [|exact Hd]. now destruct run.
Qed.

(** Whatever the item, the quantity the manager view displays is either
    nothing or a [weight-info] block whose text is a decimal numeral
    (digits, possibly a dot and further digits) followed by [" fl oz"],
    [" oz"] or [" g"]; ounces are displayed for the beverage-like
    categories only. *)
Theorem manager_quantity_shape (item : Item.t) :
  Manager.weightInfo (Manager.parseWeight item) = []
  \/ exists whole frac dot unit_,
       digits1 whole /\ forallb is_digit frac = true
       /\ In unit_ [lit " fl oz"; lit " oz"; lit " g"]
       /\ (unit_ = lit " oz" ->
           Manager.beverage_like (or_default (Item.CATEGORY item) []) = true)
       /\ Manager.weightInfo (Manager.parseWeight item)
          = Manager.weight_div (numeral whole frac dot ++ unit_).
Proof.
  destruct (parseWeight_inv item) as [->|(pattern & text & caps & Hin & Hm & ->)];
    [now left|].
  right. cbn [Manager.weightInfo].
  apply String_match_sound in Hm as (before & s0 & rest & _ & Hm).
  unfold cascade in Hin. simpl in Hin.
  destruct Hin as [Hp|[Hp|[Hp|[Hp|[Hp|[Hp|[]]]]]]]; inversion Hp; subst;
    clear Hp.
  - unfold Manager.pattern1 in Hm. cbn [seq fold_right] in Hm.
    peel_numerals Hm. exists whole, frac, dot, (lit " fl oz").
    split; [exact Hw|]. split; [exact Hf|]. split; [simpl; auto|].
    split; [discriminate|reflexivity].
  - unfold Manager.pattern2 in Hm. cbn [seq fold_right] in Hm.
    peel_numerals Hm. exists whole, frac, dot, (lit " fl oz").
    split; [exact Hw|]. split; [exact Hf|]. split; [simpl; auto|].
    split; [discriminate|reflexivity].
  - unfold Manager.pattern3 in Hm. cbn [seq fold_right] in Hm.
    peel_numerals Hm. exists whole, frac, dot, (lit " fl oz").
    split; [exact Hw|]. split; [exact Hf|]. split; [simpl; auto|].
    split; [discriminate|reflexivity].
  - unfold Manager.pattern4 in Hm. cbn [seq fold_right] in Hm.
    peel_numerals Hm.
    destruct (Manager.beverage_like _) eqn:Hbev.
    + exists whole, frac, dot, (lit " oz").
      split; [exact Hw|]. split; [exact Hf|]. split; [simpl; auto|].
      split; [reflexivity|reflexivity].
    + destruct (digits_numeral run Ht Hp) as [Hrun Hd].
      exists run, [], false, (lit " g").
      split; [exact Hd|]. split; [reflexivity|]. split; [simpl; auto|].
      split; [discriminate|]. simpl. now rewrite <- Hrun.
  - unfold Manager.pattern5 in Hm. cbn [seq fold_right] in Hm.
    peel_numerals Hm. exists whole, frac, dot, (lit " g").
    split; [exact Hw|]. split; [exact Hf|]. split; [simpl; auto|].
    split; [discriminate|reflexivity].
  - unfold Manager.pattern6 in Hm. cbn [seq fold_right] in Hm.
    peel_numerals Hm. exists whole, frac, dot, (lit " g").
    split; [exact Hw|]. split; [exact Hf|]. split; [simpl; auto|].
    split; [discriminate|reflexivity].
Qed.

Lemma cascade_demands category pattern text :
  In (pattern, text) (cascade category) -> demands digit_or_dot pattern.
Proof.
  destruct manager_patterns_demand as (D1 & D2 & D3 & D4 & D5 & D6).
  unfold cascade. simpl.
  intros [Hp|[Hp|[Hp|[Hp|[Hp|[Hp|[]]]]]]]; inversion Hp; subst; assumption.
Qed.

(** The name a card displays is the name of the item (or "Unnamed Item"
    for an empty one) as it is when no quantity is found; when one is
    found, it is that name with one non-empty stretch taken out and the
    white space at both ends trimmed.  Nothing is ever added or
    reordered. *)
Theorem manager_name_shrinks (item : Item.t) :
  let name := or_default (Item.ITEM item) (lit "Unnamed Item") in
  let st := Manager.parseWeight item in
  (Manager.weightInfo st = [] /\ Manager.itemName st = name)
  \/ (Manager.weightInfo st <> []
      /\ trimmed (Manager.itemName st)
      /\ exists before used after,
           name = before ++ used ++ after /\ used <> []
           /\ Manager.itemName st = trim (before ++ after)).
Proof.
  intros name st. subst st.
  destruct (parseWeight_inv item) as [->|(pattern & text & caps & Hin & Hm & ->)];
    [now left|].
  right. cbn [Manager.weightInfo Manager.itemName].
  split; [intros H; pose proof (weight_div_truthy (text caps)) as Ht;
          rewrite H in Ht; discriminate Ht|].
  split; [apply trim_trimmed|].
  apply replace_removes in Hm as (before & used & after & Heq & Hmatch & Hr).
  exists before, used, after. split; [exact Heq|].
  split; [|now rewrite <- Hr].
  apply (demands_used _ _ _ _ _ (cascade_demands _ _ _ Hin) Hmatch).
Qed.

(** *** Fluid ounces *)

Lemma pattern1_takes whole frac dot M post :
  digits1 whole -> forallb is_digit frac = true -> digits1 M ->
  takes Manager.pattern1
    (numeral whole frac dot ++ lit " fl oz cup (" ++ M ++ lit " g)") post
    [numeral whole frac dot].
Proof.
  intros Hw Hf [HM1 HM2].
  change (takes
            (Cat (Grp (seq [Plus is_digit; Opt is_dot; Star is_digit]))
            (Cat (Star is_space)
            (Cat (chi "f") (Cat (chi "l")
            (Cat (Star is_space)
            (Cat (chi "o") (Cat (chi "z")
            (Cat (Star is_space)
            (Cat (chi "c") (Cat (chi "u") (Cat (chi "p")
            (Cat (Star is_space)
            (Cat (Cls is_lparen)
            (Cat (Plus is_digit)
            (Cat (Star is_space)
            (Cat (chi "g") (Cat (Cls is_rparen) Eps)))))))))))))))))
            (numeral whole frac dot ++ ([32] ++ ([102] ++ ([108] ++ ([32]
               ++ ([111] ++ ([122] ++ ([32] ++ ([99] ++ ([117] ++ ([112]
               ++ ([32] ++ ([40] ++ (M ++ ([32] ++ ([103] ++ ([41]
               ++ [])))))))))))))))))
            post
            (([] ++ [numeral whole frac dot]) ++ ([] ++ ([] ++ ([] ++ ([]
               ++ ([] ++ ([] ++ ([] ++ ([] ++ ([] ++ ([] ++ ([] ++ ([]
               ++ ([] ++ ([] ++ ([] ++ ([] ++ [])))))))))))))))))).
  apply takes_cat.
  { apply takes_grp. apply takes_numeral; auto; reflexivity. }
  apply takes_cat; [apply takes_star; reflexivity|].
  apply takes_cat; [apply takes_cls; reflexivity|].
  apply takes_cat; [apply takes_cls; reflexivity|].
  apply takes_cat; [apply takes_star; reflexivity|].
  apply takes_cat; [apply takes_cls; reflexivity|].
  apply takes_cat; [apply takes_cls; reflexivity|].
  apply takes_cat; [apply takes_star; reflexivity|].
  apply takes_cat; [apply takes_cls; reflexivity|].
  apply takes_cat; [apply takes_cls; reflexivity|].
  apply takes_cat; [apply takes_cls; reflexivity|].
  apply takes_cat; [apply takes_star; reflexivity|].
  apply takes_cat; [apply takes_cls; reflexivity|].
  apply takes_cat; [apply takes_plus; auto; reflexivity|].
  apply takes_cat; [apply takes_star; reflexivity|].
  apply takes_cat; [apply takes_cls; reflexivity|].
  apply takes_cat; [apply takes_cls; reflexivity|].
  apply takes_eps.
Qed.

Lemma pattern3_takes whole frac dot post :
  digits1 whole -> forallb is_digit frac = true ->
  takes Manager.pattern3 (numeral whole frac dot ++ lit " fl oz") post
    [numeral whole frac dot].
Proof.
  intros Hw Hf.
  change (takes
            (Cat (Grp (seq [Plus is_digit; Opt is_dot; Star is_digit]))
            (Cat (Star is_space)
            (Cat (chi "f") (Cat (chi "l")
            (Cat (Star is_space)
            (Cat (chi "o") (Cat (chi "z") Eps)))))))
            (numeral whole frac dot ++ ([32] ++ ([102] ++ ([108] ++ ([32]
               ++ ([111] ++ ([122] ++ [])))))))
            post
            (([] ++ [numeral whole frac dot]) ++ ([] ++ ([] ++ ([] ++ ([]
               ++ ([] ++ ([] ++ [])))))))).
  apply takes_cat.
  { apply takes_grp. apply takes_numeral; auto; reflexivity. }
  apply takes_cat; [apply takes_star; reflexivity|].
  apply takes_cat; [apply takes_cls; reflexivity|].
  apply takes_cat; [apply takes_cls; reflexivity|].
  apply takes_cat; [apply takes_star; reflexivity|].
  apply takes_cat; [apply takes_cls; reflexivity|].
  apply takes_cat; [apply takes_cls; reflexivity|].
  apply takes_eps.
Qed.

Lemma pattern1_starts_with_digit c x :
  negb (is_digit c) = true -> exec_at Manager.pattern1 (c :: x) = None.
Proof.
  intros Hc. apply negb_true_iff in Hc.
  unfold exec_at, Manager.pattern1. cbn [seq fold_right m].
  now rewrite Hc.
Qed.

Lemma pattern3_starts_with_digit c x :
  negb (is_digit c) = true -> exec_at Manager.pattern3 (c :: x) = None.
Proof.
  intros Hc. apply negb_true_iff in Hc.
  unfold exec_at, Manager.pattern3. cbn [seq fold_right m].
  now rewrite Hc.
Qed.

(** When a pattern takes [used] right after a stretch [pre] on which it
    cannot start, the search finds it there. *)
Lemma search_takes r (fails : N -> bool) pre used post cs :
  (forall c x, fails c = true -> exec_at r (c :: x) = None) ->
  forallb fails pre = true ->
  takes r used post cs ->
  String_match r (pre ++ used ++ post) = Some cs
  /\ String_replace_empty r (pre ++ used ++ post) = pre ++ post.
Proof.
  intros Hfail Hpre Ht. unfold String_match, String_replace_empty.
  rewrite (search_skip _ _ pre [] _ Hfail Hpre).
  rewrite (search_here _ _ _ _ _ (takes_exec_at _ _ _ _ Ht)).
  now rewrite app_nil_r, rev_involutive.
Qed.

Lemma named_truthy (pre whole rest : jsstring) :
  digits1 whole ->
  or_default (pre ++ whole ++ rest) (lit "Unnamed Item")
  = pre ++ whole ++ rest.
Proof.
  intros [Hw _]. unfold or_default.
  rewrite truthy_app_r; [reflexivity|].
  destruct whole; [contradiction|discriminate].
Qed.

(** A name [<pre><N> fl oz cup (<M> g)<post>] in which no digit precedes
    the numeral [N] is displayed, in every category, with the quantity
    ["<N> fl oz"] and the rest of the name, trimmed; the grams are
    dropped. *)
Theorem manager_fl_oz_cup (pre whole frac M post category : jsstring)
    (dot : bool) :
  let N := numeral whole frac dot in
  let name := pre ++ N ++ lit " fl oz cup (" ++ M ++ lit " g)" ++ post in
  forallb (fun c => negb (is_digit c)) pre = true ->
  digits1 whole -> forallb is_digit frac = true -> digits1 M ->
  Manager.parseWeight (Item.named name category)
  = Manager.mkParsed (trim (pre ++ post))
      (Manager.weight_div (N ++ lit " fl oz")).
Proof.
  intros N name Hpre Hw Hf HM.
  assert (Hname : or_default name (lit "Unnamed Item") = name).
  { unfold name, N, numeral. rewrite <- !app_assoc.
    now apply named_truthy. }
  destruct (search_takes _ _ pre _ post _ pattern1_starts_with_digit Hpre
              (pattern1_takes whole frac dot M post Hw Hf HM))
    as [Hm Hr].
  fold N in Hm, Hr. rewrite <- !app_assoc in Hm, Hr.
  fold name in Hm, Hr.
  unfold Manager.parseWeight, Manager.try_pattern, Manager.unless_weight.
  cbn [Item.ITEM Item.CATEGORY Item.named Manager.itemName Manager.weightInfo].
  rewrite Hname, Hm, Hr. cbn [Manager.itemName Manager.weightInfo].
  rewrite !weight_div_truthy. cbn [negb andb]. reflexivity.
Qed.

Lemma manager_fl_oz_cup_witness :
  Manager.parseWeight
    (Item.named (lit "Cola 12 fl oz cup (310 g) chilled") (lit "SNACK"))
  = Manager.mkParsed (lit "Cola  chilled")
      (Manager.weight_div (lit "12 fl oz")).
Proof.
  refine (manager_fl_oz_cup (lit "Cola ") (lit "12") [] (lit "310")
            (lit " chilled") (lit "SNACK") false _ _ _ _);
    first [ split; [discriminate | reflexivity] | reflexivity ].
Defined.

(** A name [<pre><N> fl oz<post>] in which no digit precedes the numeral
    [N], and on which the two fl-oz-cup patterns do not match, is
    displayed in every category with the quantity ["<N> fl oz"] and the
    rest of the name, trimmed. *)
Theorem manager_fl_oz (pre whole frac post category : jsstring)
    (dot : bool) :
  let N := numeral whole frac dot in
  let name := pre ++ N ++ lit " fl oz" ++ post in
  forallb (fun c => negb (is_digit c)) pre = true ->
  digits1 whole -> forallb is_digit frac = true ->
  String_match Manager.pattern1 name = None ->
  String_match Manager.pattern2 name = None ->
  Manager.parseWeight (Item.named name category)
  = Manager.mkParsed (trim (pre ++ post))
      (Manager.weight_div (N ++ lit " fl oz")).
Proof.
  intros N name Hpre Hw Hf H1 H2.
  assert (Hname : or_default name (lit "Unnamed Item") = name).
  { unfold name, N, numeral. rewrite <- !app_assoc.
    now apply named_truthy. }
  destruct (search_takes _ _ pre _ post _ pattern3_starts_with_digit Hpre
              (pattern3_takes whole frac dot post Hw Hf))
    as [Hm Hr].
  fold N in Hm, Hr. rewrite <- !app_assoc in Hm, Hr.
  fold name in Hm, Hr.
  unfold Manager.parseWeight, Manager.try_pattern, Manager.unless_weight.
  cbn [Item.ITEM Item.CATEGORY Item.named Manager.itemName Manager.weightInfo].
  rewrite Hname, H1. cbn [Manager.itemName Manager.weightInfo truthy negb].
  rewrite H2. cbn [Manager.itemName Manager.weightInfo truthy negb].
  rewrite Hm, Hr. cbn [Manager.itemName Manager.weightInfo].
  rewrite !weight_div_truthy. cbn [negb andb]. reflexivity.
Qed.

Lemma manager_fl_oz_witness :
  Manager.parseWeight
    (Item.named (lit "Iced Tea 16.5 fl oz large") (lit "DESSERT"))
  = Manager.mkParsed (lit "Iced Tea  large")
      (Manager.weight_div (lit "16.5 fl oz")).
Proof.
  refine (manager_fl_oz (lit "Iced Tea ") (lit "16") (lit "5")
            (lit " large") (lit "DESSERT") true _ _ _ _ _);
    first [ split; [discriminate | reflexivity]
          | vm_compute; reflexivity ].
Defined.

(** *** The labels of the public view *)

Lemma anchored_eos : anchored (Cat Eos Eps).
Proof.
  intros s s' cs (s1 & cs1 & cs2 & (_ & Hs1 & _) & (Hs' & _) & _).
  congruence.
Qed.

Lemma anchored_cat r1 r2 : anchored r2 -> anchored (Cat r1 r2).
Proof.
  intros Hr s s' cs (s1 & cs1 & cs2 & _ & H2 & _). exact (Hr _ _ _ H2).
Qed.

Ltac anchored_seq :=
  cbn [seq fold_right];
  repeat first [ exact anchored_eos | apply anchored_cat ].

Lemma public_patterns_anchored :
  anchored Public.match1 /\ anchored Public.match2
  /\ anchored Public.match3 /\ anchored Public.match4
  /\ anchored Public.match5.
Proof.
  unfold Public.match1, Public.match2, Public.match3, Public.match4,
    Public.match5.
  repeat apply conj; anchored_seq.
Qed.

(** The expression of each [replace] is the one of the [match] before it
    without the groups. *)
Lemma public_twins :
  strip Public.match1 = Public.replace1
  /\ strip Public.match2 = Public.replace2
  /\ strip Public.match3 = Public.replace3
  /\ strip Public.match4 = Public.replace4
  /\ strip Public.match5 = Public.replace5.
Proof. repeat apply conj; reflexivity. Qed.

(** What the twin removes when the pattern matches: a non-empty end of
    the text. *)
Lemma twin_removes mt rp s caps :
  strip mt = rp -> anchored mt -> demands digit_or_dot mt ->
  String_match mt s = Some caps ->
  exists removed,
    s = String_replace_empty rp s ++ removed /\ removed <> [].
Proof.
  intros <- Ha Hd Hm.
  rewrite (proj1 (replace_strip mt s)).
  apply replace_removes in Hm as (before & used & after & Heq & Hmatch & Hr).
  assert (after = []) as -> by exact (Ha _ _ _ Hmatch).
  rewrite app_nil_r in *. exists used. rewrite Hr.
  split; [exact Heq|].
  apply (demands_used _ _ _ [] caps Hd). now rewrite app_nil_r.
Qed.

Lemma grp_plus_run p s s' cs :
  matches (Grp (Plus p)) s s' cs ->
  exists run, cs = [run] /\ forallb p run = true.
Proof.
  intros H. apply grp_plus_capture in H as (run & -> & _ & Hp). eauto.
Qed.

(** As [peel], keeping the class of every capture. *)
Ltac peel_runs H :=
  repeat
    (let s1 := fresh "s" in
     let cs1 := fresh "cs" in
     let cs2 := fresh "cs" in
     let H1 := fresh "Hm" in
     apply matches_cat in H as (s1 & cs1 & cs2 & H1 & H & ->);
     first
       [ let run := fresh "run" in
         let Hp := fresh "Hp" in
         apply grp_plus_run in H1 as (run & -> & Hp)
       | apply matches_no_group in H1 as ->; [|reflexivity] ]).

Lemma match1_runs s caps :
  String_match Public.match1 s = Some caps ->
  forallb digit_or_dot (group caps 1) = true
  /\ forallb is_digit (group caps 2) = true.
Proof.
  intros H. apply String_match_sound in H as (before & s0 & rest & -> & H).
  unfold Public.match1 in H. cbn [seq fold_right] in H. peel_runs H.
  unfold Public.match1 in H. cbn [seq fold_right] in H. peel_runs H.
  destruct H as [_ ->]. auto.
Qed.

Lemma match2_runs s caps :
  String_match Public.match2 s = Some caps ->
  forallb is_digit (group caps 1) = true.
Proof.
  intros H. apply String_match_sound in H as (before & s0 & rest & -> & H).
  unfold Public.match2 in H. cbn [seq fold_right] in H. peel_runs H.
  destruct H as [_ ->]. auto.
Qed.

Lemma match3_runs s caps :
  String_match Public.match3 s = Some caps ->
  forallb is_digit (group caps 1) = true.
Proof.
  intros H. apply String_match_sound in H as (before & s0 & rest & -> & H).
  unfold Public.match3 in H. cbn [seq fold_right] in H. peel_runs H.
  destruct H as [_ ->]. auto.
Qed.

Lemma match4_runs s caps :
  String_match Public.match4 s = Some caps ->
  forallb digit_or_dot (group caps 1) = true.
Proof.
  intros H. apply String_match_sound in H as (before & s0 & rest & -> & H).
  unfold Public.match4 in H. cbn [seq fold_right] in H. peel_runs H.
  destruct H as [_ ->]. auto.
Qed.

Lemma match5_runs s caps :
  String_match Public.match5 s = Some caps ->
  forallb digit_or_dot (group caps 1) = true.
Proof.
  intros H. apply String_match_sound in H as (before & s0 & rest & -> & H).
  unfold Public.match5 in H. cbn [seq fold_right] in H. peel_runs H.
  destruct H as [_ ->]. auto.
Qed.

Lemma truthy_nonempty (s : jsstring) : truthy s = true -> s <> [].
Proof. intros H ->. discriminate H. Qed.

(** Whatever the text of an item, the label of the public view is cut
    from its end: the item text is the cleaned name followed by what was
    removed, and something was removed exactly when grams or ounces were
    found.  The grams are digits, the ounces digits and dots, and both
    are found only by the first pattern. *)
Theorem public_label_shape (itemText : jsstring) :
  let l := Public.extractLabel itemText in
  (exists removed,
     itemText = Public.cleanedName l ++ removed
     /\ (removed = [] <-> Public.grams l = [] /\ Public.ounces l = []))
  /\ forallb is_digit (Public.grams l) = true
  /\ forallb digit_or_dot (Public.ounces l) = true
  /\ (Public.grams l <> [] -> Public.ounces l <> [] ->
      String_match Public.match1 itemText <> None).
Proof.
  destruct public_patterns_demand as (D1 & D2 & D3 & D4 & D5).
  destruct public_patterns_anchored as (A1 & A2 & A3 & A4 & A5).
  destruct public_twins as (T1 & T2 & T3 & T4 & T5).
  cbv zeta. unfold Public.extractLabel.
  destruct (String_match Public.match1 itemText) as [c1|] eqn:H1.
  { destruct (twin_removes _ _ _ _ T1 A1 D1 H1) as (removed & Heq & Hne).
    destruct (match1_runs _ _ H1) as [Ho Hg].
    apply match1_captures in H1 as [_ Ht]. apply truthy_nonempty in Ht.
    cbn [Public.cleanedName Public.grams Public.ounces].
    split; [exists removed; split; [exact Heq|]|].
    - split; [contradiction|]. intros [Habs _]. contradiction.
    - repeat apply conj; auto; try discriminate; intros; congruence. }
  destruct (String_match Public.match2 itemText) as [c2|] eqn:H2.
  { destruct (twin_removes _ _ _ _ T2 A2 D2 H2) as (removed & Heq & Hne).
    assert (Hg := match2_runs _ _ H2).
    apply match2_captures in H2. cbn [Public.grams]. rewrite H2.
    apply truthy_nonempty in H2.
    cbn [negb Public.cleanedName Public.grams Public.ounces].
    split; [exists removed; split; [exact Heq|]|].
    - split; [contradiction|]. intros [Habs _]. contradiction.
    - repeat apply conj; auto; try discriminate; intros; congruence. }
  destruct (String_match Public.match3 itemText) as [c3|] eqn:H3.
  { destruct (twin_removes _ _ _ _ T3 A3 D3 H3) as (removed & Heq & Hne).
    assert (Hg := match3_runs _ _ H3).
    apply match3_captures in H3. cbn [Public.grams]. rewrite H3.
    apply truthy_nonempty in H3.
    cbn [negb Public.cleanedName Public.grams Public.ounces].
    split; [exists removed; split; [exact Heq|]|].
    - split; [contradiction|]. intros [Habs _]. contradiction.
    - repeat apply conj; auto; try discriminate; intros; congruence. }
  cbn [Public.grams truthy negb].
  destruct (String_match Public.match4 itemText) as [c4|] eqn:H4.
  { destruct (twin_removes _ _ _ _ T4 A4 D4 H4) as (removed & Heq & Hne).
    assert (Ho := match4_runs _ _ H4).
    apply match4_captures in H4. apply truthy_nonempty in H4.
    cbn [Public.cleanedName Public.grams Public.ounces].
    split; [exists removed; split; [exact Heq|]|].
    - split; [contradiction|]. intros [_ Habs]. contradiction.
    - repeat apply conj; auto; try discriminate; intros; congruence. }
  destruct (String_match Public.match5 itemText) as [c5|] eqn:H5.
  { destruct (twin_removes _ _ _ _ T5 A5 D5 H5) as (removed & Heq & Hne).
    assert (Ho := match5_runs _ _ H5).
    apply match5_captures in H5. apply truthy_nonempty in H5.
    cbn [Public.cleanedName Public.grams Public.ounces].
    split; [exists removed; split; [exact Heq|]|].
    - split; [contradiction|]. intros [_ Habs]. contradiction.
    - repeat apply conj; auto; try discriminate; intros; congruence. }
  cbn [Public.cleanedName Public.grams Public.ounces].
  split; [exists []; split; [now rewrite app_nil_r|]|].
  - split; auto.
  - repeat apply conj; auto; try discriminate; intros; congruence.
Qed.

(** *** Ounces with grams in the public view *)

Lemma space_not_numeral c : is_space c = true -> digit_or_dot c = false.
Proof.
  intros H. destruct (digit_or_dot c) eqn:E; [|reflexivity]. exfalso.
  unfold is_space in H. unfold digit_or_dot, is_digit in E.
  rewrite ?orb_true_iff, ?andb_true_iff, ?N.leb_le, ?N.eqb_eq in H.
  rewrite ?orb_true_iff, ?andb_true_iff, ?N.leb_le, ?N.eqb_eq in E.
  lia.
Qed.

Lemma numeral_not_space c : digit_or_dot c = true -> is_space c = false.
Proof.
  intros H. destruct (is_space c) eqn:E; [|reflexivity].
  apply space_not_numeral in E. congruence.
Qed.

(** A greedy run fails when the rest of the pattern fails after each of
    its ends. *)
Lemma star_none p (k : cont) caps tail : forall run,
  forallb p run = true -> stops p tail ->
  (forall run', forallb p run' = true -> k (run' ++ tail) caps = None) ->
  star p (run ++ tail) caps k = None.
Proof.
  intros run Hrun Hs Hk. induction run as [|c run IH].
  - simpl. specialize (Hk [] eq_refl). simpl in Hk.
    destruct tail as [|d x]; [exact Hk|]. simpl in Hs. simpl.
    now rewrite Hs.
  - simpl in Hrun. apply andb_true_iff in Hrun as [Hc Hrun].
    simpl. rewrite Hc, (IH Hrun). simpl.
    apply (Hk (c :: run)). simpl. now rewrite Hc.
Qed.

(** [\s* ( q+ ) ...] cannot start on white space that is followed by a
    code unit outside [q] and [\s]. *)
Lemma star_plus_blocked q r2 run d x caps k :
  (forall c, is_space c = true -> q c = false) ->
  forallb is_space run = true -> is_space d = false -> q d = false ->
  m (Cat (Star is_space) (Cat (Grp (Plus q)) r2)) (run ++ d :: x) caps k
  = None.
Proof.
  intros Hpq Hrun Hd Hq. cbn [m].
  apply star_none; [exact Hrun|exact Hd|].
  intros [|c run'] Hrun'; simpl.
  - now rewrite Hq.
  - apply andb_true_iff in Hrun' as [Hc _]. now rewrite (Hpq c Hc).
Qed.

Lemma search_skip_blocked r pre : forall acc s,
  (forall a c b, pre = a ++ c :: b -> exec_at r (c :: b ++ s) = None) ->
  search r acc (pre ++ s) = search r (rev pre ++ acc) s.
Proof.
  induction pre as [|c pre IH]; intros acc s Hfail; [reflexivity|].
  simpl. rewrite (Hfail [] c pre eq_refl).
  rewrite IH; [now rewrite <- app_assoc|].
  intros a c' b ->. now apply (Hfail (c :: a) c' b).
Qed.

(** Text without digits and dots that does not end with white space:
    each of its ends is a run of white space and then another code
    unit. *)
Lemma end_blocked : forall t,
  t <> [] -> no_numeral t -> stops is_space (rev t) ->
  exists run d x,
    t = run ++ d :: x /\ forallb is_space run = true
    /\ is_space d = false /\ digit_or_dot d = false.
Proof.
  unfold no_numeral.
  induction t as [|c t IH]; intros Hne Hn Hs; [contradiction|].
  simpl in Hn. apply andb_true_iff in Hn as [Hc Hn].
  apply negb_true_iff in Hc.
  destruct (is_space c) eqn:Hsp.
  - destruct t as [|c' t].
    { simpl in Hs. congruence. }
    destruct IH as (run & d & x & Heq & Hrun & Hd & Hq);
      [discriminate|exact Hn| |].
    { change (rev (c :: c' :: t)) with (rev (c' :: t) ++ [c]) in Hs.
      destruct (rev (c' :: t)) as [|e l] eqn:He; [|exact Hs].
      apply (f_equal (@length N)) in He. rewrite length_rev in He.
      discriminate He. }
    exists (c :: run), d, x. rewrite Heq. simpl. rewrite Hsp. auto.
  - exists [], c, t. auto.
Qed.

Lemma takes_eos : takes Eos [] [] [].
Proof. intros caps k res Hk. simpl. now rewrite app_nil_r in Hk. Qed.

Lemma match1_takes gap N M :
  forallb is_space gap = true ->
  N <> [] -> forallb digit_or_dot N = true -> digits1 M ->
  takes Public.match1 (gap ++ N ++ lit " oz (" ++ M ++ lit " g)") []
    [N; M].
Proof.
  intros Hgap HN1 HN2 [HM1 HM2].
  assert (HN : stops is_space (N ++ lit " oz (" ++ M ++ lit " g)")).
  { destruct N as [|c N]; [contradiction|]. simpl in HN2.
    apply andb_true_iff in HN2 as [Hc _].
    exact (numeral_not_space c Hc). }
  change (takes
            (Cat (Star is_space)
            (Cat (Grp (Plus digit_or_dot))
            (Cat (Star is_space)
            (Cat (ch "o") (Cat (ch "z")
            (Cat (Star is_space)
            (Cat (Cls is_lparen)
            (Cat (Grp (Plus is_digit))
            (Cat (Star is_space)
            (Cat (ch "g") (Cat (Cls is_rparen)
            (Cat (Star is_space) (Cat Eos Eps)))))))))))))
            (gap ++ (N ++ ([32] ++ ([111] ++ ([122] ++ ([32]
               ++ ([40] ++ (M ++ ([32] ++ ([103] ++ ([41]
               ++ ([] ++ ([] ++ [])))))))))))))
            []
            ([] ++ (([] ++ [N]) ++ ([] ++ ([] ++ ([] ++ ([]
               ++ ([] ++ (([] ++ [M]) ++ ([] ++ ([] ++ ([] ++ ([]
               ++ ([] ++ [])))))))))))))).
  apply takes_cat.
  { apply takes_star; [exact Hgap|]. rewrite app_nil_r. exact HN. }
  apply takes_cat.
  { apply takes_grp. apply takes_plus; auto; reflexivity. }
  apply takes_cat; [apply takes_star; reflexivity|].
  apply takes_cat; [apply takes_cls; reflexivity|].
  apply takes_cat; [apply takes_cls; reflexivity|].
  apply takes_cat; [apply takes_star; reflexivity|].
  apply takes_cat; [apply takes_cls; reflexivity|].
  apply takes_cat.
  { apply takes_grp. apply takes_plus; auto; reflexivity. }
  apply takes_cat; [apply takes_star; reflexivity|].
  apply takes_cat; [apply takes_cls; reflexivity|].
  apply takes_cat; [apply takes_cls; reflexivity|].
  apply takes_cat; [apply takes_star; reflexivity|].
  apply takes_cat; [apply takes_eos|].
  apply takes_eps.
Qed.

Lemma match1_blocked body tail a c b :
  no_numeral body -> stops is_space (rev body) -> body = a ++ c :: b ->
  exec_at Public.match1 (c :: b ++ tail) = None.
Proof.
  intros Hn Hs ->.
  destruct (end_blocked (c :: b)) as (run & d & x & Heq & Hrun & Hd & Hq).
  - discriminate.
  - unfold no_numeral in *. rewrite forallb_app in Hn.
    now apply andb_true_iff in Hn as [_ Hn].
  - rewrite rev_app_distr in Hs.
    destruct (rev (c :: b)) as [|e l] eqn:He; [|exact Hs].
    apply (f_equal (@length N)) in He. rewrite length_rev in He.
    discriminate He.
  - change (c :: b ++ tail) with ((c :: b) ++ tail).
    rewrite Heq, <- app_assoc. cbn [app].
    unfold exec_at, Public.match1. cbn [seq fold_right].
    now apply star_plus_blocked; [exact space_not_numeral| | |].
Qed.

Lemma match1_search body gap N M :
  no_numeral body -> stops is_space (rev body) ->
  forallb is_space gap = true ->
  N <> [] -> forallb digit_or_dot N = true -> digits1 M ->
  search Public.match1 [] (body ++ gap ++ N ++ lit " oz (" ++ M ++ lit " g)")
  = Some (body, [N; M], []).
Proof.
  intros Hn Hs Hgap HN1 HN2 HM.
  rewrite (search_skip_blocked _ body [] _
             (fun a c b => match1_blocked body _ a c b Hn Hs)).
  assert (He := takes_exec_at _ _ _ _
                  (match1_takes gap N M Hgap HN1 HN2 HM)).
  rewrite app_nil_r in He.
  rewrite (search_here _ _ _ _ _ He).
  now rewrite app_nil_r, rev_involutive.
Qed.

(** A text [<body><gap><N> oz (<M> g)], whose body has neither digit nor
    dot and does not end with white space, is listed under the name
    [body] with the grams [M] and the ounces [N]; the listing shows the
    grams and no ounces. *)
Theorem public_oz_with_grams (body gap N M category categoryName : jsstring)
    (activeFilter : option jsstring) (index : nat) :
  let itemText := body ++ gap ++ N ++ lit " oz (" ++ M ++ lit " g)" in
  let l :=
    Public.listing_of categoryName activeFilter index
      (Item.named itemText category) in
  no_numeral body -> stops is_space (rev body) ->
  forallb is_space gap = true ->
  N <> [] -> forallb digit_or_dot N = true -> digits1 M ->
  Public.extractLabel itemText = Public.mkLabel body M N
  /\ Public.item_name l = body
  /\ Public.item_grams l = Public.span "item-grams" (M ++ lit "g")
  /\ Public.item_ounces l = [].
Proof.
  intros itemText l Hn Hs Hgap HN1 HN2 HM.
  assert (Hsearch : search Public.match1 [] itemText
                    = Some (body, [N; M], []))
    by (now apply match1_search).
  assert (Hm : String_match Public.match1 itemText = Some [N; M])
    by (unfold String_match; now rewrite Hsearch).
  assert (Hr : String_replace_empty Public.replace1 itemText = body).
  { change Public.replace1 with (strip Public.match1).
    rewrite (proj1 (replace_strip _ _)). unfold String_replace_empty.
    rewrite Hsearch. apply app_nil_r. }
  assert (Hl : Public.extractLabel itemText = Public.mkLabel body M N).
  { unfold Public.extractLabel. rewrite Hm, Hr. reflexivity. }
  split; [exact Hl|].
  assert (Ht : truthy M = true).
  { destruct HM as [HM _]. destruct M; [contradiction|reflexivity]. }
  unfold l, Public.listing_of.
  cbn [Item.ITEM Item.named Public.item_name Public.item_grams
       Public.item_ounces].
  rewrite Hl. cbn [Public.cleanedName Public.grams Public.ounces].
  rewrite Ht, andb_false_r. auto.
Qed.

Lemma public_oz_with_grams_witness :
  Public.extractLabel (lit "Big Mac  7.6 oz (215 g)")
  = Public.mkLabel (lit "Big Mac") (lit "215") (lit "7.6").
Proof.
  refine (proj1 (public_oz_with_grams (lit "Big Mac") (lit "  ") (lit "7.6")
                   (lit "215") (lit "BURGER") (lit "BURGER") None 0
                   _ _ _ _ _ _));
    first [ split; [discriminate | reflexivity]
          | discriminate
          | reflexivity ].
Defined.

(** ** Badges of items without readable data *)

Lemma metric_unreadable x : Public.parseInt x = None -> Public.metric x = 0%Z.
Proof. unfold Public.metric. now intros ->. Qed.

(** An item none of whose five metrics [parseInt] can read counts as 0
    everywhere: it carries the badge of each of the three upper-bound
    filters, with the figure 0, and of no other filter. *)
Theorem unreadable_metrics_badges (item : Item.t) (f : jsstring) :
  Public.parseInt (Item.PRO item) = None ->
  Public.parseInt (Item.FBR item) = None ->
  Public.parseInt (Item.CARB item) = None ->
  Public.parseInt (Item.SGR item) = None ->
  Public.parseInt (Item.CAL item) = None ->
  Public.getNutritionalHighlight item (Some f)
  = if eqb f (lit "low-carb")
    then Public.highlight_span (lit "0g carbs")
    else if eqb f (lit "low-sugar")
    then Public.highlight_span (lit "0g sugar")
    else if eqb f (lit "calorie-conscious")
    then Public.highlight_span (lit "0 cal")
    else [].
Proof.
  intros Hp Hf Hc Hs Hk. unfold Public.getNutritionalHighlight.
  rewrite !metric_unreadable by assumption.
  destruct f as [|c f]; [reflexivity|].
  cbn [present truthy negb interpolate].
  destruct (eqb (c :: f) (lit "high-protein")) eqn:E1.
  { apply eqb_true in E1. rewrite E1. reflexivity. }
  destruct (eqb (c :: f) (lit "gut-friendly")) eqn:E2.
  { apply eqb_true in E2. rewrite E2. reflexivity. }
  destruct (eqb (c :: f) (lit "low-carb")); [reflexivity|].
  destruct (eqb (c :: f) (lit "low-sugar")); [reflexivity|].
  destruct (eqb (c :: f) (lit "calorie-conscious")); reflexivity.
Qed.

Lemma unreadable_metrics_badges_witness :
  Public.getNutritionalHighlight
    (Item.mk None (lit "Water") (lit "BEVERAGE")
       (Some (lit "n/a")) None None None None None
       (Some (lit "-")) None (Some []) None)
    (Some (lit "low-sugar"))
  = Public.highlight_span (lit "0g sugar").
Proof.
  refine (unreadable_metrics_badges
            (Item.mk None (lit "Water") (lit "BEVERAGE")
               (Some (lit "n/a")) None None None None None
               (Some (lit "-")) None (Some []) None)
            (lit "low-sugar") _ _ _ _ _);
    reflexivity.
Defined.

(** ** When [createListings] throws *)

Lemma own_key categories key b :
  Public.own categories key = Some b -> In key (List.map fst categories).
Proof.
  intros H. apply own_In in H. apply in_map_iff. now exists (key, b).
Qed.

Lemma group_item_inherited categories item :
  (forall key, In key (List.map fst categories) ->
               Public.inherited key = false) ->
  Public.inherited (Item.CATEGORY item) = true ->
  Public.group_item categories item = None.
Proof.
  intros Hinv Hi. unfold Public.group_item.
  destruct (Public.own categories (Item.CATEGORY item)) as [b|] eqn:Hb.
  - apply own_key in Hb. apply Hinv in Hb. congruence.
  - now rewrite Hi.
Qed.

Lemma group_item_plain categories item categories' :
  (forall key, In key (List.map fst categories) ->
               Public.inherited key = false) ->
  Public.group_item categories item = Some categories' ->
  forall key, In key (List.map fst categories') ->
              Public.inherited key = false.
Proof.
  intros Hinv. unfold Public.group_item.
  destruct (Public.own categories (Item.CATEGORY item)) as [b|] eqn:Hb.
  - intros H. inversion H. rewrite map_fst_push. exact Hinv.
  - destruct (Public.inherited (Item.CATEGORY item)) eqn:Hi; [discriminate|].
    intros H. inversion H. rewrite (push_fresh _ _ _ Hb), map_app.
    intros key Hin. apply in_app_or in Hin as [Hin|[<-|[]]]; auto.
Qed.

(** An item whose category names an inherited property stops the
    grouping. *)
Lemma group_items_inherited menuItems : forall categories,
  (forall key, In key (List.map fst categories) ->
               Public.inherited key = false) ->
  existsb (fun item => Public.inherited (Item.CATEGORY item)) menuItems
  = true ->
  Public.group_items menuItems categories = None.
Proof.
  induction menuItems as [|item rest IH]; intros categories Hinv Hex;
    [discriminate|].
  simpl in Hex. simpl.
  destruct (Public.group_item categories item) as [categories'|] eqn:Hg;
    [|reflexivity].
  destruct (Public.inherited (Item.CATEGORY item)) eqn:Hi.
  - rewrite (group_item_inherited _ _ Hinv Hi) in Hg. discriminate.
  - apply IH; [|exact Hex]. exact (group_item_plain _ _ _ Hinv Hg).
Qed.

Lemma grouped_plain rest : forall processed categories,
  grouped processed categories ->
  existsb (fun item => Public.inherited (Item.CATEGORY item)) rest = false ->
  exists categories',
    Public.group_items rest categories = Some categories'
    /\ grouped (processed ++ rest) categories'.
Proof.
  induction rest as [|item rest IH]; intros processed categories Hg Hex.
  - exists categories. now rewrite app_nil_r.
  - simpl in Hex. apply orb_false_iff in Hex as [Hitem Hex].
    destruct (grouped_step _ _ _ Hg Hitem) as (categories1 & Hstep & Hg1).
    destruct (IH _ _ Hg1 Hex) as (categories' & Hrest & Hg').
    exists categories'. simpl. rewrite Hstep.
    split; [exact Hrest|]. now rewrite <- app_assoc in Hg'.
Qed.

Lemma display_all_none (l : list (jsstring * list Item.t)) e :
  In e l -> Public.valid_token e.1 = false -> Public.display_all l = None.
Proof.
  induction l as [|x l IH]; intros Hin Hv; [contradiction|].
  simpl. unfold Public.displayCategoryItems.
  destruct (Public.valid_token x.1) eqn:Hx.
  - destruct Hin as [->|Hin]; [congruence|]. now rewrite (IH Hin Hv).
  - reflexivity.
Qed.

(** [createListings] throws exactly when the category of some item is a
    name the page cannot use: the name of an inherited property (the
    TypeError of [push]), or an empty name or one with white space (the
    exception of [classList.add]). *)
Theorem createListings_throws (menuItems : list Item.t) :
  Public.createListings menuItems = None
  <-> exists item,
        In item menuItems
        /\ (Public.inherited (Item.CATEGORY item) = true
            \/ Public.valid_token (Item.CATEGORY item) = false).
Proof.
  unfold Public.createListings.
  destruct (existsb (fun item => Public.inherited (Item.CATEGORY item))
              menuItems) eqn:Hex.
  { rewrite (group_items_inherited menuItems [] (fun _ H => match H with end)
               Hex).
    split; [intros _|reflexivity].
    apply existsb_exists in Hex as (item & Hin & Hi). eauto. }
  destruct (grouped_plain menuItems [] [] grouped_nil Hex)
    as (categories & Hgroup & Hg).
  simpl in Hg. rewrite Hgroup.
  assert (Hplain : forall item, In item menuItems ->
                     Public.inherited (Item.CATEGORY item) = false).
  { intros item Hin.
    destruct (Public.inherited (Item.CATEGORY item)) eqn:Hi; [|reflexivity].
    assert (existsb (fun item => Public.inherited (Item.CATEGORY item))
              menuItems = true)
      by (apply existsb_exists; eauto).
    congruence. }
  split.
  - intros Hnone.
    destruct (forallb (fun item => Public.valid_token (Item.CATEGORY item))
                menuItems) eqn:Hall.
    + exfalso. rewrite forallb_forall in Hall.
      rewrite display_all_valid in Hnone; [discriminate|].
      intros [key bucket] Hin. apply filter_In in Hin as [Hin _].
      apply (Permutation_in _ (Object_entries_perm categories)) in Hin.
      destruct (grouped_buckets _ _ _ _ Hg Hin) as [Hb Hne].
      destruct bucket as [|item bucket]; [contradiction|].
      assert (Hitem : In item (bucket_of key menuItems))
        by (rewrite <- Hb; now left).
      unfold bucket_of in Hitem. apply filter_In in Hitem as [Hin' Hk].
      apply eqb_true in Hk. simpl. rewrite <- Hk. now apply Hall.
    + assert (Hsome : existsb
                        (fun item =>
                           negb (Public.valid_token (Item.CATEGORY item)))
                        menuItems = true).
      { clear -Hall. induction menuItems as [|x l IH]; [discriminate|].
        simpl in *. destruct (Public.valid_token (Item.CATEGORY x));
          simpl in *; auto. }
      apply existsb_exists in Hsome as (item & Hin & Hv).
      apply negb_true_iff in Hv. eauto.
  - intros (item & Hin & [Hi|Hv]).
    { rewrite (Hplain item Hin) in Hi. discriminate. }
    assert (Hb : In item (bucket_of (Item.CATEGORY item) menuItems)).
    { unfold bucket_of. apply filter_In. split; [exact Hin|apply eqb_refl]. }
    destruct Hg as (Hnd & Hown & _).
    specialize (Hown (Item.CATEGORY item)).
    destruct (bucket_of (Item.CATEGORY item) menuItems) as [|x b] eqn:Hbk;
      [contradiction|].
    apply own_In in Hown.
    apply (Permutation_in _ (Permutation_sym (Object_entries_perm categories)))
      in Hown.
    rewrite (display_all_none _ (Item.CATEGORY item, x :: b));
      [reflexivity| |exact Hv].
    apply filter_In. split; [exact Hown|reflexivity].
Qed.

(** ** A form that cannot be read *)

Section FormThrows.

Variable toISOString : jsstring -> option jsstring.
Variable toLowerCase : jsstring -> jsstring.

Lemma forEach_app {A S : Type} (body : S -> A -> option S) (l1 l2 : list A) :
  forall st,
    Manager.forEach body (l1 ++ l2) st
    = match Manager.forEach body l1 st with
      | Some st' => Manager.forEach body l2 st'
      | None => None
      end.
Proof.
  induction l1 as [|x l1 IH]; intros st; simpl; [reflexivity|].
  destruct (body st x); [apply IH|reflexivity].
Qed.

Lemma forEach_input_frame (l : list Manager.input) (k : jsstring) :
  forall json json',
    (forall x, In x l -> Manager.in_name x <> k) ->
    Manager.forEach (Manager.coerce_input toISOString) l json = Some json' ->
    json' !! k = json !! k.
Proof.
  induction l as [|x l IH]; intros json json' Hk H; simpl in H.
  - now inversion H.
  - destruct (Manager.coerce_input toISOString json x) as [json1|] eqn:Hx;
      [|discriminate].
    rewrite (IH _ _ (fun y Hy => Hk y (or_intror Hy)) H).
    apply (coerce_input_frame _ _ _ _ Hx).
    intros Heq. now apply (Hk x (or_introl eq_refl)).
Qed.

(** Two inputs of one name, the first a checked checkbox and the second
    not hidden: the record holds [true] under that name when the second
    is reached, [true.trim()] throws, and the submission sends
    nothing. *)
Theorem checked_namesake_throws (f : Manager.form)
    (ins1 ins2 ins3 : list Manager.input) (box el : Manager.input)
    (st : Manager.page) :
  Manager.inputs f = ins1 ++ box :: ins2 ++ el :: ins3 ->
  Manager.in_type box = Manager.Checkbox ->
  Manager.in_checked box = true ->
  Manager.in_name el = Manager.in_name box ->
  Manager.in_type el <> Manager.Hidden ->
  (forall x, In x ins2 -> Manager.in_name x <> Manager.in_name box) ->
  Manager.getFormData toISOString f = None
  /\ Manager.step toISOString toLowerCase st (Manager.Submit f) = st.
Proof.
  intros Hins Hbox Hchecked Hname Hty Hmid.
  assert (Hnone : Manager.getFormData toISOString f = None).
  { unfold Manager.getFormData. rewrite Hins, forEach_app.
    destruct (Manager.forEach _ ins1 _) as [json1|]; [|reflexivity].
    cbn [Manager.forEach].
    destruct (Manager.coerce_input toISOString json1 box) as [json2|] eqn:H2;
      [|reflexivity].
    assert (Hv2 : json2 !! Manager.in_name box = Some (Manager.JBool true)).
    { unfold Manager.coerce_input in H2. rewrite Hbox, Hchecked in H2.
      destruct (Manager.isEmpty _); [|discriminate].
      inversion H2. apply lookup_insert_eq. }
    rewrite forEach_app.
    destruct (Manager.forEach _ ins2 json2) as [json3|] eqn:H3;
      [|reflexivity].
    apply (forEach_input_frame _ (Manager.in_name box) _ _ Hmid) in H3.
    cbn [Manager.forEach].
    assert (Hel : Manager.coerce_input toISOString json3 el = None).
    { unfold Manager.coerce_input, Manager.get. rewrite Hname, H3, Hv2.
      destruct (Manager.in_type el); [contradiction|..]; reflexivity. }
    now rewrite Hel. }
  split; [exact Hnone|].
  unfold Manager.step. now rewrite Hnone.
Qed.

End FormThrows.

(** ** The page on concrete runs *)

Lemma checked_namesake_throws_witness :
  Manager.getFormData date_toISOString
    [Manager.CInput
       (Manager.mkInput Manager.Checkbox (lit "vegan") (lit "on") true false);
     Manager.CSelect (Manager.mkSelect (lit "CATEGORY") (Some []) false);
     Manager.CInput
       (Manager.mkInput Manager.Text (lit "vegan") (lit "yes") false false)]
  = None.
Proof.
  refine (proj1 (checked_namesake_throws date_toISOString ascii_toLowerCase
                   _ []
                   []
                   []
                   (Manager.mkInput Manager.Checkbox (lit "vegan") (lit "on")
                      true false)
                   (Manager.mkInput Manager.Text (lit "vegan") (lit "yes")
                      false false)
                   Manager.init _ _ _ _ _ _)).
  - reflexivity.
  - reflexivity.
  - reflexivity.
  - reflexivity.
  - discriminate.
  - intros x [].
Defined.

Lemma delete_settles_witness :
  let st :=
    Manager.fetch (Manager.mkRequest Manager.DELETE (lit "/data/7") None)
      Manager.KDelete Manager.init in
  Manager.alerts
    (Manager.step date_toISOString ascii_toLowerCase st
       (Manager.DeleteSettles 0
          (Manager.Response false (lit "Not Found")
             (Some (Manager.ReplyObject None (Some (lit "Item not found")))))))
  = [lit "Item not found"].
Proof.
  exact (proj1 (delete_settles date_toISOString ascii_toLowerCase
                  (Manager.fetch
                     (Manager.mkRequest Manager.DELETE (lit "/data/7") None)
                     Manager.KDelete Manager.init)
                  0 _
                  (Manager.Response false (lit "Not Found")
                     (Some (Manager.ReplyObject None
                              (Some (lit "Item not found")))))
                  eq_refl)).
Defined.

Lemma create_button_stays_hidden_witness :
  Manager.createButtonHidden
    (Manager.run date_toISOString ascii_toLowerCase
       [Manager.SearchInput (lit "fries")]
       (Manager.step date_toISOString ascii_toLowerCase Manager.loaded
          (Manager.ListSettles 0
             (Manager.Response false (lit "Service Unavailable") None))))
  = true.
Proof.
  exact (proj2 (proj2 (proj2
           (create_button_stays_hidden date_toISOString ascii_toLowerCase
              Manager.loaded 0 _ (lit "Service Unavailable") None
              [Manager.SearchInput (lit "fries")] eq_refl)))).
Defined.

(** ** The labels of the categories *)

Lemma trimStart_spaces s :
  exists spaces, s = spaces ++ trimStart s /\ forallb is_space spaces = true.
Proof.
  induction s as [|c s IH]; simpl; [now exists []|].
  destruct (is_space c) eqn:Hc; [|now exists []].
  destruct IH as (spaces & IH & Hs). exists (c :: spaces). simpl.
  rewrite Hc, <- IH. auto.
Qed.

Lemma forallb_rev {A : Type} (p : A -> bool) (l : list A) :
  forallb p l = true -> forallb p (rev l) = true.
Proof.
  rewrite !forallb_forall. intros H x Hx. apply H. now apply in_rev.
Qed.

Lemma trim_infix s :
  exists l r,
    s = l ++ trim s ++ r
    /\ forallb is_space l = true /\ forallb is_space r = true.
Proof.
  destruct (trimStart_spaces s) as (l & Hl & Hls).
  destruct (trimStart_spaces (rev (trimStart s))) as (r & Hr & Hrs).
  exists l, (rev r). split; [|split; [exact Hls|now apply forallb_rev]].
  unfold trim, trimEnd. rewrite <- rev_app_distr, <- Hr, rev_involutive.
  exact Hl.
Qed.

Lemma letters_spaces l : forallb is_space l = true -> letters l = [].
Proof.
  unfold letters. induction l as [|c l IH]; simpl; [reflexivity|].
  intros H. apply andb_true_iff in H as [Hc Hl]. rewrite Hc. simpl. auto.
Qed.

Lemma letters_app a b : letters (a ++ b) = letters a ++ letters b.
Proof. unfold letters. apply List.filter_app. Qed.

Lemma letters_trim s : letters (trim s) = letters s.
Proof.
  destruct (trim_infix s) as (l & r & Hs & Hl & Hr).
  rewrite Hs at 2. rewrite !letters_app.
  now rewrite (letters_spaces l Hl), (letters_spaces r Hr), app_nil_r.
Qed.

Lemma letters_space_capitals s :
  letters (Labels.space_capitals s) = letters s.
Proof.
  unfold Labels.space_capitals.
  induction s as [|c s IH]; [reflexivity|].
  cbn [flat_map]. rewrite letters_app. fold (letters (c :: s)).
  change (c :: s) with ([c] ++ s). rewrite (letters_app [c] s), IH.
  f_equal. now destruct (Labels.is_capital c).
Qed.

Lemma space_capitals_spaced s : forall a c b,
  Labels.space_capitals s = a ++ c :: b -> Labels.is_capital c = true ->
  exists a', a = a' ++ [32].
Proof.
  unfold Labels.space_capitals.
  induction s as [|d s IH]; intros a c b Heq Hc; cbn [flat_map] in Heq.
  - now destruct a.
  - destruct (Labels.is_capital d) eqn:Hd; cbn [app] in Heq.
    + destruct a as [|x a]; cbn [app] in Heq.
      { injection Heq as Hx _. subst c. discriminate Hc. }
      injection Heq as Hx Heq. subst x.
      destruct a as [|y a]; cbn [app] in Heq.
      { now exists []. }
      injection Heq as Hy Heq. subst y.
      destruct (IH _ _ _ Heq Hc) as [a' Ha]. subst a.
      now exists (32 :: d :: a').
    + destruct a as [|x a]; cbn [app] in Heq.
      { injection Heq as Hx _. subst c. congruence. }
      injection Heq as Hx Heq. subst x.
      destruct (IH _ _ _ Heq Hc) as [a' Ha]. subst a.
      now exists (d :: a').
Qed.

Lemma spaced_trim s :
  (forall a c b, s = a ++ c :: b -> Labels.is_capital c = true ->
                 exists a', a = a' ++ [32]) ->
  spaced (trim s).
Proof.
  intros Hs a c b Heq Hc.
  destruct (trim_infix s) as (l & r & Hinf & _ & _).
  rewrite Heq, <- app_assoc in Hinf. cbn [app] in Hinf.
  rewrite app_assoc in Hinf.
  destruct (Hs _ _ _ Hinf Hc) as [a' Ha'].
  destruct (rev a) as [|x a0] eqn:Hrev.
  - left. apply (f_equal (@rev N)) in Hrev. now rewrite rev_involutive in Hrev.
  - right. apply (f_equal (@rev N)) in Hrev.
    rewrite rev_involutive in Hrev. cbn [rev] in Hrev. subst a.
    rewrite app_assoc in Ha'. apply app_inj_tail in Ha' as [_ ->].
    now exists (rev a0).
Qed.

Lemma lookup_In map key label :
  Labels.lookup map key = Some label -> In (key, label) map.
Proof.
  induction map as [|[k v] rest IH]; simpl; [discriminate|].
  destruct (eqb k key) eqn:Hk.
  - apply eqb_true in Hk. subst k. intros H. inversion H. now left.
  - intros H. right. now apply IH.
Qed.

Lemma lookup_None map key :
  Labels.lookup map key = None -> ~ In key (List.map fst map).
Proof.
  induction map as [|[k v] rest IH]; simpl; [auto|].
  destruct (eqb k key) eqn:Hk; [discriminate|].
  apply eqb_neq in Hk. intros H [Heq|Hin]; [contradiction|]. now apply IH.
Qed.

(** [formatCategoryName] returns the label [categoryMap] holds for the
    name; or, for a name [categoryMap] inherits, the inherited value,
    which is not a string; or else the name with a space before each
    capital, trimmed: a text without white space at its ends, with the
    same code units as the name apart from white space, in which every
    capital but a leading one follows a space. *)
Theorem formatCategoryName_cases (categoryName : jsstring) :
  match Labels.formatCategoryName categoryName with
  | Labels.Text label =>
      In (categoryName, label) Labels.categoryMap
      \/ (~ In categoryName (List.map fst Labels.categoryMap)
          /\ Public.inherited categoryName = false
          /\ trimmed label
          /\ letters label = letters categoryName
          /\ spaced label)
  | Labels.Inherited name =>
      name = categoryName
      /\ Public.inherited categoryName = true
      /\ ~ In categoryName (List.map fst Labels.categoryMap)
  end.
Proof.
  unfold Labels.formatCategoryName.
  destruct (Labels.lookup Labels.categoryMap categoryName) as [label|] eqn:Hl.
  - apply lookup_In in Hl. left.
    assert (Ht : truthy label = true).
    { assert (Hall : forallb (fun kv => truthy kv.2) Labels.categoryMap = true)
        by reflexivity.
      rewrite forallb_forall in Hall. exact (Hall _ Hl). }
    unfold or_default. now rewrite Ht.
  - apply lookup_None in Hl.
    destruct (Public.inherited categoryName) eqn:Hi; [auto|].
    right. split; [exact Hl|]. split; [reflexivity|].
    split; [apply trim_trimmed|].
    split; [now rewrite letters_trim, letters_space_capitals|].
    apply spaced_trim. apply space_capitals_spaced.
Qed.

(** ** The filter buttons *)

Lemma imap_compose {A B C : Type} (l : list A) :
  forall (g : nat -> B -> C) (f : nat -> A -> B),
    imap g (imap f l) = imap (fun i x => g i (f i x)) l.
Proof.
  induction l as [|x l IH]; intros g f; simpl; [reflexivity|].
  f_equal. apply IH.
Qed.

Lemma map_imap {A B C : Type} (h : B -> C) (l : list A) :
  forall g : nat -> A -> B,
    List.map h (imap g l) = imap (fun i x => h (g i x)) l.
Proof.
  induction l as [|x l IH]; intros g; simpl; [reflexivity|].
  f_equal. apply IH.
Qed.

Lemma imap_const_map {A B : Type} (h : A -> B) (l : list A) :
  forall f : nat -> A -> B,
    (forall i x, f i x = h x) -> imap f l = List.map h l.
Proof.
  induction l as [|x l IH]; intros f Hf; simpl; [reflexivity|].
  rewrite Hf. f_equal. apply IH. intros i y. apply Hf.
Qed.

Lemma last_default {A : Type} (l : list A) (x d d' : A) :
  List.last (x :: l) d = List.last (x :: l) d'.
Proof.
  revert x. induction l as [|y l IH]; intros x; [reflexivity|].
  change (List.last (y :: l) d = List.last (y :: l) d'). apply IH.
Qed.

Lemma last_cons {A : Type} (l : list A) (x d : A) :
  List.last (x :: l) d = List.last l x.
Proof.
  destruct l as [|y l]; [reflexivity|].
  change (List.last (y :: l) d = List.last (y :: l) x). apply last_default.
Qed.

(** The bar with the button at position [p] active and no other. *)
Lemma click_moves_active categories p cs i :
  let keys := Public.createFilterButtons categories in
  let at_ p :=
    imap (fun i b => Labels.set_active (Nat.eqb i p) b)
      (Labels.filter_bar categories) in
  (i <= length keys)%nat ->
  Labels.click (Labels.mkBar (at_ p) cs) i
  = Some (Labels.mkBar (at_ i) (cs ++ [call_of keys i])).
Proof.
  intros keys at_ Hi. unfold Labels.click. cbn [Labels.buttons].
  unfold at_ at 1. rewrite list_lookup_imap.
  unfold Labels.filter_bar. fold keys.
  destruct i as [|j].
  - cbn [lookup list_lookup fmap option_fmap option_map Labels.set_active
         Labels.category Labels.textContent].
    unfold Labels.showAllCategoriesLocal, at_, Labels.filter_bar.
    fold keys. cbn [Labels.buttons Labels.calls imap].
    do 2 f_equal. f_equal.
    rewrite map_imap.
    rewrite !(imap_const_map (Labels.set_active false)); reflexivity.
  - assert (Hj : (j < length keys)%nat) by lia.
    destruct (nth_error keys j) as [key|] eqn:Hk;
      [|apply nth_error_None in Hk; lia].
    assert (Hnth : nth j keys [] = key) by (now apply nth_error_nth).
    change ((_ :: ?l) !! S j) with (l !! j).
    rewrite list_lookup_fmap.
    assert (Hlk : keys !! j = Some key).
    { clear -Hk. revert j Hk. induction keys as [|x l IH]; intros [|j] H;
        simpl in *; try discriminate; auto. }
    rewrite Hlk.
    cbn [fmap option_fmap option_map Labels.set_active Labels.category].
    unfold Labels.filterByCategory. cbn [Labels.buttons Labels.calls].
    unfold call_of. rewrite Hnth. f_equal. f_equal.
    unfold at_. rewrite imap_compose. reflexivity.
Qed.

(** On the bar [createFilterButtons] makes, whatever buttons are clicked:
    the clicks succeed; afterwards the button clicked last is the one
    active button ("Show All" when none was clicked), texts and
    categories are as made; and each click has called the filter module
    once, "Show All" with [showAllCategories] and a category button with
    [setCategoryFilter] of its category. *)
Theorem one_button_active (categories : Public.object) (l : list nat) :
  let keys := Public.createFilterButtons categories in
  Forall (fun i => (i <= length keys)%nat) l ->
  Labels.clicks l (Labels.mkBar (Labels.filter_bar categories) [])
  = Some (Labels.mkBar
            (imap (fun i b => Labels.set_active (Nat.eqb i (last_click l)) b)
               (Labels.filter_bar categories))
            (List.map (call_of keys) l)).
Proof.
  intros keys Hl.
  assert (Hstart : Labels.filter_bar categories
                   = imap (fun i b => Labels.set_active (Nat.eqb i 0) b)
                       (Labels.filter_bar categories)).
  { unfold Labels.filter_bar. cbn [imap]. f_equal.
    rewrite (imap_const_map (Labels.set_active false)); [|reflexivity].
    rewrite List.map_map. apply map_ext. reflexivity. }
  rewrite Hstart at 1.
  unfold last_click.
  change (List.map (call_of keys) l) with ([] ++ List.map (call_of keys) l).
  generalize (@nil Labels.call) as cs. generalize 0%nat as p.
  induction Hl as [|i l Hi Hl IH]; intros p cs.
  - simpl. now rewrite app_nil_r.
  - cbn [Labels.clicks].
    rewrite (click_moves_active categories p cs i Hi).
    rewrite IH, last_cons. cbn [List.map].
    now rewrite <- app_assoc.
Qed.

(** ** A numeral before the letter g *)

Lemma space_not_digit c : is_space c = true -> is_digit c = false.
Proof.
  intros H. apply space_not_numeral in H. unfold digit_or_dot in H.
  now apply orb_false_iff in H as [H _].
Qed.

Lemma opt_blocked p r s caps k :
  m r s caps k = None ->
  (forall c s', s = c :: s' -> p c = true -> m r s' caps k = None) ->
  m (Cat (Opt p) r) s caps k = None.
Proof.
  intros H0 H1. cbn [m]. destruct s as [|c s']; [exact H0|].
  destruct (p c) eqn:Hc; [|exact H0].
  rewrite (H1 c s' eq_refl Hc). exact H0.
Qed.

(** [\s* ( \d+ ... ) ...] cannot start on white space that is followed
    by a code unit other than a digit and white space. *)
Lemma star_numeral_blocked r1 r2 run d x caps k :
  forallb is_space run = true -> is_space d = false -> is_digit d = false ->
  m (Cat (Star is_space) (Cat (Grp (Cat (Plus is_digit) r1)) r2))
    (run ++ d :: x) caps k
  = None.
Proof.
  intros Hrun Hd Hq. cbn [m].
  apply star_none; [exact Hrun|exact Hd|].
  intros [|c run'] Hrun'; simpl.
  - now rewrite Hq.
  - apply andb_true_iff in Hrun' as [Hc _].
    now rewrite (space_not_digit c Hc).
Qed.

Lemma space_not_lparen c : is_space c = true -> is_lparen c = false.
Proof.
  intros H. destruct (is_lparen c) eqn:E; [|reflexivity].
  unfold is_lparen in E. apply N.eqb_eq in E. subst c. discriminate H.
Qed.

Lemma digit_not_lparen c : is_digit c = true -> is_lparen c = false.
Proof.
  intros H. destruct (is_lparen c) eqn:E; [|reflexivity].
  unfold is_lparen in E. apply N.eqb_eq in E. subst c. discriminate H.
Qed.

(** Text without digits is white space only, or starts with white space
    followed by a code unit that is neither white space nor a digit. *)
Lemma spaces_then (t : jsstring) :
  forallb (fun c => negb (is_digit c)) t = true ->
  (exists run d x,
     t = run ++ d :: x /\ forallb is_space run = true
     /\ is_space d = false /\ is_digit d = false)
  \/ forallb is_space t = true.
Proof.
  induction t as [|c t IH]; intros H; [now right|].
  simpl in H. apply andb_true_iff in H as [Hc Ht].
  apply negb_true_iff in Hc.
  destruct (is_space c) eqn:Hs.
  - destruct (IH Ht) as [(run & d & x & -> & Hrun & Hd & Hq)|Hall].
    + left. exists (c :: run), d, x. simpl. rewrite Hs. auto.
    + right. simpl. now rewrite Hs.
  - left. exists [], c, t. auto.
Qed.

(** A text that ends with code units of the class [p] does not stop
    before [p] at its end. *)
Lemma ends_with (p : N -> bool) (a t : jsstring) :
  t <> [] -> forallb p t = true -> stops p (rev (a ++ t)) -> False.
Proof.
  intros Hne Hp Hs. rewrite rev_app_distr in Hs.
  destruct (rev t) as [|e l] eqn:He.
  - apply (f_equal (@length N)) in He. rewrite length_rev in He.
    destruct t; [contradiction|discriminate He].
  - simpl in Hs. rewrite forallb_forall in Hp.
    assert (Hin : In e t) by (apply in_rev; rewrite He; now left).
    rewrite (Hp e Hin) in Hs. discriminate Hs.
Qed.

Lemma numeral_blocked r1 r2 t rest caps k :
  forallb (fun c => negb (is_digit c)) t = true ->
  (forallb is_space t = true ->
   exists d x, rest = d :: x /\ is_space d = false /\ is_digit d = false) ->
  m (Cat (Star is_space) (Cat (Grp (Cat (Plus is_digit) r1)) r2))
    (t ++ rest) caps k
  = None.
Proof.
  intros Ht Hrest.
  destruct (spaces_then t Ht) as [(run & d & x & -> & Hrun & Hd & Hq)|Hall].
  - rewrite <- app_assoc. cbn [app]. now apply star_numeral_blocked.
  - destruct (Hrest Hall) as (d & x & -> & Hd & Hq).
    now apply star_numeral_blocked.
Qed.

(** Pattern 6 cannot start before the parenthesis of the quantity, nor,
    when there is none, inside a text that ends with neither white space
    nor a parenthesis. *)
Lemma pattern6_blocked pre lp rest a c b :
  forallb (fun c => negb (is_digit c)) pre = true ->
  (lp = [] /\ stops is_space (rev pre) /\ stops is_lparen (rev pre))
  \/ lp = [40] ->
  pre = a ++ c :: b ->
  exec_at Manager.pattern6 (c :: b ++ lp ++ rest) = None.
Proof.
  intros Hd Hlp ->.
  rewrite forallb_app in Hd. apply andb_true_iff in Hd as [_ Hd].
  unfold exec_at, Manager.pattern6. cbn [seq fold_right].
  apply opt_blocked.
  - change (c :: b ++ lp ++ rest) with ((c :: b) ++ lp ++ rest).
    apply numeral_blocked; [exact Hd|]. intros Hsp.
    destruct Hlp as [(-> & Hs & _)| ->].
    + exfalso. now apply (ends_with is_space a (c :: b)).
    + exists 40, rest. auto.
  - intros c0 s' Heq Hc0. injection Heq as Hc Hs'. subst c0 s'.
    simpl in Hd. apply andb_true_iff in Hd as [_ Hd].
    apply numeral_blocked; [exact Hd|]. intros Hsp.
    destruct Hlp as [(-> & Hs & Hp)| ->]; [exfalso|exists 40, rest; auto].
    destruct b as [|c1 b].
    + apply (ends_with is_lparen a [c]); [discriminate| |exact Hp].
      simpl. now rewrite Hc0.
    + change (a ++ c :: c1 :: b) with (a ++ [c] ++ c1 :: b) in Hs.
      rewrite app_assoc in Hs.
      now apply (ends_with is_space (a ++ [c]) (c1 :: b)).
Qed.

Lemma pattern6_takes lp sp1 whole frac dot gap g sp2 rp post :
  lp = [] \/ lp = [40] ->
  forallb is_space sp1 = true ->
  digits1 whole -> forallb is_digit frac = true ->
  forallb is_space gap = true -> g = 103 \/ g = 71 ->
  forallb is_space sp2 = true -> stops is_space (rp ++ post) ->
  (rp = [] /\ stops is_rparen post) \/ rp = [41] ->
  takes Manager.pattern6
    (lp ++ sp1 ++ numeral whole frac dot ++ gap ++ [g] ++ sp2 ++ rp) post
    [numeral whole frac dot].
Proof.
  intros Hlp Hsp1 Hw Hf Hgap Hg Hsp2 Hend Hrp.
  assert (Hfirst : exists c rest, numeral whole frac dot = c :: rest
                                  /\ is_digit c = true).
  { destruct Hw as [Hne Hd]. destruct whole as [|c w]; [contradiction|].
    simpl in Hd. apply andb_true_iff in Hd as [Hc _].
    exists c, (w ++ (if dot then 46 :: frac else [])). auto. }
  destruct Hfirst as (c & rest & HN & Hc).
  assert (Hnext : forall y, stops is_digit (gap ++ g :: y)
                            /\ stops is_dot (gap ++ g :: y)).
  { intros y. destruct gap as [|s gap].
    - destruct Hg as [-> | ->]; split; reflexivity.
    - simpl in Hgap. apply andb_true_iff in Hgap as [Hsp _].
      pose proof (space_not_numeral s Hsp) as Hq. unfold digit_or_dot in Hq.
      apply orb_false_iff in Hq as [Hq1 Hq2]. split; assumption. }
  assert (Hg' : is_space g = false /\ ((g =? 103) || (g =? 103 - 32)) = true)
    by (destruct Hg as [-> | ->]; split; reflexivity).
  destruct Hg' as [Hg1 Hg2].
  assert (H : takes
            (Cat (Opt is_lparen)
            (Cat (Star is_space)
            (Cat (Grp (seq [Plus is_digit; Opt is_dot; Star is_digit]))
            (Cat (Star is_space)
            (Cat (chi "g")
            (Cat (Star is_space)
            (Cat (Opt is_rparen) Eps)))))))
            (lp ++ (sp1 ++ (numeral whole frac dot ++ (gap ++ ([g] ++ (sp2
               ++ (rp ++ [])))))))
            post
            ([] ++ ([] ++ (([] ++ [numeral whole frac dot]) ++ ([] ++ ([]
               ++ ([] ++ ([] ++ [])))))))).
  { apply takes_cat.
    { destruct Hlp as [-> | ->]; [|apply takes_opt_some; reflexivity].
      apply takes_opt_none. destruct sp1 as [|s sp1].
      - cbn [app]. rewrite HN. cbn [app stops]. now apply digit_not_lparen.
      - simpl in Hsp1. apply andb_true_iff in Hsp1 as [Hs _].
        cbn [app stops]. now apply space_not_lparen. }
    apply takes_cat.
    { apply takes_star; [exact Hsp1|]. rewrite HN. cbn [app stops].
      apply numeral_not_space. unfold digit_or_dot. now rewrite Hc. }
    apply takes_cat.
    { apply takes_grp. rewrite <- !app_assoc. cbn [app].
      apply takes_numeral; auto; apply Hnext. }
    apply takes_cat.
    { apply takes_star; [exact Hgap|]. exact Hg1. }
    apply takes_cat; [apply takes_cls; exact Hg2|].
    apply takes_cat.
    { apply takes_star; [exact Hsp2|]. now rewrite app_nil_r. }
    apply takes_cat; [|apply takes_eps].
    destruct Hrp as [[-> Hp] | ->]; [|apply takes_opt_some; reflexivity].
    apply takes_opt_none. exact Hp. }
  cbn [app] in H. rewrite ?app_nil_r in H. exact H.
Qed.

(** Outside the three beverage-like categories, when none of the first
    five patterns matches, a numeral followed by the letter g, in either
    case and whatever comes after it, is taken for grams.  The name is
    [<pre><lp><sp1><N><gap>g<sp2><rp><post>]: [lp] is an opening
    parenthesis or nothing, [rp] a closing parenthesis or nothing, [sp1],
    [gap] and [sp2] are white space, and [pre] holds no digit.  The
    stretch is taken with all it can absorb: without [lp], [pre] does not
    end with white space or an opening parenthesis; [sp2] is followed by
    no white space and, without [rp], by no closing parenthesis.  Then
    the quantity is ["<N> g"] and the name is the rest, [<pre><post>],
    trimmed. *)
Theorem manager_bare_grams
    (pre lp sp1 whole frac gap sp2 rp post category : jsstring)
    (dot : bool) (g : N) :
  let N := numeral whole frac dot in
  let name := pre ++ lp ++ sp1 ++ N ++ gap ++ [g] ++ sp2 ++ rp ++ post in
  forallb (fun c => negb (is_digit c)) pre = true ->
  (lp = [] /\ stops is_space (rev pre) /\ stops is_lparen (rev pre))
  \/ lp = [40] ->
  forallb is_space sp1 = true ->
  digits1 whole -> forallb is_digit frac = true ->
  forallb is_space gap = true -> g = 103 \/ g = 71 ->
  forallb is_space sp2 = true -> stops is_space (rp ++ post) ->
  (rp = [] /\ stops is_rparen post) \/ rp = [41] ->
  Manager.beverage_like category = false ->
  String_match Manager.pattern1 name = None ->
  String_match Manager.pattern2 name = None ->
  String_match Manager.pattern3 name = None ->
  String_match Manager.pattern4 name = None ->
  String_match Manager.pattern5 name = None ->
  Manager.parseWeight (Item.named name category)
  = Manager.mkParsed (trim (pre ++ post))
      (Manager.weight_div (N ++ lit " g")).
Proof.
  intros N name Hpre Hlp Hsp1 Hw Hf Hgap Hg Hsp2 Hend Hrp Hbev
    H1 H2 H3 H4 H5.
  assert (Hne : name <> []).
  { unfold name. intros Habs. apply (f_equal (@length _)) in Habs.
    rewrite !length_app in Habs. simpl in Habs. lia. }
  assert (Hname : or_default name (lit "Unnamed Item") = name).
  { unfold or_default. destruct name; [contradiction|reflexivity]. }
  assert (Hlp' : lp = [] \/ lp = [40])
    by (destruct Hlp as [(-> & _)| ->]; auto).
  assert (Hsearch : search Manager.pattern6 [] name = Some (pre, [N], post)).
  { unfold name.
    rewrite (search_skip_blocked _ pre [] _
               (fun a c b => pattern6_blocked pre lp _ a c b Hpre Hlp)).
    assert (He := takes_exec_at _ _ _ _
                    (pattern6_takes lp sp1 whole frac dot gap g sp2 rp post
                       Hlp' Hsp1 Hw Hf Hgap Hg Hsp2 Hend Hrp)).
    fold N in He. rewrite <- !app_assoc in He.
    rewrite (search_here _ _ _ _ _ He).
    now rewrite app_nil_r, rev_involutive. }
  assert (Hm : String_match Manager.pattern6 name = Some [N])
    by (unfold String_match; now rewrite Hsearch).
  assert (Hr : String_replace_empty Manager.pattern6 name = pre ++ post)
    by (unfold String_replace_empty; now rewrite Hsearch).
  unfold Manager.parseWeight, Manager.try_pattern, Manager.unless_weight.
  cbn [Item.ITEM Item.CATEGORY Item.named Manager.itemName Manager.weightInfo].
  rewrite Hname, H1. cbn [Manager.itemName Manager.weightInfo truthy negb].
  rewrite H2. cbn [Manager.itemName Manager.weightInfo truthy negb].
  rewrite H3. cbn [Manager.itemName Manager.weightInfo truthy negb].
  rewrite H4. cbn [Manager.itemName Manager.weightInfo truthy negb].
  rewrite H5. cbn [Manager.itemName Manager.weightInfo truthy negb].
  rewrite or_default_empty, Hbev. cbn [negb andb].
  rewrite Hm, Hr. reflexivity.
Qed.

Lemma manager_bare_grams_witness :
  Manager.parseWeight (Item.named (lit "Fries (168 g)") (lit "SNACKSIDE"))
  = Manager.mkParsed (lit "Fries") (Manager.weight_div (lit "168 g"))
  /\ Manager.parseWeight (Item.named (lit "a10 g b") (lit "SNACKSIDE"))
     = Manager.mkParsed (lit "ab") (Manager.weight_div (lit "10 g"))
  /\ Manager.parseWeight
       (Item.named (lit "10 Golden Nuggets") (lit "CHICKENFISH"))
     = Manager.mkParsed (lit "olden Nuggets")
         (Manager.weight_div (lit "10 g"))
  /\ Manager.parseWeight (Item.named (lit "Fries 168 g") (lit "SNACKSIDE"))
     = Manager.mkParsed (lit "Fries") (Manager.weight_div (lit "168 g")).
Proof.
  split; [|split; [|split]].
  - refine (manager_bare_grams (lit "Fries ") (lit "(") [] (lit "168") []
              (lit " ") [] (lit ")") [] (lit "SNACKSIDE") false 103
              _ _ _ _ _ _ _ _ _ _ _ _ _ _ _ _);
      first [ split; [discriminate | reflexivity]
            | now right
            | now left
            | exact I
            | vm_compute; reflexivity ].
  - refine (manager_bare_grams (lit "a") [] [] (lit "10") []
              (lit " ") (lit " ") [] (lit "b") (lit "SNACKSIDE") false 103
              _ _ _ _ _ _ _ _ _ _ _ _ _ _ _ _);
      first [ split; [discriminate | reflexivity]
            | left; repeat split; reflexivity
            | now left
            | exact I
            | vm_compute; reflexivity ].
  - refine (manager_bare_grams [] [] [] (lit "10") []
              (lit " ") [] [] (lit "olden Nuggets") (lit "CHICKENFISH")
              false 71
              _ _ _ _ _ _ _ _ _ _ _ _ _ _ _ _);
      first [ split; [discriminate | reflexivity]
            | left; repeat split; reflexivity
            | now right
            | exact I
            | vm_compute; reflexivity ].
  - refine (manager_bare_grams (lit "Fries") [] (lit " ") (lit "168") []
              (lit " ") [] [] [] (lit "SNACKSIDE") false 103
              _ _ _ _ _ _ _ _ _ _ _ _ _ _ _ _);
      first [ split; [discriminate | reflexivity]
            | left; repeat split; reflexivity
            | now left
            | exact I
            | vm_compute; reflexivity ].
Defined.

Lemma one_button_active_witness :
  let categories : Public.object :=
    [(lit "BEVERAGE", [Item.named (lit "Cola") (lit "BEVERAGE")]);
     (lit "SALAD", [Item.named (lit "Side Salad") (lit "SALAD")])] in
  option_map
    (fun st => (List.map Labels.active (Labels.buttons st), Labels.calls st))
    (Labels.clicks [2; 0; 1]%nat
       (Labels.mkBar (Labels.filter_bar categories) []))
  = Some ([false; true; false],
          [Labels.setCategoryFilter (lit "SALAD"); Labels.showAllCategories;
           Labels.setCategoryFilter (lit "BEVERAGE")]).
Proof.
  cbv zeta.
  rewrite (one_button_active
             [(lit "BEVERAGE", [Item.named (lit "Cola") (lit "BEVERAGE")]);
              (lit "SALAD", [Item.named (lit "Side Salad") (lit "SALAD")])]
             [2; 0; 1]%nat).
  - reflexivity.
  - repeat constructor.
Defined.

(** ** Where the two views agree *)

Lemma trimStart_stopped s : stops is_space s -> trimStart s = s.
Proof. destruct s as [|c s]; simpl; [reflexivity|]. now intros ->. Qed.

Lemma trimStart_skips spaces s :
  forallb is_space spaces = true -> trimStart (spaces ++ s) = trimStart s.
Proof.
  induction spaces as [|c l IH]; simpl; [reflexivity|].
  intros H. apply andb_true_iff in H as [Hc Hl]. rewrite Hc. auto.
Qed.

Lemma trim_tail body gap :
  trimmed body -> forallb is_space gap = true -> trim (body ++ gap) = body.
Proof.
  intros [Hb He] Hgap. unfold trim, trimEnd.
  destruct body as [|c b].
  - cbn [app]. rewrite <- (app_nil_r gap), (trimStart_skips gap [] Hgap).
    reflexivity.
  - rewrite (trimStart_stopped ((c :: b) ++ gap) Hb), rev_app_distr.
    rewrite (trimStart_skips _ _ (forallb_rev _ _ Hgap)).
    rewrite (trimStart_stopped _ He). apply rev_involutive.
Qed.

Lemma no_digit_before body gap :
  no_numeral body -> forallb is_space gap = true ->
  forallb (fun c => negb (is_digit c)) (body ++ gap) = true.
Proof.
  unfold no_numeral. rewrite forallb_app, !forallb_forall.
  intros Hb Hg. apply andb_true_iff. split; apply forallb_forall; intros c Hc.
  - specialize (Hb c Hc). apply negb_true_iff in Hb.
    unfold digit_or_dot in Hb. apply orb_false_iff in Hb as [Hb _].
    now rewrite Hb.
  - now rewrite (space_not_digit c (Hg c Hc)).
Qed.

(** On a name [<body><gap><N> oz (<M> g)] of a category other than
    DESSERTSHAKE, CONDIMENT and BEVERAGE, with a body free of digits, dots
    and outer white space, and on which none of the fl-oz patterns
    matches, the two views agree: both display the name [body], and the
    grams [M]. *)
Theorem views_agree_on_grams (body gap whole frac M category : jsstring)
    (dot : bool) :
  let N := numeral whole frac dot in
  let name := body ++ gap ++ N ++ lit " oz (" ++ M ++ lit " g)" in
  let card := Manager.parseWeight (Item.named name category) in
  let label := Public.extractLabel name in
  no_numeral body -> trimmed body -> forallb is_space gap = true ->
  digits1 whole -> forallb is_digit frac = true -> digits1 M ->
  Manager.beverage_like category = false ->
  String_match Manager.pattern1 name = None ->
  String_match Manager.pattern2 name = None ->
  String_match Manager.pattern3 name = None ->
  Manager.itemName card = body
  /\ Public.cleanedName label = body
  /\ Public.grams label = M
  /\ Manager.weightInfo card
     = Manager.weight_div (Public.grams label ++ lit " g").
Proof.
  intros N name card label Hn Ht Hgap Hw Hf HM Hbev H1 H2 H3.
  assert (HN : N <> [] /\ forallb digit_or_dot N = true).
  { unfold N, numeral. destruct Hw as [Hne Hd]. split.
    - destruct whole; [contradiction|discriminate].
    - rewrite forallb_app. apply andb_true_iff. split.
      + apply forallb_forall. intros c Hc.
        rewrite forallb_forall in Hd. now apply digit_is_numeral, Hd.
      + destruct dot; [|reflexivity]. cbn [forallb].
        apply andb_true_iff. split; [reflexivity|].
        apply forallb_forall. intros c Hc.
        rewrite forallb_forall in Hf. now apply digit_is_numeral, Hf. }
  destruct HN as [HN1 HN2].
  assert (Hlabel : label = Public.mkLabel body M N).
  { assert (Hsearch := match1_search body gap N M Hn (proj2 Ht) Hgap
                         HN1 HN2 HM).
    fold name in Hsearch.
    unfold label, Public.extractLabel.
    assert (Hm : String_match Public.match1 name = Some [N; M])
      by (unfold String_match; now rewrite Hsearch).
    assert (Hr : String_replace_empty Public.replace1 name = body).
    { change Public.replace1 with (strip Public.match1).
      rewrite (proj1 (replace_strip _ _)). unfold String_replace_empty.
      rewrite Hsearch. apply app_nil_r. }
    rewrite Hm, Hr. reflexivity. }
  assert (Hcard : card = Manager.mkParsed body
                           (Manager.weight_div (M ++ lit " g"))).
  { assert (Hs := pattern4_search (body ++ gap) whole frac dot M []
                    (no_digit_before _ _ Hn Hgap) Hw Hf HM).
    fold N in Hs. rewrite app_nil_r, <- app_assoc in Hs. fold name in Hs.
    assert (Hname : or_default name (lit "Unnamed Item") = name).
    { unfold or_default, name.
      rewrite app_assoc, truthy_app_r; [reflexivity|].
      destruct N; [contradiction|discriminate]. }
    unfold card, Manager.parseWeight, Manager.try_pattern,
      Manager.unless_weight.
    cbn [Item.ITEM Item.CATEGORY Item.named Manager.itemName
         Manager.weightInfo].
    rewrite Hname, or_default_empty.
    rewrite H1. cbn [Manager.itemName Manager.weightInfo truthy negb].
    rewrite H2. cbn [Manager.itemName Manager.weightInfo truthy negb].
    rewrite H3. cbn [Manager.itemName Manager.weightInfo truthy negb].
    assert (Hm : String_match Manager.pattern4 name = Some [N; M])
      by (unfold String_match; now rewrite Hs).
    assert (Hr : String_replace_empty Manager.pattern4 name
                 = (body ++ gap) ++ [])
      by (unfold String_replace_empty; now rewrite Hs).
    rewrite Hm, Hr, Hbev, app_nil_r, (trim_tail _ _ Ht Hgap).
    cbn [Manager.itemName Manager.weightInfo].
    rewrite !weight_div_truthy. reflexivity. }
  rewrite Hlabel, Hcard. repeat apply conj; reflexivity.
Qed.

Lemma views_agree_on_grams_witness :
  let name := lit "Big Mac 7.6 oz (215 g)" in
  Manager.itemName (Manager.parseWeight (Item.named name (lit "BURGERSANDWICH")))
  = lit "Big Mac"
  /\ Public.cleanedName (Public.extractLabel name) = lit "Big Mac".
Proof.
  refine (let H := views_agree_on_grams (lit "Big Mac") (lit " ") (lit "7")
                     (lit "6") (lit "215") (lit "BURGERSANDWICH") true
                     _ _ _ _ _ _ _ _ _ _ in
          conj (proj1 H) (proj1 (proj2 H)));
    first [ split; [discriminate | reflexivity]
          | split; reflexivity
          | vm_compute; reflexivity ].
Defined.

(** ** The two remaining patterns of the manager view *)

Lemma pattern2_takes whole frac dot post :
  digits1 whole -> forallb is_digit frac = true ->
  takes Manager.pattern2
    (lit "(" ++ numeral whole frac dot ++ lit " fl oz cup)") post
    [numeral whole frac dot].
Proof.
  intros Hw Hf.
  change (takes
            (Cat (Cls is_lparen)
            (Cat (Grp (seq [Plus is_digit; Opt is_dot; Star is_digit]))
            (Cat (Star is_space)
            (Cat (chi "f") (Cat (chi "l")
            (Cat (Star is_space)
            (Cat (chi "o") (Cat (chi "z")
            (Cat (Star is_space)
            (Cat (chi "c") (Cat (chi "u") (Cat (chi "p")
            (Cat (Cls is_rparen) Eps)))))))))))))
            ([40] ++ (numeral whole frac dot ++ ([32] ++ ([102] ++ ([108]
               ++ ([32] ++ ([111] ++ ([122] ++ ([32] ++ ([99] ++ ([117]
               ++ ([112] ++ ([41] ++ [])))))))))))))
            post
            ([] ++ (([] ++ [numeral whole frac dot]) ++ ([] ++ ([] ++ ([]
               ++ ([] ++ ([] ++ ([] ++ ([] ++ ([] ++ ([] ++ ([] ++ ([]
               ++ [])))))))))))))).
  apply takes_cat; [apply takes_cls; reflexivity|].
  apply takes_cat.
  { apply takes_grp. apply takes_numeral; auto; reflexivity. }
  apply takes_cat; [apply takes_star; reflexivity|].
  apply takes_cat; [apply takes_cls; reflexivity|].
  apply takes_cat; [apply takes_cls; reflexivity|].
  apply takes_cat; [apply takes_star; reflexivity|].
  apply takes_cat; [apply takes_cls; reflexivity|].
  apply takes_cat; [apply takes_cls; reflexivity|].
  apply takes_cat; [apply takes_star; reflexivity|].
  apply takes_cat; [apply takes_cls; reflexivity|].
  apply takes_cat; [apply takes_cls; reflexivity|].
  apply takes_cat; [apply takes_cls; reflexivity|].
  apply takes_cat; [apply takes_cls; reflexivity|].
  apply takes_eps.
Qed.

Lemma pattern5_takes count whole frac dot post :
  digits1 count -> digits1 whole -> forallb is_digit frac = true ->
  takes Manager.pattern5
    (count ++ lit " cookie (" ++ numeral whole frac dot ++ lit " g)") post
    [numeral whole frac dot].
Proof.
  intros [Hc1 Hc2] Hw Hf.
  change (takes
            (Cat (Plus is_digit)
            (Cat (Star is_space)
            (Cat (chi "c") (Cat (chi "o") (Cat (chi "o")
            (Cat (chi "k") (Cat (chi "i") (Cat (chi "e")
            (Cat (Star is_space)
            (Cat (Cls is_lparen)
            (Cat (Grp (seq [Plus is_digit; Opt is_dot; Star is_digit]))
            (Cat (Star is_space)
            (Cat (chi "g") (Cat (Cls is_rparen) Eps))))))))))))))
            (count ++ ([32] ++ ([99] ++ ([111] ++ ([111] ++ ([107]
               ++ ([105] ++ ([101] ++ ([32] ++ ([40]
               ++ (numeral whole frac dot ++ ([32] ++ ([103] ++ ([41]
               ++ []))))))))))))))
            post
            ([] ++ ([] ++ ([] ++ ([] ++ ([] ++ ([] ++ ([] ++ ([] ++ ([]
               ++ ([] ++ (([] ++ [numeral whole frac dot]) ++ ([] ++ ([]
               ++ ([] ++ []))))))))))))))).
  apply takes_cat; [apply takes_plus; auto; reflexivity|].
  apply takes_cat; [apply takes_star; reflexivity|].
  apply takes_cat; [apply takes_cls; reflexivity|].
  apply takes_cat; [apply takes_cls; reflexivity|].
  apply takes_cat; [apply takes_cls; reflexivity|].
  apply takes_cat; [apply takes_cls; reflexivity|].
  apply takes_cat; [apply takes_cls; reflexivity|].
  apply takes_cat; [apply takes_cls; reflexivity|].
  apply takes_cat; [apply takes_star; reflexivity|].
  apply takes_cat; [apply takes_cls; reflexivity|].
  apply takes_cat.
  { apply takes_grp. apply takes_numeral; auto; reflexivity. }
  apply takes_cat; [apply takes_star; reflexivity|].
  apply takes_cat; [apply takes_cls; reflexivity|].
  apply takes_cat; [apply takes_cls; reflexivity|].
  apply takes_eps.
Qed.

Lemma pattern2_starts_with_paren c x :
  negb (is_lparen c) = true -> exec_at Manager.pattern2 (c :: x) = None.
Proof.
  intros Hc. apply negb_true_iff in Hc.
  unfold exec_at, Manager.pattern2. cbn [seq fold_right m].
  now rewrite Hc.
Qed.

Lemma pattern5_starts_with_digit c x :
  negb (is_digit c) = true -> exec_at Manager.pattern5 (c :: x) = None.
Proof.
  intros Hc. apply negb_true_iff in Hc.
  unfold exec_at, Manager.pattern5. cbn [seq fold_right m].
  now rewrite Hc.
Qed.

(** A name [<pre>(<N> fl oz cup)<post>] with no opening parenthesis in
    [pre], on which the first pattern does not match, is displayed in
    every category with the quantity ["<N> fl oz"] and the rest of the
    name, trimmed. *)
Theorem manager_fl_oz_cup_in_parens
    (pre whole frac post category : jsstring) (dot : bool) :
  let N := numeral whole frac dot in
  let name := pre ++ lit "(" ++ N ++ lit " fl oz cup)" ++ post in
  forallb (fun c => negb (is_lparen c)) pre = true ->
  digits1 whole -> forallb is_digit frac = true ->
  String_match Manager.pattern1 name = None ->
  Manager.parseWeight (Item.named name category)
  = Manager.mkParsed (trim (pre ++ post))
      (Manager.weight_div (N ++ lit " fl oz")).
Proof.
  intros N name Hpre Hw Hf H1.
  assert (Hname : or_default name (lit "Unnamed Item") = name).
  { unfold or_default, name. rewrite truthy_app_r; [reflexivity|].
    discriminate. }
  destruct (search_takes _ _ pre _ post _ pattern2_starts_with_paren Hpre
              (pattern2_takes whole frac dot post Hw Hf))
    as [Hm Hr].
  fold N in Hm, Hr. rewrite <- !app_assoc in Hm, Hr.
  fold name in Hm, Hr.
  unfold Manager.parseWeight, Manager.try_pattern, Manager.unless_weight.
  cbn [Item.ITEM Item.CATEGORY Item.named Manager.itemName Manager.weightInfo].
  rewrite Hname, H1. cbn [Manager.itemName Manager.weightInfo truthy negb].
  rewrite Hm, Hr. cbn [Manager.itemName Manager.weightInfo].
  rewrite !weight_div_truthy. cbn [negb andb]. reflexivity.
Qed.

Lemma manager_fl_oz_cup_in_parens_witness :
  Manager.parseWeight
    (Item.named (lit "Coffee (12 fl oz cup)") (lit "MCCAFE"))
  = Manager.mkParsed (lit "Coffee") (Manager.weight_div (lit "12 fl oz")).
Proof.
  refine (manager_fl_oz_cup_in_parens (lit "Coffee ") (lit "12") [] []
            (lit "MCCAFE") false _ _ _ _);
    first [ split; [discriminate | reflexivity]
          | vm_compute; reflexivity ].
Defined.

(** A name [<pre><K> cookie (<N> g)<post>] with no digit in [pre], on
    which none of the first four patterns matches, is displayed in every
    category, the beverage-like ones included, with the quantity
    ["<N> g"]; the count [K] and the word are cut out of the name with
    the quantity. *)
Theorem manager_cookie (pre count whole frac post category : jsstring)
    (dot : bool) :
  let N := numeral whole frac dot in
  let name := pre ++ count ++ lit " cookie (" ++ N ++ lit " g)" ++ post in
  forallb (fun c => negb (is_digit c)) pre = true ->
  digits1 count -> digits1 whole -> forallb is_digit frac = true ->
  String_match Manager.pattern1 name = None ->
  String_match Manager.pattern2 name = None ->
  String_match Manager.pattern3 name = None ->
  String_match Manager.pattern4 name = None ->
  Manager.parseWeight (Item.named name category)
  = Manager.mkParsed (trim (pre ++ post))
      (Manager.weight_div (N ++ lit " g")).
Proof.
  intros N name Hpre Hc Hw Hf H1 H2 H3 H4.
  assert (Hname : or_default name (lit "Unnamed Item") = name).
  { unfold name. now apply named_truthy. }
  destruct (search_takes _ _ pre _ post _ pattern5_starts_with_digit Hpre
              (pattern5_takes count whole frac dot post Hc Hw Hf))
    as [Hm Hr].
  fold N in Hm, Hr. rewrite <- !app_assoc in Hm, Hr.
  fold name in Hm, Hr.
  unfold Manager.parseWeight, Manager.try_pattern, Manager.unless_weight.
  cbn [Item.ITEM Item.CATEGORY Item.named Manager.itemName Manager.weightInfo].
  rewrite Hname, H1. cbn [Manager.itemName Manager.weightInfo truthy negb].
  rewrite H2. cbn [Manager.itemName Manager.weightInfo truthy negb].
  rewrite H3. cbn [Manager.itemName Manager.weightInfo truthy negb].
  rewrite H4. cbn [Manager.itemName Manager.weightInfo truthy negb].
  rewrite Hm, Hr. cbn [Manager.itemName Manager.weightInfo].
  rewrite !weight_div_truthy. cbn [negb andb]. reflexivity.
Qed.

Lemma manager_cookie_witness :
  Manager.parseWeight
    (Item.named (lit "Chocolate Chip 1 cookie (33 g)") (lit "BEVERAGE"))
  = Manager.mkParsed (lit "Chocolate Chip") (Manager.weight_div (lit "33 g")).
Proof.
  refine (manager_cookie (lit "Chocolate Chip ") (lit "1") (lit "33") [] []
            (lit "BEVERAGE") false _ _ _ _ _ _ _ _);
    first [ split; [discriminate | reflexivity]
          | vm_compute; reflexivity ].
Defined.

(** * Names that hold one quantity *)

(** ** The matcher finds a match whenever there is one *)

Lemma orelse_r (a b : option result) : b <> None -> orelse a b <> None.
Proof. destruct a; simpl; [discriminate|auto]. Qed.

Lemma orelse_l (a b : option result) : a <> None -> orelse a b <> None.
Proof. destruct a; simpl; [discriminate|contradiction]. Qed.

Lemma star_complete p (k : cont) caps s' : forall run,
  forallb p run = true -> k s' caps <> None ->
  star p (run ++ s') caps k <> None.
Proof.
  intros run Hrun Hk. induction run as [|c run IH]; simpl.
  - destruct s' as [|c s]; simpl; [exact Hk|].
    destruct (p c); [now apply orelse_r|exact Hk].
  - simpl in Hrun. apply andb_true_iff in Hrun as [Hc Hrun].
    rewrite Hc. apply orelse_l. now apply IH.
Qed.

Lemma m_complete r : forall s s' cs caps (k : cont),
  matches r s s' cs -> k s' (caps ++ cs) <> None -> m r s caps k <> None.
Proof.
  induction r as [|p|p|p|p|r1 IH1|r1 IH1 r2 IH2|];
    intros s s' cs caps k H Hk; simpl in H; simpl.
  - destruct H as [-> ->]. now rewrite app_nil_r in Hk.
  - destruct H as [(c & -> & Hc) ->]. rewrite Hc.
    now rewrite app_nil_r in Hk.
  - destruct H as [[(c & -> & Hc)| ->] ->]; rewrite app_nil_r in Hk.
    + rewrite Hc. now apply orelse_l.
    + destruct s as [|c s]; [exact Hk|].
      destruct (p c); [now apply orelse_r|exact Hk].
  - destruct H as [(run & -> & Hrun) ->]. rewrite app_nil_r in Hk.
    now apply star_complete.
  - destruct H as [(c & run & -> & Hrun) ->]. rewrite app_nil_r in Hk.
    simpl in Hrun. apply andb_true_iff in Hrun as [Hc Hrun].
    rewrite Hc. now apply star_complete.
  - destruct H as (cs1 & H & ->).
    apply (IH1 _ _ _ _ _ H). now rewrite <- app_assoc.
  - destruct H as (s1 & cs1 & cs2 & H1 & H2 & ->).
    apply (IH1 _ _ _ _ _ H1). apply (IH2 _ _ _ _ _ H2).
    now rewrite <- app_assoc.
  - destruct H as (-> & -> & ->). now rewrite app_nil_r in Hk.
Qed.

Lemma exec_at_complete r s s' cs :
  matches r s s' cs -> exec_at r s <> None.
Proof.
  intros H. unfold exec_at. apply (m_complete _ _ _ _ _ _ H). discriminate.
Qed.

(** The search stops at the first place where the pattern matches. *)
Lemma search_leftmost r : forall s acc before caps rest,
  search r acc s = Some (before, caps, rest) ->
  exists b0 s0,
    before = rev acc ++ b0 /\ s = b0 ++ s0
    /\ matches r s0 rest caps
    /\ forall b1 c b2, b0 = b1 ++ c :: b2 ->
         exec_at r (c :: b2 ++ s0) = None.
Proof.
  induction s as [|c s IH]; intros acc before caps rest H; simpl in H.
  - destruct (exec_at r []) as [[caps' rest']|] eqn:He; [|discriminate].
    inversion H; subst. exists [], []. rewrite app_nil_r.
    split; [reflexivity|]. split; [reflexivity|].
    split; [now apply exec_at_sound|]. intros b1 c b2 Hb. now destruct b1.
  - destruct (exec_at r (c :: s)) as [[caps' rest']|] eqn:He.
    + inversion H; subst. exists [], (c :: s). rewrite app_nil_r.
      split; [reflexivity|]. split; [reflexivity|].
      split; [now apply exec_at_sound|]. intros b1 c0 b2 Hb. now destruct b1.
    + apply IH in H as (b0 & s0 & -> & -> & Hm & Hleft).
      exists (c :: b0), s0. simpl. rewrite <- app_assoc.
      split; [reflexivity|]. split; [reflexivity|]. split; [exact Hm|].
      intros [|x b1] c0 b2 Hb; simpl in Hb; injection Hb as -> ->.
      * exact He.
      * now apply (Hleft b1).
Qed.

Lemma search_finds r : forall b s0 acc s' cs,
  matches r s0 s' cs -> search r acc (b ++ s0) <> None.
Proof.
  induction b as [|c b IH]; intros s0 acc s' cs H.
  - apply exec_at_complete in H. simpl.
    destruct s0 as [|c s0]; simpl;
      destruct (exec_at r _) as [[caps rest]|]; congruence.
  - simpl. destruct (exec_at r (c :: b ++ s0)) as [[caps rest]|];
      [discriminate|]. now apply (IH _ _ _ _ H).
Qed.

Lemma String_match_finds r b s0 s' cs :
  matches r s0 s' cs -> String_match r (b ++ s0) <> None.
Proof.
  intros H. unfold String_match.
  pose proof (search_finds r b s0 [] s' cs H) as Hs.
  destruct (search r [] (b ++ s0)) as [[[x y] z]|]; [discriminate|].
  contradiction.
Qed.

(** ** Sequences *)

Lemma matches_seq_app l1 : forall l2 s a cs,
  matches (seq (l1 ++ l2)) s a cs
  <-> exists s1 cs1 cs2,
        matches (seq l1) s s1 cs1 /\ matches (seq l2) s1 a cs2
        /\ cs = cs1 ++ cs2.
Proof.
  induction l1 as [|r l1 IH]; intros l2 s a cs.
  - change (seq ([] ++ l2)) with (seq l2). split.
    + intros H. exists s, [], cs. split; [now split|]. now split.
    + intros (s1 & cs1 & cs2 & [-> ->] & H & ->). exact H.
  - change (seq ((r :: l1) ++ l2)) with (Cat r (seq (l1 ++ l2))).
    change (seq (r :: l1)) with (Cat r (seq l1)). split.
    + intros (s1 & c1 & c2 & H1 & H2 & ->).
      apply IH in H2 as (s2 & c3 & c4 & H2 & H3 & ->).
      exists s2, (c1 ++ c3), c4. split.
      * exists s1, c1, c3. auto.
      * split; [exact H3|]. now rewrite app_assoc.
    + intros (s2 & c13 & c4 & (s1 & c1 & c3 & H1 & H2 & ->) & H3 & ->).
      exists s1, c1, (c3 ++ c4). split; [exact H1|].
      split; [|now rewrite app_assoc].
      apply IH. exists s2, c3, c4. auto.
Qed.

Lemma no_numeral_app a b :
  no_numeral (a ++ b) <-> no_numeral a /\ no_numeral b.
Proof. unfold no_numeral. rewrite forallb_app. apply andb_true_iff. Qed.

Lemma class_no_numeral (p : N -> bool) run :
  (forall c, p c = true -> digit_or_dot c = false) ->
  forallb p run = true -> no_numeral run.
Proof.
  intros Hp. unfold no_numeral. rewrite !forallb_forall.
  intros H c Hc. now rewrite (Hp c (H c Hc)).
Qed.

Lemma nonum_sound r : forall s s' cs,
  nonum r -> matches r s s' cs -> exists u, s = u ++ s' /\ no_numeral u.
Proof.
  induction r as [|p|p|p|p|r1 IH1|r1 IH1 r2 IH2|]; simpl;
    intros s s' cs Hn H.
  - destruct H as [-> _]. now exists [].
  - destruct H as [(c & -> & Hc) _]. exists [c]. split; [reflexivity|].
    unfold no_numeral. simpl. now rewrite (Hn c Hc).
  - destruct H as [[(c & -> & Hc)| ->] _]; [|now exists []].
    exists [c]. split; [reflexivity|].
    unfold no_numeral. simpl. now rewrite (Hn c Hc).
  - destruct H as [(run & -> & Hrun) _]. exists run.
    split; [reflexivity|]. now apply (class_no_numeral p).
  - destruct H as [(c & run & -> & Hrun) _]. exists (c :: run).
    split; [reflexivity|]. now apply (class_no_numeral p).
  - contradiction.
  - destruct Hn as [Hn1 Hn2]. destruct H as (s1 & cs1 & cs2 & H1 & H2 & _).
    destruct (IH1 _ _ _ Hn1 H1) as (u1 & -> & Hu1).
    destruct (IH2 _ _ _ Hn2 H2) as (u2 & -> & Hu2).
    exists (u1 ++ u2). rewrite <- app_assoc. split; [reflexivity|].
    now apply no_numeral_app.
  - destruct H as (-> & -> & _). now exists [].
Qed.

Lemma nonum_seq l : Forall nonum l -> nonum (seq l).
Proof.
  induction l as [|r l IH]; intros H; [exact I|].
  apply Forall_cons in H as [Hr Hl]. split; [exact Hr|now apply IH].
Qed.

(** *** The letter after a numeral *)

Lemma lead_eq ws : forall ws' l l' R R',
  forallb is_space ws = true -> forallb is_space ws' = true ->
  is_space l = false -> is_space l' = false ->
  ws ++ l :: R = ws' ++ l' :: R' -> l = l'.
Proof.
  induction ws as [|c ws IH]; intros [|c' ws'] l l' R R' Hw Hw' Hl Hl' H;
    simpl in *.
  - now injection H.
  - injection H as -> _. apply andb_true_iff in Hw' as [Hc _]. congruence.
  - injection H as -> _. apply andb_true_iff in Hw as [Hc _]. congruence.
  - injection H as _ H. apply andb_true_iff in Hw as [_ Hw].
    apply andb_true_iff in Hw' as [_ Hw']. now apply (IH ws' l l' R R').
Qed.

(** *** Where a numeral of a match lies in the name *)

Lemma nums1_head g : nums1 g -> exists c g', g = c :: g' /\ digit_or_dot c = true.
Proof.
  intros [Hne Hg]. destruct g as [|c g']; [contradiction|].
  unfold nums in Hg. simpl in Hg. apply andb_true_iff in Hg as [Hc _].
  exists c, g'. auto.
Qed.

Lemma no_numeral_has_nums a g b : no_numeral (a ++ g ++ b) -> nums1 g -> False.
Proof.
  intros H Hg. apply no_numeral_app in H as [_ H].
  apply no_numeral_app in H as [H _].
  destruct (nums1_head g Hg) as (c & g' & -> & Hc).
  unfold no_numeral in H. simpl in H. rewrite Hc in H. discriminate H.
Qed.

Lemma skip_plain z : forall X g t s,
  no_numeral z -> nums1 g -> X ++ g ++ t = z ++ s ->
  exists X', X = z ++ X' /\ X' ++ g ++ t = s.
Proof.
  induction z as [|a z IH]; intros X g t s Hz Hg H.
  - exists X. auto.
  - unfold no_numeral in Hz. simpl in Hz.
    apply andb_true_iff in Hz as [Ha Hz]. apply negb_true_iff in Ha.
    destruct X as [|x X]; simpl in H.
    + destruct (nums1_head g Hg) as (c & g' & -> & Hc).
      simpl in H. injection H as -> _. congruence.
    + injection H as -> H.
      destruct (IH _ _ _ _ Hz Hg H) as (X' & -> & H').
      exists X'. auto.
Qed.

Lemma run_whole g : forall r y Y w,
  nums1 g -> digit_or_dot y = false -> nums r -> r <> [] ->
  stops digit_or_dot w ->
  g ++ y :: Y = r ++ w -> g = r /\ y :: Y = w.
Proof.
  induction g as [|c g IH]; intros r y Y w [Hne Hg] Hy Hr Hrne Hw H;
    [contradiction|].
  destruct r as [|a r]; [contradiction|].
  simpl in H. injection H as -> H.
  unfold nums in Hg, Hr. simpl in Hg, Hr.
  apply andb_true_iff in Hg as [_ Hg]. apply andb_true_iff in Hr as [_ Hr].
  destruct g as [|c' g].
  - simpl in H. destruct r as [|a' r]; simpl in H.
    + now subst w.
    + injection H as -> _. simpl in Hr.
      apply andb_true_iff in Hr as [Ha _]. congruence.
  - destruct r as [|a' r].
    + simpl in H. subst w. simpl in Hw. simpl in Hg.
      apply andb_true_iff in Hg as [Hc' _]. congruence.
    + assert (Hg1 : nums1 (c' :: g)) by (split; [discriminate|exact Hg]).
      assert (Hr1 : a' :: r <> []) by discriminate.
      destruct (IH (a' :: r) y Y w Hg1 Hy Hr Hr1 Hw H) as [E1 E2].
      split; [now rewrite E1|exact E2].
Qed.

Lemma run_inside r : forall X g y Y w,
  nums r -> nums1 g -> digit_or_dot y = false -> stops digit_or_dot w ->
  X ++ g ++ y :: Y = r ++ w ->
  (exists ra, X = ra /\ r = ra ++ g /\ y :: Y = w)
  \/ (exists X', X = r ++ X' /\ X' ++ g ++ y :: Y = w).
Proof.
  induction r as [|a r IH]; intros X g y Y w Hr Hg Hy Hw H.
  - right. exists X. auto.
  - destruct X as [|x X].
    + left. simpl in H.
      destruct (run_whole g (a :: r) y Y w Hg Hy Hr) as [E1 E2];
        [discriminate|exact Hw|exact H|].
      exists []. auto.
    + simpl in H. injection H as -> H.
      unfold nums in Hr. simpl in Hr. apply andb_true_iff in Hr as [_ Hr].
      destruct (IH _ _ _ _ _ Hr Hg Hy Hw H)
        as [(ra & -> & -> & E)|(X' & -> & E)].
      * left. exists (a :: ra). auto.
      * right. exists X'. auto.
Qed.

(** A numeral of the match, followed by a code unit that is none, ends
    where the run [r] of the name ends, or lies behind it. *)
Lemma run_align z r w X g y Y :
  no_numeral z -> nums r -> stops digit_or_dot w ->
  nums1 g -> digit_or_dot y = false ->
  X ++ g ++ y :: Y = z ++ r ++ w ->
  (exists ra, X = z ++ ra /\ r = ra ++ g /\ y :: Y = w)
  \/ (exists X', X = z ++ r ++ X' /\ X' ++ g ++ y :: Y = w).
Proof.
  intros Hz Hr Hw Hg Hy H.
  destruct (skip_plain _ _ _ _ _ Hz Hg H) as (X0 & -> & H0).
  destruct (run_inside _ _ _ _ _ _ Hr Hg Hy Hw H0)
    as [(ra & -> & -> & E)|(X' & -> & E)].
  - left. exists ra. auto.
  - right. exists X'. auto.
Qed.

(** The text before a numeral of the match ends before the run, when it
    ends with a code unit that is no numeral. *)
Lemma plain_end (X y0 Z ra : jsstring) :
  y0 <> [] -> no_numeral y0 -> nums ra -> X ++ y0 = Z ++ ra -> ra = [].
Proof.
  intros Hne Hy Hra H.
  destruct (rev ra) as [|f ra'] eqn:Hr.
  - apply (f_equal (@rev N)) in Hr. now rewrite rev_involutive in Hr.
  - exfalso. destruct (rev y0) as [|e y0'] eqn:Hy0.
    + apply (f_equal (@rev N)) in Hy0. now rewrite rev_involutive in Hy0.
    + apply (f_equal (@rev N)) in Hr, Hy0.
      rewrite rev_involutive in Hr, Hy0. simpl in Hr, Hy0. subst ra y0.
      rewrite !app_assoc in H. apply app_inj_tail in H as [_ ->].
      apply no_numeral_app in Hy as [_ Hy].
      unfold no_numeral in Hy. simpl in Hy.
      unfold nums in Hra. rewrite forallb_app in Hra. simpl in Hra.
      apply andb_true_iff in Hra as [_ Hra].
      apply andb_true_iff in Hra as [Hf _]. rewrite Hf in Hy.
      discriminate Hy.
Qed.

(** ** The shapes of the patterns *)

Lemma manager_shapes_patterns : List.map re_of manager_shapes = manager_patterns.
Proof. reflexivity. Qed.

Lemma public_shapes_patterns : List.map re_of public_shapes = public_patterns.
Proof. reflexivity. Qed.

Lemma letter_cases x c : letter x c = true -> c = x \/ c = x - 32.
Proof.
  unfold letter. intros H. apply orb_true_iff in H as [H|H];
    apply N.eqb_eq in H; auto.
Qed.

Lemma plain_letter c :
  65 <= c <= 122 -> is_space c = false /\ digit_or_dot c = false.
Proof.
  intros Hc. unfold is_space, digit_or_dot, is_digit.
  repeat match goal with
         | |- context [?a <=? ?b] =>
             destruct (N.leb_spec a b); try lia
         | |- context [?a =? ?b] =>
             destruct (N.eqb_spec a b); try lia
         end; auto.
Qed.

Lemma lead_letter x : 97 <= x <= 122 -> lead_class (letter x).
Proof.
  intros Hx c Hc. apply plain_letter.
  destruct (letter_cases _ _ Hc) as [-> | ->]; lia.
Qed.

Lemma lead_eqb x : 65 <= x <= 122 -> lead_class (N.eqb x).
Proof.
  intros Hx c Hc. apply N.eqb_eq in Hc. subst c. now apply plain_letter.
Qed.

Lemma plain_lparen c : is_lparen c = true -> digit_or_dot c = false.
Proof. unfold is_lparen. intros H. apply N.eqb_eq in H. now subst c. Qed.

Lemma plain_rparen c : is_rparen c = true -> digit_or_dot c = false.
Proof. unfold is_rparen. intros H. apply N.eqb_eq in H. now subst c. Qed.

(** The classes of a pattern outside its numerals, told apart by
    syntax. *)
Ltac plain_class :=
  let c := fresh "c" in
  let Hc := fresh "Hc" in
  intros c Hc;
  lazymatch type of Hc with
  | is_space _ = true => exact (space_not_numeral _ Hc)
  | is_lparen _ = true => exact (plain_lparen _ Hc)
  | is_rparen _ = true => exact (plain_rparen _ Hc)
  | letter ?x _ = true =>
      exact (proj2 (lead_letter x ltac:(lia) _ Hc))
  | N.eqb ?x _ = true =>
      exact (proj2 (lead_eqb x ltac:(lia) _ Hc))
  end.

Ltac plain_list :=
  repeat first [ apply List.Forall_nil
               | apply List.Forall_cons; [cbn [nonum]; first [exact I|plain_class]|] ].

(** *** The numerals *)

Lemma digits_nums g : digits1 g -> nums1 g.
Proof.
  intros [Hne Hd]. split; [exact Hne|].
  unfold nums. rewrite forallb_forall in *. intros c Hc.
  apply digit_is_numeral. now apply Hd.
Qed.

Lemma numeral_nums g : numeral_shaped g -> nums1 g.
Proof.
  intros (whole & frac & dot & -> & [Hne Hw] & Hf). split.
  - unfold numeral. destruct whole; [contradiction|discriminate].
  - unfold nums, numeral. rewrite forallb_app. apply andb_true_iff. split.
    + rewrite forallb_forall in *. intros c Hc.
      apply digit_is_numeral. now apply Hw.
    + destruct dot; [|reflexivity]. simpl.
      rewrite forallb_forall in *. intros c Hc.
      apply digit_is_numeral. now apply Hf.
Qed.

Lemma class_grp G K : group_class G K -> group_class (Grp G) K.
Proof.
  intros [Hs Hb Hn]. split.
  - intros s s' cs (cs1 & H & _). exact (Hs _ _ _ H).
  - intros r s' Hr. destruct (Hb r s' Hr) as [cs H].
    eexists. exists cs. split; [exact H|reflexivity].
  - exact Hn.
Qed.

Lemma class_digits : group_class (Plus is_digit) digits1.
Proof.
  split.
  - intros s s' cs [(c & run & -> & Hrun) _]. exists (c :: run).
    split; [reflexivity|]. split; [discriminate|exact Hrun].
  - intros r s' [Hne Hr]. destruct r as [|c run]; [contradiction|].
    exists []. split; [|reflexivity]. exists c, run. auto.
  - exact digits_nums.
Qed.

Lemma class_nums : group_class (Plus digit_or_dot) nums1.
Proof.
  split.
  - intros s s' cs [(c & run & -> & Hrun) _]. exists (c :: run).
    split; [reflexivity|]. split; [discriminate|exact Hrun].
  - intros r s' [Hne Hr]. destruct r as [|c run]; [contradiction|].
    exists []. split; [|reflexivity]. exists c, run. auto.
  - auto.
Qed.

Lemma class_numeral : group_class Num numeral_shaped.
Proof.
  split.
  - unfold Num. cbn [seq fold_right]. simpl.
    intros s s' cs
      (s1 & c1 & c2 & [(c & run & Hs & Hrun) _]
       & (s2 & c3 & c4 & [Hopt _]
          & (s3 & c5 & c6 & [(run2 & Hs2 & Hrun2) _] & [Hs3 _] & _) & _) & _).
    subst s3. subst s2. subst s.
    destruct Hopt as [(d & Hs1 & Hd)|Hs1].
    + apply N.eqb_eq in Hd. subst d. subst s1.
      exists (numeral (c :: run) run2 true). unfold numeral.
      split; [now rewrite <- app_assoc|].
      exists (c :: run), run2, true.
      split; [reflexivity|]. split; [|exact Hrun2].
      split; [discriminate|exact Hrun].
    + subst s1.
      exists (numeral ((c :: run) ++ run2) [] false). unfold numeral.
      split; [now rewrite app_nil_r, <- app_assoc|].
      exists ((c :: run) ++ run2), [], false.
      split; [reflexivity|]. split; [|reflexivity].
      split; [discriminate|].
      rewrite forallb_app. simpl. simpl in Hrun. now rewrite Hrun, Hrun2.
  - intros r s' (whole & frac & dot & -> & [Hne Hw] & Hf).
    destruct whole as [|c run]; [contradiction|].
    unfold Num. cbn [seq fold_right]. simpl. eexists.
    exists ((if dot then 46 :: frac else []) ++ s'), [], [].
    split.
    { split; [|reflexivity]. exists c, run. split; [|exact Hw].
      unfold numeral. simpl. now rewrite <- app_assoc. }
    split; [|reflexivity].
    destruct dot.
    + exists (frac ++ s'), [], [].
      split; [split; [|reflexivity]; left; exists 46; auto|].
      split; [|reflexivity].
      exists s', [], [].
      split; [split; [|reflexivity]; exists frac; auto|].
      split; [split; reflexivity|reflexivity].
    + exists s', [], [].
      split; [split; [|reflexivity]; right; reflexivity|].
      split; [|reflexivity].
      exists s', [], [].
      split; [split; [|reflexivity]; exists []; auto|].
      split; [split; reflexivity|reflexivity].
  - exact numeral_nums.
Qed.

(** *** What stands before the first numeral *)

Lemma demands_cls q : demands q (Cls q).
Proof. intros s s' cs [(c & -> & Hc) _]. exists [], c, []. auto. Qed.

Lemma demands_never_empty q l : demands q (seq l) -> never_empty l.
Proof.
  intros Hd s s' cs H. apply Hd in H as (a & c & b & -> & _).
  intros Heq. apply (f_equal (@length N)) in Heq.
  rewrite !length_app in Heq. simpl in Heq. rewrite length_app in Heq. lia.
Qed.

Lemma never_empty_paren : never_empty [Cls is_lparen].
Proof.
  apply (demands_never_empty is_lparen). cbn [seq fold_right].
  apply demands_cat_l, demands_cls.
Qed.

Lemma never_empty_space_paren : never_empty [Star is_space; Cls is_lparen].
Proof.
  apply (demands_never_empty is_lparen). cbn [seq fold_right].
  apply demands_cat_r, demands_cat_l, demands_cls.
Qed.

Lemma never_empty_spaces : never_empty [Plus is_space].
Proof.
  apply (demands_never_empty is_space). cbn [seq fold_right].
  apply demands_cat_l, demands_plus. auto.
Qed.

Lemma matches_empty_nil : matches_empty [].
Proof. intros s. exists []. now split. Qed.

Lemma matches_empty_star p : matches_empty [Star p].
Proof.
  intros s. exists []. exists s, [], [].
  split; [split; [exists []; auto|reflexivity]|].
  split; [now split|reflexivity].
Qed.

Lemma matches_empty_opt_star p q : matches_empty [Opt p; Star q].
Proof.
  intros s. exists []. exists s, [], [].
  split; [split; [now right|reflexivity]|].
  split; [|reflexivity].
  destruct (matches_empty_star q s) as [cs H].
  assert (cs = []) as ->.
  { destruct H as (s1 & c1 & c2 & [_ ->] & [_ ->] & ->). reflexivity. }
  exact H.
Qed.

Ltac shaped :=
  lazymatch goal with
  | |- Forall nonum _ => plain_list
  | |- never_empty _ \/ matches_empty _ =>
      first [ left; first [ exact never_empty_paren
                          | exact never_empty_space_paren
                          | exact never_empty_spaces ]
            | right; first [ exact matches_empty_nil
                           | apply matches_empty_star
                           | apply matches_empty_opt_star ] ]
  | |- group_class (Grp _) _ => apply class_grp; shaped
  | |- group_class Num _ => exact class_numeral
  | |- group_class (Plus is_digit) _ => exact class_digits
  | |- group_class (Plus digit_or_dot) _ => exact class_nums
  | |- lead_class (letter _) => apply lead_letter; lia
  | |- lead_class (N.eqb _) => apply lead_eqb; lia
  end.

Lemma manager_well_shaped : Forall well_shaped manager_shapes.
Proof.
  unfold manager_shapes, shape1, shape2, shape3, shape4, shape5, shape6.
  repeat apply List.Forall_cons; try apply List.Forall_nil;
    cbn [well_shaped]; repeat apply conj; shaped.
Qed.

Lemma public_well_shaped : Forall well_shaped public_shapes.
Proof.
  unfold public_shapes, label1, label2, label3, label4, label5.
  repeat apply List.Forall_cons; try apply List.Forall_nil;
    cbn [well_shaped]; repeat apply conj; shaped.
Qed.

(** *** Which patterns can meet at a numeral *)

Ltac apart H1 H2 :=
  first [ apply letter_cases in H1 as [H1|H1]
        | apply N.eqb_eq in H1; symmetry in H1 ];
  rewrite H1 in H2; vm_compute in H2; discriminate H2.

Ltac agreeing :=
  unfold agree; cbn [first_lead first_kind]; split;
  [ first [ solve [ let c := fresh in let r := fresh in let Hr := fresh in
                  intros c _ _ r Hr; exact Hr ]
          | let c := fresh "c" in
            let H1 := fresh "H1" in
            let H2 := fresh "H2" in
            intros c H1 H2; exfalso; apart H1 H2 ]
  | first [ exact I
          | let c := fresh "c" in
            let H := fresh "H" in
            intros c H; apply letter_cases in H as [H|H]; rewrite H;
            split; reflexivity ] ].

Lemma manager_agree earlier j later p :
  manager_shapes = earlier ++ j :: later -> In p (j :: later) -> agree j p.
Proof.
  unfold manager_shapes. intros H Hp.
  do 6 (destruct earlier as [|? earlier];
        [ injection H as <- <-; simpl in Hp;
          repeat (destruct Hp as [<-|Hp]); try contradiction;
          unfold shape1, shape2, shape3, shape4, shape5, shape6; agreeing
        | injection H as _ H ]).
  destruct earlier; discriminate H.
Qed.

Lemma public_agree earlier j later p :
  public_shapes = earlier ++ j :: later -> In p (j :: later) -> agree j p.
Proof.
  unfold public_shapes. intros H Hp.
  do 5 (destruct earlier as [|? earlier];
        [ injection H as <- <-; simpl in Hp;
          repeat (destruct Hp as [<-|Hp]); try contradiction;
          unfold label1, label2, label3, label4, label5; agreeing
        | injection H as _ H ]).
  destruct earlier; discriminate H.
Qed.

(** ** Where a match lies in a name that holds one quantity *)

Lemma head_view pre G K rest x a cs :
  Forall nonum pre -> group_class G K ->
  matches (seq (pre ++ G :: rest)) x a cs ->
  exists y0 g tl c0 c1,
    x = y0 ++ g ++ tl /\ no_numeral y0 /\ K g
    /\ matches (seq pre) x (g ++ tl) c0 /\ matches (seq rest) tl a c1.
Proof.
  intros Hpre HG H.
  apply matches_seq_app in H as (s1 & cs1 & cs2 & H1 & H2 & _).
  change (seq (G :: rest)) with (Cat G (seq rest)) in H2.
  destruct H2 as (s2 & c2 & c3 & H2 & H3 & _).
  destruct (nonum_sound _ _ _ _ (nonum_seq _ Hpre) H1) as (y0 & Hx & Hy0).
  destruct (grp_sound _ _ HG _ _ _ H2) as (g & Hs1 & Hg).
  subst s1. exists y0, g, s2, cs1, c3.
  split; [exact Hx|]. split; [exact Hy0|]. split; [exact Hg|].
  split; [exact H1|exact H3].
Qed.

Lemma lead_split L rest x a cs :
  matches (seq (Star is_space :: Cls L :: rest)) x a cs ->
  exists ws l x' cs',
    x = ws ++ l :: x' /\ forallb is_space ws = true /\ L l = true
    /\ matches (seq rest) x' a cs'.
Proof.
  intros H.
  change (seq (Star is_space :: Cls L :: rest))
    with (Cat (Star is_space) (Cat (Cls L) (seq rest))) in H.
  destruct H as (s1 & c1 & c2 & [(ws & -> & Hws) _] & H & _).
  destruct H as (s2 & c3 & c4 & [(l & -> & Hl) _] & H & _).
  exists ws, l, s2, c4. auto.
Qed.

Lemma nonum_tail tail x a cs :
  Forall nonum tail -> matches (seq tail) x a cs ->
  exists t, x = t ++ a /\ no_numeral t.
Proof. intros Ht H. exact (nonum_sound _ _ _ _ (nonum_seq _ Ht) H). Qed.

Lemma one_view pre G K L tail x a cs :
  well_shaped (One pre G K L tail) ->
  matches (one pre G L tail) x a cs ->
  exists y0 g ws l t c0 c1,
    x = y0 ++ g ++ ws ++ l :: t ++ a
    /\ no_numeral y0 /\ K g /\ forallb is_space ws = true
    /\ L l = true /\ no_numeral t
    /\ matches (seq pre) x (g ++ ws ++ l :: t ++ a) c0
    /\ matches (seq (Star is_space :: Cls L :: tail)) (ws ++ l :: t ++ a) a c1.
Proof.
  intros (Hpre & _ & HG & HL & Htail) H. unfold one in H.
  destruct (head_view _ _ _ _ _ _ _ Hpre HG H)
    as (y0 & g & tl & c0 & c1 & Hx & Hy0 & Hg & H0 & H1).
  destruct (lead_split _ _ _ _ _ H1) as (ws & l & x' & c2 & Htl & Hws & Hl & H2).
  destruct (nonum_tail _ _ _ _ Htail H2) as (t & Hx' & Ht).
  subst x' tl. exists y0, g, ws, l, t, c0, c1.
  repeat (split; [assumption|]). assumption.
Qed.

Lemma two_view pre G1 K1 L1 mid G2 K2 L2 tail x a cs :
  well_shaped (Two pre G1 K1 L1 mid G2 K2 L2 tail) ->
  matches (two pre G1 L1 mid G2 L2 tail) x a cs ->
  exists y0 g ws l t1 g2 ws2 l2 t2 c0 c1,
    x = y0 ++ g ++ ws ++ l :: t1 ++ g2 ++ ws2 ++ l2 :: t2 ++ a
    /\ no_numeral y0 /\ K1 g /\ forallb is_space ws = true
    /\ L1 l = true /\ no_numeral t1 /\ K2 g2
    /\ forallb is_space ws2 = true /\ L2 l2 = true /\ no_numeral t2
    /\ matches (seq pre) x
         (g ++ ws ++ l :: t1 ++ g2 ++ ws2 ++ l2 :: t2 ++ a) c0
    /\ matches
         (seq (Star is_space :: Cls L1
                 :: mid ++ G2 :: Star is_space :: Cls L2 :: tail))
         (ws ++ l :: t1 ++ g2 ++ ws2 ++ l2 :: t2 ++ a) a c1.
Proof.
  intros (Hpre & _ & HG1 & HL1 & Hmid & HG2 & HL2 & Htail) H. unfold two in H.
  destruct (head_view _ _ _ _ _ _ _ Hpre HG1 H)
    as (y0 & g & tl & c0 & c1 & Hx & Hy0 & Hg & H0 & H1).
  destruct (lead_split _ _ _ _ _ H1) as (ws & l & x' & c2 & Htl & Hws & Hl & H2).
  destruct (head_view _ _ _ _ _ _ _ Hmid HG2 H2)
    as (t1 & g2 & tl2 & c3 & c4 & Hx' & Ht1 & Hg2 & _ & H3).
  destruct (lead_split _ _ _ _ _ H3)
    as (ws2 & l2 & x2 & c5 & Htl2 & Hws2 & Hl2 & H4).
  destruct (nonum_tail _ _ _ _ Htail H4) as (t2 & Hx2 & Ht2).
  subst x2 tl2 x' tl. exists y0, g, ws, l, t1, g2, ws2, l2, t2, c0, c1.
  repeat (split; [assumption|]). assumption.
Qed.

(** *** Lists *)

Lemma spaces_plain ws : forallb is_space ws = true -> no_numeral ws.
Proof. apply class_no_numeral. exact space_not_numeral. Qed.

Lemma led_head ws l rest :
  forallb is_space ws = true -> digit_or_dot l = false ->
  exists y Y, ws ++ l :: rest = y :: Y /\ digit_or_dot y = false.
Proof.
  intros Hws Hl. destruct ws as [|c ws]; simpl.
  - exists l, rest. auto.
  - simpl in Hws. apply andb_true_iff in Hws as [Hc _].
    exists c, (ws ++ l :: rest). split; [reflexivity|].
    now apply space_not_numeral.
Qed.

Lemma led_stops ws l rest :
  forallb is_space ws = true -> digit_or_dot l = false ->
  stops digit_or_dot (ws ++ l :: rest).
Proof.
  intros Hws Hl. destruct (led_head ws l rest Hws Hl) as (y & Y & -> & Hy).
  exact Hy.
Qed.

Lemma led_plain ws l t :
  forallb is_space ws = true -> digit_or_dot l = false -> no_numeral t ->
  no_numeral (ws ++ l :: t).
Proof.
  intros Hws Hl Ht. apply no_numeral_app. split; [now apply spaces_plain|].
  unfold no_numeral in *. simpl. now rewrite Hl, Ht.
Qed.

Lemma run_align_led z r w X g ws l rest :
  no_numeral z -> nums r -> stops digit_or_dot w -> nums1 g ->
  forallb is_space ws = true -> digit_or_dot l = false ->
  X ++ g ++ ws ++ l :: rest = z ++ r ++ w ->
  (exists ra, X = z ++ ra /\ r = ra ++ g /\ ws ++ l :: rest = w)
  \/ (exists X', X = z ++ r ++ X' /\ X' ++ g ++ ws ++ l :: rest = w).
Proof.
  intros Hz Hr Hw Hg Hws Hl H.
  destruct (led_head ws l rest Hws Hl) as (y & Y & E & Hy).
  rewrite E in *. now apply run_align.
Qed.

(** The match has one numeral, and the name one. *)
Lemma settle11 X g ws l t z0 r1 wsp lp tp :
  X ++ g ++ ws ++ l :: t = z0 ++ r1 ++ wsp ++ lp :: tp ->
  no_numeral z0 -> nums r1 -> nums1 g ->
  forallb is_space ws = true ->
  is_space l = false /\ digit_or_dot l = false ->
  forallb is_space wsp = true ->
  is_space lp = false /\ digit_or_dot lp = false ->
  no_numeral tp ->
  exists ra, X = z0 ++ ra /\ r1 = ra ++ g /\ l = lp /\ no_numeral t.
Proof.
  intros H Hz0 Hr1 Hg Hws [Hl1 Hl2] Hwsp [Hlp1 Hlp2] Htp.
  pose proof (led_plain _ _ _ Hwsp Hlp2 Htp) as Hw.
  destruct (run_align_led _ _ _ _ _ _ _ _ Hz0 Hr1
              (led_stops _ _ tp Hwsp Hlp2) Hg Hws Hl2 H)
    as [(ra & HX & Hr & E)|(X' & _ & E)].
  - exists ra. split; [exact HX|]. split; [exact Hr|].
    split; [exact (lead_eq _ _ _ _ _ _ Hws Hwsp Hl1 Hlp1 E)|].
    rewrite <- E in Hw. apply no_numeral_app in Hw as [_ Hw].
    change (l :: t) with ([l] ++ t) in Hw.
    now apply no_numeral_app in Hw.
  - exfalso. rewrite <- E in Hw. exact (no_numeral_has_nums _ _ _ Hw Hg).
Qed.

(** The match has two numerals, and the name one. *)
Lemma settle21 X g ws l t1 g2 tl2 z0 r1 wsp lp tp :
  X ++ g ++ ws ++ l :: t1 ++ g2 ++ tl2 = z0 ++ r1 ++ wsp ++ lp :: tp ->
  no_numeral z0 -> nums r1 -> nums1 g ->
  forallb is_space ws = true -> digit_or_dot l = false -> nums1 g2 ->
  forallb is_space wsp = true -> digit_or_dot lp = false ->
  no_numeral tp ->
  False.
Proof.
  intros H Hz0 Hr1 Hg Hws Hl Hg2 Hwsp Hlp Htp.
  pose proof (led_plain _ _ _ Hwsp Hlp Htp) as Hw.
  destruct (run_align_led _ _ _ _ _ _ _ _ Hz0 Hr1
              (led_stops _ _ tp Hwsp Hlp) Hg Hws Hl H)
    as [(ra & _ & _ & E)|(X' & _ & E)].
  - rewrite <- E in Hw.
    change (ws ++ l :: t1 ++ g2 ++ tl2)
      with (ws ++ (l :: t1) ++ g2 ++ tl2) in Hw.
    rewrite app_assoc in Hw. exact (no_numeral_has_nums _ _ _ Hw Hg2).
  - rewrite <- E in Hw. exact (no_numeral_has_nums _ _ _ Hw Hg).
Qed.

(** The match has one numeral, and the name two: the letter of the match
    is one of the two letters of the name. *)
Lemma settle12 X g ws l t z0 r1 wsp1 lp1 tp1 r2 wsp2 lp2 tp2 :
  X ++ g ++ ws ++ l :: t
  = z0 ++ r1 ++ wsp1 ++ lp1 :: tp1 ++ r2 ++ wsp2 ++ lp2 :: tp2 ->
  no_numeral z0 -> nums r1 -> nums1 g ->
  forallb is_space ws = true ->
  is_space l = false /\ digit_or_dot l = false ->
  forallb is_space wsp1 = true ->
  is_space lp1 = false /\ digit_or_dot lp1 = false ->
  no_numeral tp1 -> nums r2 ->
  forallb is_space wsp2 = true ->
  is_space lp2 = false /\ digit_or_dot lp2 = false ->
  no_numeral tp2 ->
  l = lp1 \/ l = lp2.
Proof.
  intros H Hz0 Hr1 Hg Hws [Hl1 Hl2] Hwsp1 [Hlp1 Hlp1'] Htp1 Hr2
    Hwsp2 [Hlp2 Hlp2'] Htp2.
  pose proof (led_plain _ _ _ Hwsp2 Hlp2' Htp2) as Hz2.
  destruct (run_align_led _ _ _ _ _ _ _ _ Hz0 Hr1
              (led_stops _ _ _ Hwsp1 Hlp1') Hg Hws Hl2 H)
    as [(ra & _ & _ & E)|(X' & _ & E)].
  - left. exact (lead_eq _ _ _ _ _ _ Hws Hwsp1 Hl1 Hlp1 E).
  - change (wsp1 ++ lp1 :: tp1 ++ r2 ++ wsp2 ++ lp2 :: tp2)
      with (wsp1 ++ (lp1 :: tp1) ++ r2 ++ wsp2 ++ lp2 :: tp2) in E.
    rewrite (app_assoc wsp1) in E.
    assert (Hz1 : no_numeral (wsp1 ++ lp1 :: tp1))
      by now apply led_plain.
    destruct (run_align_led _ _ _ _ _ _ _ _ Hz1 Hr2
                (led_stops _ _ _ Hwsp2 Hlp2') Hg Hws Hl2 E)
      as [(ra & _ & _ & E2)|(X2 & _ & E2)].
    + right. exact (lead_eq _ _ _ _ _ _ Hws Hwsp2 Hl1 Hlp2 E2).
    + exfalso. rewrite <- E2 in Hz2.
      exact (no_numeral_has_nums _ _ _ Hz2 Hg).
Qed.

(** The match has two numerals, and the name two. *)
Lemma settle22 X g ws l t1 g2 ws2 l2 t2 z0 r1 wsp1 lp1 tp1 r2 wsp2 lp2 tp2 :
  X ++ g ++ ws ++ l :: t1 ++ g2 ++ ws2 ++ l2 :: t2
  = z0 ++ r1 ++ wsp1 ++ lp1 :: tp1 ++ r2 ++ wsp2 ++ lp2 :: tp2 ->
  no_numeral z0 -> nums r1 -> nums1 g ->
  forallb is_space ws = true ->
  is_space l = false /\ digit_or_dot l = false ->
  nums1 g2 -> forallb is_space ws2 = true -> digit_or_dot l2 = false ->
  forallb is_space wsp1 = true ->
  is_space lp1 = false /\ digit_or_dot lp1 = false ->
  no_numeral tp1 -> nums r2 ->
  forallb is_space wsp2 = true -> digit_or_dot lp2 = false ->
  no_numeral tp2 ->
  exists ra, X = z0 ++ ra /\ r1 = ra ++ g /\ l = lp1 /\ no_numeral t2.
Proof.
  intros H Hz0 Hr1 Hg Hws [Hl1 Hl2] Hg2 Hws2 Hl2' Hwsp1 [Hlp1 Hlp1'] Htp1
    Hr2 Hwsp2 Hlp2 Htp2.
  pose proof (led_plain _ _ _ Hwsp2 Hlp2 Htp2) as Hz2.
  assert (Hz1 : no_numeral (wsp1 ++ lp1 :: tp1)) by now apply led_plain.
  destruct (run_align_led _ _ _ _ _ _ _ _ Hz0 Hr1
              (led_stops _ _ _ Hwsp1 Hlp1') Hg Hws Hl2 H)
    as [(ra & HX & Hr & E)|(X' & _ & E)].
  - exists ra. split; [exact HX|]. split; [exact Hr|].
    split; [exact (lead_eq _ _ _ _ _ _ Hws Hwsp1 Hl1 Hlp1 E)|].
    change (ws ++ l :: t1 ++ g2 ++ ws2 ++ l2 :: t2)
      with (ws ++ (l :: t1) ++ g2 ++ ws2 ++ l2 :: t2) in E.
    rewrite (app_assoc ws) in E.
    change (wsp1 ++ lp1 :: tp1 ++ r2 ++ wsp2 ++ lp2 :: tp2)
      with (wsp1 ++ (lp1 :: tp1) ++ r2 ++ wsp2 ++ lp2 :: tp2) in E.
    rewrite (app_assoc wsp1) in E.
    destruct (run_align_led _ _ _ _ _ _ _ _ Hz1 Hr2
                (led_stops _ _ _ Hwsp2 Hlp2) Hg2 Hws2 Hl2' E)
      as [(ra2 & _ & _ & E2)|(X2 & _ & E2)].
    + rewrite <- E2 in Hz2. apply no_numeral_app in Hz2 as [_ Hz2].
      change (l2 :: t2) with ([l2] ++ t2) in Hz2.
      now apply no_numeral_app in Hz2.
    + exfalso. rewrite <- E2 in Hz2.
      exact (no_numeral_has_nums _ _ _ Hz2 Hg2).
  - exfalso.
    change (wsp1 ++ lp1 :: tp1 ++ r2 ++ wsp2 ++ lp2 :: tp2)
      with (wsp1 ++ (lp1 :: tp1) ++ r2 ++ wsp2 ++ lp2 :: tp2) in E.
    rewrite (app_assoc wsp1) in E.
    destruct (run_align_led _ _ _ _ _ _ _ _ Hz1 Hr2
                (led_stops _ _ _ Hwsp2 Hlp2) Hg Hws Hl2 E)
      as [(ra2 & _ & _ & E2)|(X2 & _ & E2)].
    + rewrite <- E2 in Hz2.
      change (ws ++ l :: t1 ++ g2 ++ ws2 ++ l2 :: t2)
        with (ws ++ (l :: t1) ++ g2 ++ ws2 ++ l2 :: t2) in Hz2.
      rewrite (app_assoc ws) in Hz2.
      exact (no_numeral_has_nums _ _ _ Hz2 Hg2).
    + rewrite <- E2 in Hz2. exact (no_numeral_has_nums _ _ _ Hz2 Hg).
Qed.

(** *** The first numeral of the leftmost match opens the run *)

Lemma start_settles pre G K rest b y0 g tl a z0 ra c0 c1 :
  Forall nonum pre -> never_empty pre \/ matches_empty pre ->
  group_class G K ->
  matches (seq pre) (y0 ++ g ++ tl) (g ++ tl) c0 ->
  matches (seq rest) tl a c1 ->
  no_numeral y0 -> b ++ y0 = z0 ++ ra -> nums ra -> K (ra ++ g) ->
  (forall b1 c b2, b = b1 ++ c :: b2 ->
     exec_at (seq (pre ++ G :: rest)) (c :: b2 ++ y0 ++ g ++ tl) = None) ->
  ra = [].
Proof.
  intros Hpre Hkind HG H0 H1 Hy0 Hb Hra HK Hleft.
  destruct y0 as [|e y0].
  2:{ apply (plain_end b (e :: y0) z0 ra); auto; discriminate. }
  destruct Hkind as [Hne|Hem].
  { exfalso. exact (Hne _ _ _ H0 eq_refl). }
  destruct ra as [|c ra]; [reflexivity|]. exfalso.
  rewrite app_nil_r in Hb. cbn [app] in Hleft.
  specialize (Hleft z0 c ra Hb).
  destruct (Hem (((c :: ra) ++ g) ++ tl)) as [e0 He0].
  destruct (grp_build _ _ HG _ tl HK) as [e1 He1].
  assert (Hm : matches (seq (pre ++ G :: rest)) (((c :: ra) ++ g) ++ tl) a
                 (e0 ++ (e1 ++ c1))).
  { apply matches_seq_app. exists (((c :: ra) ++ g) ++ tl), e0, (e1 ++ c1).
    split; [exact He0|]. split; [|reflexivity].
    exists tl, e1, c1. auto. }
  rewrite <- app_assoc in Hm. exact (exec_at_complete _ _ _ _ Hm Hleft).
Qed.

Lemma opens_run pre G K rest b y0 g tl a z0 ra r1 c0 c1 :
  Forall nonum pre -> never_empty pre \/ matches_empty pre ->
  group_class G K ->
  matches (seq pre) (y0 ++ g ++ tl) (g ++ tl) c0 ->
  matches (seq rest) tl a c1 ->
  no_numeral y0 -> no_numeral z0 ->
  b ++ y0 = z0 ++ ra -> r1 = ra ++ g -> nums r1 -> K r1 ->
  (forall b1 c b2, b = b1 ++ c :: b2 ->
     exec_at (seq (pre ++ G :: rest)) (c :: b2 ++ y0 ++ g ++ tl) = None) ->
  no_numeral b.
Proof.
  intros Hpre Hkind HG H0 H1 Hy0 Hz0 Hb -> Hr1 HK Hleft.
  assert (Hra : nums ra).
  { unfold nums in *. rewrite forallb_app in Hr1.
    now apply andb_true_iff in Hr1 as [Hr1 _]. }
  assert (ra = []) as ->
    by exact (start_settles _ _ _ _ _ _ _ _ _ _ _ _ _
                Hpre Hkind HG H0 H1 Hy0 Hb Hra HK Hleft).
  rewrite app_nil_r in Hb. rewrite <- Hb in Hz0.
  now apply no_numeral_app in Hz0.
Qed.

(** In a name that holds one quantity, which the pattern [p] matches,
    the leftmost match of a pattern [j] that agrees with [p] leaves
    neither digit nor dot: not before it, and not after it. *)
Lemma winner_settles (j p : shape) (pre Q post b used a : jsstring)
    (caps cs : list jsstring) :
  well_shaped j -> well_shaped p -> agree j p ->
  no_numeral pre -> no_numeral post ->
  matches (re_of p) (Q ++ post) post caps ->
  pre ++ Q ++ post = b ++ used ++ a ->
  matches (re_of j) (used ++ a) a cs ->
  (forall b1 c b2, b = b1 ++ c :: b2 ->
     exec_at (re_of j) (c :: b2 ++ used ++ a) = None) ->
  no_numeral b /\ no_numeral a.
Proof.
  intros Wj Wp [Ak Al] Hpre Hpost Hp Hname Hj Hleft.
  remember (used ++ a) as x eqn:Ex. remember (Q ++ post) as q eqn:Eq.
  clear Ex Eq used Q.
  destruct j as [prej Gj Kj Lj tailj|prej Gj Kj Lj midj G2j K2j L2j tailj];
    destruct p as [prep Gp Kp Lp tailp|prep Gp Kp Lp midp G2p K2p L2p tailp];
    cbn [re_of first_lead first_kind] in *.
  - destruct (one_view _ _ _ _ _ _ _ _ Wp Hp)
      as (y0p & r1 & wsp & lp & tp & d0 & d1 & Hq & Hy0p & Hr1 & Hwsp & Hlp
          & Htp & _ & _).
    destruct (one_view _ _ _ _ _ _ _ _ Wj Hj)
      as (y0 & g & ws & l & t & c0 & c1 & Hx & Hy0 & Hg & Hws & Hl & Ht
          & H0 & H1).
    destruct Wj as (Hprej & Hkindj & HGj & HLj & _).
    destruct Wp as (_ & _ & HGp & HLp & _).
    rewrite Hq, Hx in Hname. symmetry in Hname.
    rewrite (app_assoc b), (app_assoc pre) in Hname.
    assert (Hz0 : no_numeral (pre ++ y0p)) by now apply no_numeral_app.
    assert (Htp' : no_numeral (tp ++ post)) by now apply no_numeral_app.
    destruct (settle11 _ _ _ _ _ _ _ _ _ _ Hname Hz0
                (proj2 (grp_nums _ _ HGp _ Hr1)) (grp_nums _ _ HGj _ Hg)
                Hws (HLj _ Hl) Hwsp (HLp _ Hlp) Htp')
      as (ra & HX & Hr & Hll & Hta).
    subst lp. split; [|now apply no_numeral_app in Hta].
    rewrite Hx in Hleft, H0. unfold one in Hleft.
    exact (opens_run _ _ _ _ _ _ _ _ _ _ _ _ _ _
             Hprej Hkindj HGj H0 H1 Hy0 Hz0 HX Hr
             (proj2 (grp_nums _ _ HGp _ Hr1)) (Ak _ Hl Hlp _ Hr1) Hleft).
  - exfalso.
    destruct (two_view _ _ _ _ _ _ _ _ _ _ _ _ Wp Hp)
      as (y0p & r1 & wsp1 & lp1 & tp1 & r2 & wsp2 & lp2 & tp2 & d0 & d1
          & Hq & Hy0p & Hr1 & Hwsp1 & Hlp1 & Htp1 & Hr2 & Hwsp2 & Hlp2
          & Htp2 & _ & _).
    destruct (one_view _ _ _ _ _ _ _ _ Wj Hj)
      as (y0 & g & ws & l & t & c0 & c1 & Hx & Hy0 & Hg & Hws & Hl & Ht
          & H0 & H1).
    destruct Wj as (Hprej & Hkindj & HGj & HLj & _).
    destruct Wp as (_ & _ & HGp & HLp & _ & HG2p & HL2p & _).
    rewrite Hq, Hx in Hname. symmetry in Hname.
    rewrite (app_assoc b), (app_assoc pre) in Hname.
    assert (Hz0 : no_numeral (pre ++ y0p)) by now apply no_numeral_app.
    assert (Htp' : no_numeral (tp2 ++ post)) by now apply no_numeral_app.
    destruct (Al _ Hl) as [Hn1 Hn2].
    destruct (settle12 _ _ _ _ _ _ _ _ _ _ _ _ _ _ Hname Hz0
                (proj2 (grp_nums _ _ HGp _ Hr1)) (grp_nums _ _ HGj _ Hg)
                Hws (HLj _ Hl) Hwsp1 (HLp _ Hlp1) Htp1
                (proj2 (grp_nums _ _ HG2p _ Hr2)) Hwsp2 (HL2p _ Hlp2) Htp')
      as [E|E]; subst l; congruence.
  - exfalso.
    destruct (one_view _ _ _ _ _ _ _ _ Wp Hp)
      as (y0p & r1 & wsp & lp & tp & d0 & d1 & Hq & Hy0p & Hr1 & Hwsp & Hlp
          & Htp & _ & _).
    destruct (two_view _ _ _ _ _ _ _ _ _ _ _ _ Wj Hj)
      as (y0 & g & ws & l & t1 & g2 & ws2 & l2 & t2 & c0 & c1
          & Hx & Hy0 & Hg & Hws & Hl & Ht1 & Hg2 & Hws2 & Hl2
          & Ht2 & H0 & H1).
    destruct Wj as (Hprej & Hkindj & HGj & HLj & _ & HG2j & HL2j & _).
    destruct Wp as (_ & _ & HGp & HLp & _).
    rewrite Hq, Hx in Hname. symmetry in Hname.
    rewrite (app_assoc b), (app_assoc pre) in Hname.
    assert (Hz0 : no_numeral (pre ++ y0p)) by now apply no_numeral_app.
    assert (Htp' : no_numeral (tp ++ post)) by now apply no_numeral_app.
    exact (settle21 _ _ _ _ _ _ _ _ _ _ _ _ Hname Hz0
             (proj2 (grp_nums _ _ HGp _ Hr1)) (grp_nums _ _ HGj _ Hg)
             Hws (proj2 (HLj _ Hl)) (grp_nums _ _ HG2j _ Hg2)
             Hwsp (proj2 (HLp _ Hlp)) Htp').
  - destruct (two_view _ _ _ _ _ _ _ _ _ _ _ _ Wp Hp)
      as (y0p & r1 & wsp1 & lp1 & tp1 & r2 & wsp2 & lp2 & tp2 & d0 & d1
          & Hq & Hy0p & Hr1 & Hwsp1 & Hlp1 & Htp1 & Hr2 & Hwsp2 & Hlp2
          & Htp2 & _ & _).
    destruct (two_view _ _ _ _ _ _ _ _ _ _ _ _ Wj Hj)
      as (y0 & g & ws & l & t1 & g2 & ws2 & l2 & t2 & c0 & c1
          & Hx & Hy0 & Hg & Hws & Hl & Ht1 & Hg2 & Hws2 & Hl2
          & Ht2 & H0 & H1).
    destruct Wj as (Hprej & Hkindj & HGj & HLj & _ & HG2j & HL2j & _).
    destruct Wp as (_ & _ & HGp & HLp & _ & HG2p & HL2p & _).
    rewrite Hq, Hx in Hname. symmetry in Hname.
    rewrite (app_assoc b), (app_assoc pre) in Hname.
    assert (Hz0 : no_numeral (pre ++ y0p)) by now apply no_numeral_app.
    assert (Htp' : no_numeral (tp2 ++ post)) by now apply no_numeral_app.
    destruct (settle22 _ _ _ _ _ _ _ _ _ _ _ _ _ _ _ _ _ _ Hname Hz0
                (proj2 (grp_nums _ _ HGp _ Hr1)) (grp_nums _ _ HGj _ Hg)
                Hws (HLj _ Hl) (grp_nums _ _ HG2j _ Hg2) Hws2
                (proj2 (HL2j _ Hl2)) Hwsp1 (HLp _ Hlp1) Htp1
                (proj2 (grp_nums _ _ HG2p _ Hr2)) Hwsp2
                (proj2 (HL2p _ Hlp2)) Htp')
      as (ra & HX & Hr & Hll & Hta).
    subst lp1. split; [|now apply no_numeral_app in Hta].
    rewrite Hx in Hleft, H0. unfold two in Hleft.
    exact (opens_run _ _ _ _ _ _ _ _ _ _ _ _ _ _
             Hprej Hkindj HGj H0 H1 Hy0 Hz0 HX Hr
             (proj2 (grp_nums _ _ HGp _ Hr1)) (Ak _ Hl Hlp1 _ Hr1) Hleft).
Qed.

(** ** The first pattern of a cascade that matches *)

Lemma replace_leftmost r s caps :
  String_match r s = Some caps ->
  exists b used a,
    s = b ++ used ++ a /\ matches r (used ++ a) a caps
    /\ String_replace_empty r s = b ++ a
    /\ forall b1 c b2, b = b1 ++ c :: b2 ->
         exec_at r (c :: b2 ++ used ++ a) = None.
Proof.
  unfold String_match, String_replace_empty. intros H.
  destruct (search r [] s) as [[[before caps'] rest]|] eqn:Hs;
    [|discriminate].
  inversion H; subst.
  apply search_leftmost in Hs as (b0 & s0 & Hb & Hs0 & Hm & Hleft).
  simpl in Hb. subst before.
  destruct (matches_suffix _ _ _ _ Hm) as [used ->].
  exists b0, used, rest. auto.
Qed.

(** In a name that holds one quantity, the first pattern of the cascade
    that matches removes every digit and every dot. *)
Lemma cascade_settles (shapes : list shape) (name : jsstring)
    (earlier : list re) (j : re) (later : list re) :
  Forall well_shaped shapes ->
  (forall se sj sl sp,
     shapes = se ++ sj :: sl -> In sp (sj :: sl) -> agree sj sp) ->
  single_quantity (List.map re_of shapes) name ->
  List.map re_of shapes = earlier ++ j :: later ->
  Forall (fun q => String_match q name = None) earlier ->
  String_match j name <> None ->
  no_numeral (String_replace_empty j name).
Proof.
  intros Hws Hag (pre & Q & post & p & caps & Hname & Hpre & Hpost & Hin & Hm)
    Hsplit Hearlier Hj.
  rewrite Hsplit in Hin. apply in_app_or in Hin as [Hin|Hin].
  { exfalso. rewrite List.Forall_forall in Hearlier.
    specialize (Hearlier p Hin). rewrite Hname in Hearlier.
    exact (String_match_finds _ _ _ _ _ Hm Hearlier). }
  apply List.map_eq_app in Hsplit as (se & sl' & Hshapes & Hse & Hsl').
  destruct sl' as [|sj sl]; [discriminate|].
  simpl in Hsl'. injection Hsl' as Hj' Hsl.
  rewrite <- Hj', <- Hsl in Hin.
  change (In p (List.map re_of (sj :: sl))) in Hin.
  apply List.in_map_iff in Hin as (sp & Hsp & Hin).
  subst j p.
  destruct (String_match (re_of sj) name) as [cs|] eqn:Hsm; [|contradiction].
  apply replace_leftmost in Hsm as (b & used & a & Hn & Hmatch & Hrep & Hleft).
  rewrite Hrep. apply no_numeral_app.
  rewrite List.Forall_forall in Hws.
  apply (winner_settles sj sp pre Q post b used a caps cs).
  - apply Hws. rewrite Hshapes. apply in_elt.
  - apply Hws. rewrite Hshapes. apply in_or_app. now right.
  - exact (Hag _ _ _ _ Hshapes Hin).
  - exact Hpre.
  - exact Hpost.
  - exact Hm.
  - now rewrite <- Hname.
  - exact Hmatch.
  - exact Hleft.
Qed.

Lemma single_quantity_truthy patterns name :
  Forall (demands digit_or_dot) patterns ->
  single_quantity patterns name -> or_default name (lit "Unnamed Item") = name.
Proof.
  intros Hd (pre & Q & post & p & caps & -> & _ & _ & Hin & Hm).
  rewrite List.Forall_forall in Hd.
  pose proof (demands_used _ _ _ _ _ (Hd p Hin) Hm) as HQ.
  destruct pre; [destruct Q; [contradiction|reflexivity]|reflexivity].
Qed.

(** *** The manager view *)

Lemma parseWeight_first name category :
  let n0 := or_default name (lit "Unnamed Item") in
  let r := Manager.parseWeight (Item.named name category) in
  r = Manager.mkParsed n0 []
  \/ exists earlier p later,
       manager_patterns = earlier ++ p :: later
       /\ Forall (fun q => String_match q n0 = None) earlier
       /\ String_match p n0 <> None
       /\ Manager.itemName r = trim (String_replace_empty p n0).
Proof.
  intros n0 r. subst r.
  unfold Manager.parseWeight, Manager.try_pattern, Manager.unless_weight.
  cbn [Item.ITEM Item.CATEGORY Item.named Manager.itemName
       Manager.weightInfo].
  fold n0. rewrite or_default_empty.
  destruct (String_match Manager.pattern1 n0) as [c1|] eqn:H1;
    cbn [Manager.itemName Manager.weightInfo].
  { right. exists [], Manager.pattern1, (List.tl manager_patterns).
    rewrite !weight_div_truthy.
    destruct (Manager.beverage_like category);
      rewrite ?weight_div_truthy;
      cbn [negb andb Manager.itemName Manager.weightInfo];
      (split; [reflexivity|]); (split; [constructor|]);
      (split; [congruence|reflexivity]). }
  cbn [truthy negb].
  destruct (String_match Manager.pattern2 n0) as [c2|] eqn:H2;
    cbn [Manager.itemName Manager.weightInfo].
  { right. exists [Manager.pattern1], Manager.pattern2,
      (List.tl (List.tl manager_patterns)).
    rewrite !weight_div_truthy.
    destruct (Manager.beverage_like category);
      rewrite ?weight_div_truthy;
      cbn [negb andb Manager.itemName Manager.weightInfo];
      (split; [reflexivity|]); (split; [repeat constructor; assumption|]);
      (split; [congruence|reflexivity]). }
  cbn [truthy negb].
  destruct (String_match Manager.pattern3 n0) as [c3|] eqn:H3;
    cbn [Manager.itemName Manager.weightInfo].
  { right. exists [Manager.pattern1; Manager.pattern2], Manager.pattern3,
      (List.tl (List.tl (List.tl manager_patterns))).
    rewrite !weight_div_truthy.
    destruct (Manager.beverage_like category);
      rewrite ?weight_div_truthy;
      cbn [negb andb Manager.itemName Manager.weightInfo];
      (split; [reflexivity|]); (split; [repeat constructor; assumption|]);
      (split; [congruence|reflexivity]). }
  cbn [truthy negb].
  destruct (String_match Manager.pattern4 n0) as [c4|] eqn:H4;
    cbn [Manager.itemName Manager.weightInfo].
  { right.
    exists [Manager.pattern1; Manager.pattern2; Manager.pattern3],
      Manager.pattern4, [Manager.pattern5; Manager.pattern6].
    destruct (Manager.beverage_like category);
      rewrite ?weight_div_truthy;
      cbn [negb andb Manager.itemName Manager.weightInfo];
      (split; [reflexivity|]); (split; [repeat constructor; assumption|]);
      (split; [congruence|reflexivity]). }
  cbn [truthy negb].
  destruct (String_match Manager.pattern5 n0) as [c5|] eqn:H5;
    cbn [Manager.itemName Manager.weightInfo].
  { right.
    exists [Manager.pattern1; Manager.pattern2; Manager.pattern3;
            Manager.pattern4],
      Manager.pattern5, [Manager.pattern6].
    destruct (Manager.beverage_like category);
      rewrite ?weight_div_truthy;
      cbn [negb andb Manager.itemName Manager.weightInfo];
      (split; [reflexivity|]); (split; [repeat constructor; assumption|]);
      (split; [congruence|reflexivity]). }
  cbn [truthy negb andb].
  destruct (Manager.beverage_like category); cbn [negb]; [now left|].
  destruct (String_match Manager.pattern6 n0) as [c6|] eqn:H6; [|now left].
  right.
  exists [Manager.pattern1; Manager.pattern2; Manager.pattern3;
          Manager.pattern4; Manager.pattern5],
    Manager.pattern6, [].
  cbn [Manager.itemName].
  split; [reflexivity|]. split; [repeat constructor; assumption|].
  split; [congruence|reflexivity].
Qed.

Lemma parseWeight_default name category :
  Manager.parseWeight
    (Item.named (or_default name (lit "Unnamed Item")) category)
  = Manager.parseWeight (Item.named name category).
Proof.
  unfold Manager.parseWeight. cbn [Item.ITEM Item.CATEGORY Item.named].
  assert (E : or_default (or_default name (lit "Unnamed Item"))
                (lit "Unnamed Item")
              = or_default name (lit "Unnamed Item"))
    by (destruct name; reflexivity).
  rewrite E. reflexivity.
Qed.

Lemma trim_plain s : no_numeral s -> no_numeral (trim s).
Proof.
  intros H. destruct (trim_infix s) as (l & r & E & _ & _).
  rewrite E in H. apply no_numeral_app in H as [_ H].
  now apply no_numeral_app in H.
Qed.

Lemma manager_settled name category :
  no_numeral name -> name <> [] ->
  Manager.parseWeight (Item.named name category) = Manager.mkParsed name [].
Proof.
  intros Hn Hne.
  rewrite (parseWeight_unmatched _ (parseWeight_no_numeral _ category Hn)).
  cbn [Item.ITEM Item.named]. destruct name; [contradiction|reflexivity].
Qed.

Lemma manager_unmatched_again name category :
  let r := Manager.parseWeight (Item.named name category) in
  Manager.weightInfo r = [] ->
  Manager.parseWeight (Item.named (Manager.itemName r) category)
  = Manager.mkParsed (Manager.itemName r) [].
Proof.
  intros r Hw. subst r.
  pose proof (parseWeight_unmatched _ Hw) as E.
  cbn [Item.ITEM Item.named] in E. rewrite E.
  cbn [Manager.itemName]. rewrite parseWeight_default. exact E.
Qed.

Lemma manager_one_quantity name category :
  let r := Manager.parseWeight (Item.named name category) in
  single_quantity manager_patterns name ->
  Manager.itemName r <> [] ->
  Manager.parseWeight (Item.named (Manager.itemName r) category)
  = Manager.mkParsed (Manager.itemName r) [].
Proof.
  intros r Hone Hne.
  assert (Hd : Forall (demands digit_or_dot) manager_patterns).
  { destruct manager_patterns_demand as (D1 & D2 & D3 & D4 & D5 & D6).
    repeat constructor; assumption. }
  pose proof (single_quantity_truthy _ _ Hd Hone) as Hn0.
  destruct (parseWeight_first name category)
    as [E|(earlier & p & later & Hsplit & Hearlier & Hp & E)];
    cbv zeta in E; fold r in E; rewrite Hn0 in *.
  - apply manager_unmatched_again. fold r. now rewrite E.
  - apply manager_settled; [|exact Hne]. rewrite E. apply trim_plain.
    rewrite <- manager_shapes_patterns in Hone, Hsplit.
    exact (cascade_settles manager_shapes name earlier p later
             manager_well_shaped manager_agree Hone Hsplit Hearlier Hp).
Qed.

(** *** The public view *)

Lemma extractLabel_first name :
  let l := Public.extractLabel name in
  l = Public.mkLabel name [] []
  \/ exists earlier p later,
       public_patterns = earlier ++ p :: later
       /\ Forall (fun q => String_match q name = None) earlier
       /\ String_match p name <> None
       /\ Public.cleanedName l = String_replace_empty p name.
Proof.
  intros l. subst l.
  destruct public_twins as (T1 & T2 & T3 & T4 & T5).
  unfold Public.extractLabel.
  destruct (String_match Public.match1 name) as [c1|] eqn:H1.
  { right. exists [], Public.match1, (List.tl public_patterns).
    cbn [Public.cleanedName]. rewrite <- T1, (proj1 (replace_strip _ _)).
    split; [reflexivity|]. split; [constructor|].
    split; [congruence|reflexivity]. }
  destruct (String_match Public.match2 name) as [c2|] eqn:H2.
  { right. exists [Public.match1], Public.match2,
      (List.tl (List.tl public_patterns)).
    pose proof (match2_captures _ _ H2) as Ht.
    cbn [Public.grams]. rewrite Ht. cbn [negb Public.cleanedName].
    rewrite <- T2, (proj1 (replace_strip _ _)).
    split; [reflexivity|]. split; [repeat constructor; assumption|].
    split; [congruence|reflexivity]. }
  destruct (String_match Public.match3 name) as [c3|] eqn:H3.
  { right. exists [Public.match1; Public.match2], Public.match3,
      [Public.match4; Public.match5].
    pose proof (match3_captures _ _ H3) as Ht.
    cbn [Public.grams]. rewrite Ht. cbn [negb Public.cleanedName].
    rewrite <- T3, (proj1 (replace_strip _ _)).
    split; [reflexivity|]. split; [repeat constructor; assumption|].
    split; [congruence|reflexivity]. }
  cbn [Public.grams truthy negb].
  destruct (String_match Public.match4 name) as [c4|] eqn:H4.
  { right. exists [Public.match1; Public.match2; Public.match3],
      Public.match4, [Public.match5].
    cbn [Public.cleanedName]. rewrite <- T4, (proj1 (replace_strip _ _)).
    split; [reflexivity|]. split; [repeat constructor; assumption|].
    split; [congruence|reflexivity]. }
  destruct (String_match Public.match5 name) as [c5|] eqn:H5; [|now left].
  right. exists [Public.match1; Public.match2; Public.match3; Public.match4],
    Public.match5, [].
  cbn [Public.cleanedName]. rewrite <- T5, (proj1 (replace_strip _ _)).
  split; [reflexivity|]. split; [repeat constructor; assumption|].
  split; [congruence|reflexivity].
Qed.

Lemma public_one_quantity name :
  let l := Public.extractLabel name in
  single_quantity public_patterns name ->
  Public.extractLabel (Public.cleanedName l)
  = Public.mkLabel (Public.cleanedName l) [] [].
Proof.
  intros l Hone.
  destruct (extractLabel_first name)
    as [E|(earlier & p & later & Hsplit & Hearlier & Hp & E)];
    cbv zeta in E; fold l in E.
  - rewrite E. cbn [Public.cleanedName]. exact E.
  - apply extractLabel_no_numeral. rewrite E.
    rewrite <- public_shapes_patterns in Hone, Hsplit.
    exact (cascade_settles public_shapes name earlier p later
             public_well_shaped public_agree Hone Hsplit Hearlier Hp).
Qed.

(** *** Extracting twice from a name that holds one quantity *)

(** C1 (amended).  The extractors are total functions of the name, so
    they cannot throw.  Applying an extractor to the cleaned name of a
    first application returns that name and no quantity, whenever the
    first application finds no quantity, and whenever the name holds one
    quantity: a stretch that one of the patterns of the view matches
    from its first to its last code unit, and neither digit nor dot
    outside it.  In the manager view the cleaned name must not be empty,
    since [renderItem] shows an empty name as "Unnamed Item". *)
Theorem extraction_idempotent_on_one_quantity (name category : jsstring) :
  let r := Manager.parseWeight (Item.named name category) in
  let mc := Manager.itemName r in
  let l := Public.extractLabel name in
  let pc := Public.cleanedName l in
  (Manager.weightInfo r = [] \/ single_quantity manager_patterns name ->
   mc <> [] ->
   Manager.parseWeight (Item.named mc category) = Manager.mkParsed mc [])
  /\ ((Public.grams l = [] /\ Public.ounces l = [])
      \/ single_quantity public_patterns name ->
      Public.extractLabel pc = Public.mkLabel pc [] []).
Proof.
  intros r mc l pc. split.
  - intros [Hw|Hone] Hne.
    + now apply manager_unmatched_again.
    + now apply manager_one_quantity.
  - intros [[Hg Ho]|Hone].
    + pose proof (extractLabel_unmatched _ Hg Ho) as E.
      unfold pc, l. rewrite E. cbn [Public.cleanedName]. exact E.
    + now apply public_one_quantity.
Qed.

Lemma extraction_idempotent_on_one_quantity_witness :
  let name := lit "Big Mac 7.6 oz (215 g)" in
  let category := lit "BURGERSANDWICH" in
  let mc :=
    Manager.itemName (Manager.parseWeight (Item.named name category)) in
  let pc := Public.cleanedName (Public.extractLabel name) in
  (mc = lit "Big Mac" /\ pc = lit "Big Mac")
  /\ Manager.parseWeight (Item.named mc category) = Manager.mkParsed mc []
  /\ Public.extractLabel pc = Public.mkLabel pc [] [].
Proof.
  cbv zeta. split; [split; vm_compute; reflexivity|].
  refine (let H := extraction_idempotent_on_one_quantity
                     (lit "Big Mac 7.6 oz (215 g)") (lit "BURGERSANDWICH") in
          conj (proj1 H (or_intror _) _) (proj2 H (or_intror _))).
  - exists (lit "Big Mac "), (lit "7.6 oz (215 g)"), [], Manager.pattern4,
      [lit "7.6"; lit "215"].
    split; [reflexivity|]. split; [reflexivity|]. split; [reflexivity|].
    split; [right; right; right; left; reflexivity|].
    apply exec_at_sound. vm_compute. reflexivity.
  - vm_compute. discriminate.
  - exists (lit "Big Mac"), (lit " 7.6 oz (215 g)"), [], Public.match1,
      [lit "7.6"; lit "215"].
    split; [reflexivity|]. split; [reflexivity|]. split; [reflexivity|].
    split; [left; reflexivity|].
    apply exec_at_sound. vm_compute. reflexivity.
Defined.

(** The manager view shows an empty cleaned name as "Unnamed Item": a
    name that is nothing but a quantity is cleaned to the empty name,
    and the second application returns the placeholder. *)
Example extraction_empties_name :
  let r := Manager.parseWeight (Item.named (lit "168 g") (lit "SNACKSIDE")) in
  single_quantity manager_patterns (lit "168 g")
  /\ Manager.itemName r = []
  /\ Manager.parseWeight (Item.named (Manager.itemName r) (lit "SNACKSIDE"))
     = Manager.mkParsed (lit "Unnamed Item") [].
Proof.
  cbv zeta. split; [|split; vm_compute; reflexivity].
  exists [], (lit "168 g"), [], Manager.pattern6, [lit "168"].
  split; [reflexivity|]. split; [reflexivity|]. split; [reflexivity|].
  split; [do 5 right; left; reflexivity|].
  apply exec_at_sound. vm_compute. reflexivity.
Qed.
